(** * Manufacturing execution tracking: serial allocation and process workflow

    A shallow embedding of the decision logic of the Django application:
    - [serials/services.py]: the bucketed serial-number generator and its
      validator/decoder;
    - [manufacturing/services.py]: [ManufacturingProcessService] and the
      order-based serial generator with its validators;
    - [manufacturing/views_operator.py]: the operator request handlers
      [assign_operation], [reassign_operation], [release_operation],
      [complete_operation] and [reject_serial_number];
    - [defects/views.py]: the repair request handler [resolve_defect];
    - [operators/views.py]: its own [assign_operation];
    - [manufacturing/signals.py]: the model signal receivers;
    - [operations/models.py], [serials/models.py]: model methods.

    Conventions.  A database table is a list of rows and row [i] stands for
    the primary key [i+1]; rows are never deleted by the modelled handlers.
    [timezone.now()] is a parameter [now] of each request.  Identifiers are
    ASCII strings, the database orders them bytewise, and [\d] is an ASCII
    digit. *)

From Stdlib Require Import ZArith Lia Bool Ascii String Sorted.
From stdpp Require Import base option list.

Local Open Scope string_scope.
Local Open Scope nat_scope.

(** ** Outcomes of fallible code *)

Inductive outcome (E A : Type) : Type :=
| Ok (a : A)
| Raise (e : E).
Arguments Ok {E A} a.
Arguments Raise {E A} e.

(** * serials/services.py *)

Module Serials.

(** The exceptions [generate_serial_number] can leave with. *)
Inductive gen_error : Type :=
| PartNotAuthorized      (* ValueError: AuthorizedPart.DoesNotExist *)
| YearNotSupported       (* ValueError: year < base_year *)
| YearOutOfRange         (* ValueError: year_offset > 25 *)
| InvalidMonth           (* ValueError: month < 1 or month > 12 *)
| SerialLimitReached     (* ValueError: first_num > 999 *)
| PatternError           (* re.error while compiling the pattern *)
| IntegrityError.        (* unique constraint on serial_number *)

Definition ord (c : ascii) : Z := Z.of_nat (nat_of_ascii c).
Definition chr (z : Z) : ascii := ascii_of_nat (Z.to_nat z).

(** [SerialNumberGenerator.get_year_letter] *)
Definition get_year_letter (year : Z) : outcome gen_error ascii :=
  let base_year := 2025%Z in
  if (year <? base_year)%Z then Raise YearNotSupported
  else
    let year_offset := (year - base_year)%Z in
    if (year_offset >? 25)%Z then Raise YearOutOfRange
    else Ok (chr (ord "K" + year_offset)).

(** [SerialNumberGenerator.get_month_letter] *)
Definition get_month_letter (month : Z) : outcome gen_error ascii :=
  if ((month <? 1) || (month >? 12))%Z then Raise InvalidMonth
  else Ok (chr (ord "A" + month - 1)).

(** *** Formatting and parsing of the counters *)

Definition digit_char (d : nat) : ascii := ascii_of_nat (48 + d).

(** Decimal digits of [n], most significant first ([fuel] bounds the
    number of digits). *)
Fixpoint decimal (fuel n : nat) (acc : string) : string :=
  match fuel with
  | O => acc
  | S fuel' =>
      let acc' := String (digit_char (n mod 10)) acc in
      if n / 10 =? 0 then acc' else decimal fuel' (n / 10) acc'
  end.

Definition str (n : nat) : string := decimal (S n) n "".

Fixpoint zeros (k : nat) : string :=
  match k with
  | O => ""
  | S k' => String "0" (zeros k')
  end.

(** The format specification [:03d]: zero padding to width 3, never
    truncating. *)
Definition pad3 (n : nat) : string :=
  let s := str n in zeros (3 - String.length s) ++ s.

Definition is_digit (c : ascii) : bool :=
  (48 <=? nat_of_ascii c) && (nat_of_ascii c <=? 57).

Definition digit_val (c : ascii) : nat := nat_of_ascii c - 48.

(** [\d{3}] at the head of [s]: the value [int] gives the group and the
    rest of the string. *)
Definition take_digits3 (s : string) : option (nat * string) :=
  match s with
  | String a (String b (String c rest)) =>
      if is_digit a && is_digit b && is_digit c
      then Some (100 * digit_val a + 10 * digit_val b + digit_val c, rest)
      else None
  | _ => None
  end.

(** [(\d{3})-(\d{3})M] at the head of [s] (nothing is required of what
    follows the [M]). *)
Definition match_counters (s : string) : option (nat * nat * string) :=
  match take_digits3 s with
  | Some (first, String "-" s1) =>
      match take_digits3 s1 with
      | Some (second, String "M" rest) => Some (first, second, rest)
      | _ => None
      end
  | _ => None
  end.

(** *** The pattern built from the prefix

    [pattern = f'{prefix}(\\d{{3}})-(\\d{{3}})M'] pastes the two prefix
    letters into a regular expression unescaped.  For the letters the two
    letter functions can return, the regular expression engine reads them as
    follows: an opening bracket starts a character set that the rest of the
    pattern does not close properly (a compile error); a backslash forms an
    escape with the month letter ([\A] start of string, [\B] not a word
    boundary, [\D] a non-digit, every other month letter a bad escape); a
    caret is the start-of-string anchor; every other letter is itself. *)
Inductive prefix_item : Type :=
| PLit (c : ascii)
| PStart
| PNotBoundary
| PNonDigit.

Definition compile_prefix (year_letter month_letter : ascii)
  : option (list prefix_item) :=
  if (year_letter =? "[")%char then None
  else if (year_letter =? "\")%char then
    if (month_letter =? "A")%char then Some [PStart]
    else if (month_letter =? "B")%char then Some [PNotBoundary]
    else if (month_letter =? "D")%char then Some [PNonDigit]
    else None
  else if (year_letter =? "^")%char then Some [PStart; PLit month_letter]
  else Some [PLit year_letter; PLit month_letter].

Definition is_word (c : ascii) : bool :=
  let n := nat_of_ascii c in
  is_digit c || ((65 <=? n) && (n <=? 90)) || ((97 <=? n) && (n <=? 122))
  || (n =? 95).

(** The prefix items are matched from position 0 on ([re.match]); only the
    first item can be an anchor or [\B], and position 0 is where they apply. *)
Fixpoint match_prefix (items : list prefix_item) (s : string) : option string :=
  match items with
  | [] => Some s
  | PLit c :: items' =>
      match s with
      | String a s' => if (a =? c)%char then match_prefix items' s' else None
      | EmptyString => None
      end
  | PStart :: items' => match_prefix items' s
  | PNotBoundary :: items' =>
      match s with
      | String a _ => if is_word a then None else match_prefix items' s
      | EmptyString => match_prefix items' s
      end
  | PNonDigit :: items' =>
      match s with
      | String a s' => if is_digit a then None else match_prefix items' s'
      | EmptyString => None
      end
  end.

(** [re.match(pattern, serial)]: [Raise] for a pattern that does not
    compile, otherwise the two groups as integers, or [None]. *)
Definition re_match_prefixed (year_letter month_letter : ascii) (s : string)
  : outcome gen_error (option (nat * nat)) :=
  match compile_prefix year_letter month_letter with
  | None => Raise PatternError
  | Some items =>
      match match_prefix items s with
      | Some rest =>
          match match_counters rest with
          | Some (first, second, _) => Ok (Some (first, second))
          | None => Ok None
          end
      | None => Ok None
      end
  end.

(** *** The store of identifiers *)

(** [filter(serial_number__startswith=prefix)] *)
Definition startswith (prefix s : string) : bool := String.prefix prefix s.

(** [order_by('-serial_number').first()] *)
Fixpoint greatest (l : list string) : option string :=
  match l with
  | [] => None
  | x :: l' =>
      match greatest l' with
      | None => Some x
      | Some y => if String.ltb y x then Some x else Some y
      end
  end.

Definition last_serial (prefix : string) (store : list string) : option string :=
  greatest (List.filter (startswith prefix) store).

Definition format_serial (prefix : string) (first_num second_num : nat) : string :=
  prefix ++ pad3 first_num ++ "-" ++ pad3 second_num ++ "M".

Definition exists_serial (s : string) (store : list string) : bool :=
  existsb (String.eqb s) store.

(** [SerialNumberGenerator.generate_serial_number], for the wall-clock
    date [year]/[month]; [authorized] is the outcome of the
    [AuthorizedPart] lookup and [store] the [serial_number] column.  The
    result is the new identifier together with the store after
    [SerialNumber.objects.create]; an exception leaves the store as it was
    ([transaction.atomic]). *)
Definition generate_serial_number (authorized : bool) (year month : Z)
    (store : list string) : outcome gen_error (string * list string) :=
  if negb authorized then Raise PartNotAuthorized else
  match get_year_letter year with
  | Raise e => Raise e
  | Ok year_letter =>
  match get_month_letter month with
  | Raise e => Raise e
  | Ok month_letter =>
  let prefix := String year_letter (String month_letter "") in
  let counters : outcome gen_error (nat * nat) :=
    match last_serial prefix store with
    | Some last =>
        match re_match_prefixed year_letter month_letter last with
        | Raise e => Raise e
        | Ok (Some (first_num, second_num)) =>
            if second_num <? 999 then Ok (first_num, second_num + 1)
            else
              let first_num := first_num + 1 in
              let second_num := 1 in
              if 999 <? first_num then Raise SerialLimitReached
              else Ok (first_num, second_num)
        | Ok None => Ok (1, 1)
        end
    | None => Ok (1, 1)
    end in
  match counters with
  | Raise e => Raise e
  | Ok (first_num, second_num) =>
      let serial_number := format_serial prefix first_num second_num in
      if exists_serial serial_number store then Raise IntegrityError
      else Ok (serial_number, (store ++ [serial_number])%list)
  end
  end
  end.

(** *** SerialNumberValidator *)

Definition in_range (lo hi c : ascii) : bool :=
  (nat_of_ascii lo <=? nat_of_ascii c) && (nat_of_ascii c <=? nat_of_ascii hi).

(** [$] matches at the end of the string and also just before a newline
    that ends the string. *)
Definition at_end (s : string) : bool :=
  match s with
  | EmptyString => true
  | String c EmptyString => (c =? "010")%char
  | _ => false
  end.

(** The groups of [^[K-Z][A-L](\d{3})-(\d{3})M$]. *)
Definition match_serial (s : string) : option (nat * nat) :=
  match s with
  | String y (String m rest) =>
      if in_range "K" "Z" y && in_range "A" "L" m then
        match match_counters rest with
        | Some (first, second, tail) =>
            if at_end tail then Some (first, second) else None
        | None => None
        end
      else None
  | _ => None
  end.

(** [SerialNumberValidator.validate_serial_format] *)
Definition validate_serial_format (serial_number : string) : bool :=
  match match_serial serial_number with
  | Some _ => true
  | None => false
  end.

Record serial_info : Type := {
  year : Z;
  month : Z;
  first_sequence : nat;
  second_sequence : nat;
  info_year_letter : ascii;
  info_month_letter : ascii
}.

(** [SerialNumberValidator.decode_serial_info]; [None] is the invalid
    format answer. *)
Definition decode_serial_info (serial_number : string) : option serial_info :=
  if negb (validate_serial_format serial_number) then None
  else
    match serial_number with
    | String year_letter (String month_letter _) =>
        let year := (2025 + (ord year_letter - ord "K"))%Z in
        let month := (ord month_letter - ord "A" + 1)%Z in
        let '(first_seq, second_seq) :=
          match match_serial serial_number with
          | Some (a, b) => (a, b)
          | None => (0, 0)
          end in
        Some {| year := year; month := month;
                first_sequence := first_seq; second_sequence := second_seq;
                info_year_letter := year_letter;
                info_month_letter := month_letter |}
    | _ => None
    end.

(** The identifier of the bucket [year]/[month] with the given counters. *)
Definition serial_of (year_letter month_letter : ascii) (first_num second_num : nat)
  : string :=
  format_serial (String year_letter (String month_letter "")) first_num second_num.

(** The store after [n] more allocations in the month [year]/[month]. *)
Fixpoint store_after (year month : Z) (store : list string) (n : nat)
  : list string :=
  match n with
  | O => store
  | S n' =>
      let st := store_after year month store n' in
      match generate_serial_number true year month st with
      | Ok (_, st') => st'
      | Raise _ => st
      end
  end.

(** The identifiers of a bucket in [store] are generated ones and the one
    with the counters [first_num], [second_num] is the last of them. *)
Definition bucket_state (year_letter month_letter : ascii) (store : list string)
    (first_num second_num : nat) : Prop :=
  first_num < 1000 /\ second_num < 1000
  /\ In (serial_of year_letter month_letter first_num second_num) store
  /\ forall x, In x store ->
       startswith (String year_letter (String month_letter "")) x = true ->
       exists f k, f < 1000 /\ k < 1000
                   /\ x = serial_of year_letter month_letter f k
                   /\ 1000 * f + k <= 1000 * first_num + second_num.

(** [pad3 n] is three digits that read back as [n]. *)
Definition pad3_reads_back (n : nat) : bool :=
  match pad3 n with
  | String a (String b (String c EmptyString)) =>
      is_digit a && is_digit b && is_digit c
      && (100 * digit_val a + 10 * digit_val b + digit_val c =? n)
  | _ => false
  end.

End Serials.

(** * The tables of the workflow *)

Module Workflow.

(** [ProcessRecord.STATUS_CHOICES] *)
Inductive record_status : Type := PENDING | IN_PROGRESS | APPROVED | REJECTED.

(** [SerialNumber.STATUS_CHOICES] *)
Inductive serial_status : Type :=
| S_CREATED | S_IN_PROCESS | S_COMPLETED | S_REJECTED | S_DEFECTIVE | S_SCRAPPED.

(** [Defect.DEFECT_STATUS_CHOICES] *)
Inductive defect_status : Type := D_OPEN | D_IN_REPAIR | D_REPAIRED | D_SCRAPPED.

(** [UserProfile.role] *)
Inductive role : Type := OPERATOR | SUPERVISOR | QUALITY | ADMIN | REPAIRER.

#[export] Instance record_status_eq_dec : EqDecision record_status.
Proof. solve_decision. Defined.
#[export] Instance serial_status_eq_dec : EqDecision serial_status.
Proof. solve_decision. Defined.
#[export] Instance defect_status_eq_dec : EqDecision defect_status.
Proof. solve_decision. Defined.
#[export] Instance role_eq_dec : EqDecision role.
Proof. solve_decision. Defined.

(** [operations.models.Operation] *)
Record Operation : Type := {
  sequence_number : nat;
  is_active : bool
}.

(** [serials.models.SerialNumber]: the columns the workflow writes. *)
Record SerialNumber : Type := {
  sn_status : serial_status;
  sn_completed_at : option nat
}.

(** [operations.models.ProcessRecord]; [pr_serial] and [pr_operation] are
    the foreign keys [serial_number] and [operation]. *)
Record ProcessRecord : Type := {
  pr_serial : nat;
  pr_operation : nat;
  status : record_status;
  processed_by : option nat;
  assigned_operator : option nat;
  started_at : option nat;
  completed_at : option nat;
  assigned_at : option nat;
  notes : string;
  quality_check_passed : bool;
  rejection_reason : string;
  defect_type : string
}.

(** [defects.models.Defect] *)
Record Defect : Type := {
  d_serial : nat;
  d_operation : nat;
  d_defect_type : string;
  d_description : string;
  d_status : defect_status;
  d_reported_by : nat;
  d_assigned_repairer : option nat;
  d_resolved_by : option nat;
  d_repair_notes : string;
  d_return_to_operation : option nat;
  d_resolved_at : option nat
}.

(** The database.  [users] holds, per [User] row, the role of its
    [userprofile] ([None]: the user has no profile). *)
Record DB : Type := {
  operations : list Operation;
  serials : list SerialNumber;
  process_records : list ProcessRecord;
  defects : list Defect;
  users : list (option role)
}.

(** Attribute assignments on a model instance. *)
Definition set_status (s : record_status) (r : ProcessRecord) : ProcessRecord :=
  {| pr_serial := pr_serial r; pr_operation := pr_operation r; status := s;
     processed_by := processed_by r; assigned_operator := assigned_operator r;
     started_at := started_at r; completed_at := completed_at r;
     assigned_at := assigned_at r; notes := notes r;
     quality_check_passed := quality_check_passed r;
     rejection_reason := rejection_reason r; defect_type := defect_type r |}.

Definition set_processed_by (u : option nat) (r : ProcessRecord) : ProcessRecord :=
  {| pr_serial := pr_serial r; pr_operation := pr_operation r; status := status r;
     processed_by := u; assigned_operator := assigned_operator r;
     started_at := started_at r; completed_at := completed_at r;
     assigned_at := assigned_at r; notes := notes r;
     quality_check_passed := quality_check_passed r;
     rejection_reason := rejection_reason r; defect_type := defect_type r |}.

Definition set_assigned_operator (u : option nat) (r : ProcessRecord) : ProcessRecord :=
  {| pr_serial := pr_serial r; pr_operation := pr_operation r; status := status r;
     processed_by := processed_by r; assigned_operator := u;
     started_at := started_at r; completed_at := completed_at r;
     assigned_at := assigned_at r; notes := notes r;
     quality_check_passed := quality_check_passed r;
     rejection_reason := rejection_reason r; defect_type := defect_type r |}.

Definition set_started_at (t : option nat) (r : ProcessRecord) : ProcessRecord :=
  {| pr_serial := pr_serial r; pr_operation := pr_operation r; status := status r;
     processed_by := processed_by r; assigned_operator := assigned_operator r;
     started_at := t; completed_at := completed_at r;
     assigned_at := assigned_at r; notes := notes r;
     quality_check_passed := quality_check_passed r;
     rejection_reason := rejection_reason r; defect_type := defect_type r |}.

Definition set_completed_at (t : option nat) (r : ProcessRecord) : ProcessRecord :=
  {| pr_serial := pr_serial r; pr_operation := pr_operation r; status := status r;
     processed_by := processed_by r; assigned_operator := assigned_operator r;
     started_at := started_at r; completed_at := t;
     assigned_at := assigned_at r; notes := notes r;
     quality_check_passed := quality_check_passed r;
     rejection_reason := rejection_reason r; defect_type := defect_type r |}.

Definition set_assigned_at (t : option nat) (r : ProcessRecord) : ProcessRecord :=
  {| pr_serial := pr_serial r; pr_operation := pr_operation r; status := status r;
     processed_by := processed_by r; assigned_operator := assigned_operator r;
     started_at := started_at r; completed_at := completed_at r;
     assigned_at := t; notes := notes r;
     quality_check_passed := quality_check_passed r;
     rejection_reason := rejection_reason r; defect_type := defect_type r |}.

Definition set_notes (n : string) (r : ProcessRecord) : ProcessRecord :=
  {| pr_serial := pr_serial r; pr_operation := pr_operation r; status := status r;
     processed_by := processed_by r; assigned_operator := assigned_operator r;
     started_at := started_at r; completed_at := completed_at r;
     assigned_at := assigned_at r; notes := n;
     quality_check_passed := quality_check_passed r;
     rejection_reason := rejection_reason r; defect_type := defect_type r |}.

Definition set_quality_check_passed (q : bool) (r : ProcessRecord) : ProcessRecord :=
  {| pr_serial := pr_serial r; pr_operation := pr_operation r; status := status r;
     processed_by := processed_by r; assigned_operator := assigned_operator r;
     started_at := started_at r; completed_at := completed_at r;
     assigned_at := assigned_at r; notes := notes r;
     quality_check_passed := q;
     rejection_reason := rejection_reason r; defect_type := defect_type r |}.

Definition set_rejection_reason (n : string) (r : ProcessRecord) : ProcessRecord :=
  {| pr_serial := pr_serial r; pr_operation := pr_operation r; status := status r;
     processed_by := processed_by r; assigned_operator := assigned_operator r;
     started_at := started_at r; completed_at := completed_at r;
     assigned_at := assigned_at r; notes := notes r;
     quality_check_passed := quality_check_passed r;
     rejection_reason := n; defect_type := defect_type r |}.

Definition set_defect_type (n : string) (r : ProcessRecord) : ProcessRecord :=
  {| pr_serial := pr_serial r; pr_operation := pr_operation r; status := status r;
     processed_by := processed_by r; assigned_operator := assigned_operator r;
     started_at := started_at r; completed_at := completed_at r;
     assigned_at := assigned_at r; notes := notes r;
     quality_check_passed := quality_check_passed r;
     rejection_reason := rejection_reason r; defect_type := n |}.

(** A row as [ProcessRecord.objects.create] makes it from the model's field
    defaults. *)
Definition new_record (serial operation : nat) : ProcessRecord :=
  {| pr_serial := serial; pr_operation := operation; status := PENDING;
     processed_by := None; assigned_operator := None;
     started_at := None; completed_at := None; assigned_at := None;
     notes := ""; quality_check_passed := false;
     rejection_reason := ""; defect_type := "" |}.

(** Writes of one table. *)
Definition with_records (rs : list ProcessRecord) (db : DB) : DB :=
  {| operations := operations db; serials := serials db;
     process_records := rs; defects := defects db; users := users db |}.

Definition with_serials (ss : list SerialNumber) (db : DB) : DB :=
  {| operations := operations db; serials := ss;
     process_records := process_records db; defects := defects db;
     users := users db |}.

Definition with_defects (ds : list Defect) (db : DB) : DB :=
  {| operations := operations db; serials := serials db;
     process_records := process_records db; defects := ds;
     users := users db |}.

(** [record.save()] of the row with primary key [i]. *)
Definition save_record (i : nat) (r : ProcessRecord) (db : DB) : DB :=
  with_records (<[i := r]> (process_records db)) db.

(** [ProcessRecord.objects.create(...)]: the new row and its key. *)
Definition create_record (r : ProcessRecord) (db : DB) : nat * DB :=
  (length (process_records db),
   with_records (process_records db ++ [r])%list db).

(** [serial.save()] after assignments to [status] and [completed_at]. *)
Definition save_serial (i : nat) (s : SerialNumber) (db : DB) : DB :=
  with_serials (<[i := s]> (serials db)) db.

(** [ProcessRecord.objects.get(serial_number=serial, operation=operation)]:
    the row and its key ([unique_together] leaves at most one). *)
Definition get_record (serial operation : nat) (rs : list ProcessRecord)
  : option (nat * ProcessRecord) :=
  list_find (fun r => pr_serial r = serial /\ pr_operation r = operation) rs.

(** [ProcessRecord.objects.filter(serial_number=serial, status=s).count()] *)
Definition count_status (serial : nat) (s : record_status)
    (rs : list ProcessRecord) : nat :=
  length (List.filter
            (fun r => bool_decide (pr_serial r = serial /\ status r = s)) rs).

(** [Operation.objects.filter(is_active=True).count()] *)
Definition total_operations (ops : list Operation) : nat :=
  length (List.filter is_active ops).

(** [ProcessRecord.objects.filter(assigned_operator=user,
    status='IN_PROGRESS')] *)
Definition holds (user : nat) (r : ProcessRecord) : Prop :=
  assigned_operator r = Some user /\ status r = IN_PROGRESS.

#[export] Instance holds_dec user r : Decision (holds user r).
Proof. unfold holds. apply _. Defined.

(** ** Request code as state passing with exceptions *)

Definition M (E A : Type) : Type := DB -> outcome E A * DB.

Definition ret {E A} (a : A) : M E A := fun db => (Ok a, db).
Definition raise {E A} (e : E) : M E A := fun db => (Raise e, db).
Definition bind {E A B} (m : M E A) (k : A -> M E B) : M E B :=
  fun db => match m db with
            | (Ok a, db') => k a db'
            | (Raise e, db') => (Raise e, db')
            end.
Definition read {E} : M E DB := fun db => (Ok db, db).
Definition write {E} (f : DB -> DB) : M E unit := fun db => (Ok tt, f db).

Notation "x <- m ;; k" := (bind m (fun x => k))
  (at level 100, m at next level, right associativity).
Notation "m ;;; k" := (bind m (fun _ => k))
  (at level 100, right associativity).

(** [transaction.atomic]: an exception rolls every write of the block back. *)
Definition atomic {E A} (m : M E A) : M E A :=
  fun db => match m db with
            | (Ok a, db') => (Ok a, db')
            | (Raise e, _) => (Raise e, db)
            end.

(** * manufacturing/signals.py *)

(** The receivers of this module run when the module is imported.  The
    application configuration that would import it is not among the
    sources, so whether they are connected is a parameter, [receivers], of
    everything that saves a record. *)

(** [update_process_timestamps], the receiver of [pre_save] of a
    [ProcessRecord] [instance] whose stored row is [old_instance]. *)
Definition update_process_timestamps (now : nat)
    (old_instance instance : ProcessRecord) : ProcessRecord :=
  let instance :=
    if negb (bool_decide (status old_instance = IN_PROGRESS))
       && bool_decide (status instance = IN_PROGRESS)
       && bool_decide (started_at instance = None)
    then set_started_at (Some now) instance else instance in
  if negb (bool_decide (status old_instance = APPROVED))
     && bool_decide (status instance = APPROVED)
     && bool_decide (completed_at instance = None)
  then set_completed_at (Some now) instance else instance.

(** [update_serial_status], the receiver of [post_save] of a
    [ProcessRecord]: the assignments it makes to the serial number object
    [serial] of the row [serial_id]. *)
Definition update_serial_status (now serial_id : nat) (serial : SerialNumber)
    (db : DB) : SerialNumber :=
  let total_operations := total_operations (operations db) in
  let approved_operations :=
    count_status serial_id APPROVED (process_records db) in
  if approved_operations =? total_operations then
    {| sn_status := S_COMPLETED; sn_completed_at := Some now |}
  else if 0 <? approved_operations then
    {| sn_status := S_IN_PROCESS; sn_completed_at := sn_completed_at serial |}
  else
    {| sn_status := S_CREATED; sn_completed_at := sn_completed_at serial |}.

(** What follows the write of a [ProcessRecord] row.  The receiver takes
    [instance.serial_number]: the row fetched from the table, or, for an
    instance just built from a handler's serial number object, that object,
    whose fields are those of the row at that point; it assigns the status
    and saves. *)
Definition post_save_record (receivers : bool) (now : nat)
    (instance : ProcessRecord) (db : DB) : DB :=
  if receivers then
    match serials db !! pr_serial instance with
    | Some serial =>
        save_serial (pr_serial instance)
          (update_serial_status now (pr_serial instance) serial db) db
    | None => db
    end
  else db.

(** The instance when the [pre_save] receivers have run on it ([i] is its
    primary key). *)
Definition pre_save (receivers : bool) (now i : nat) (instance : ProcessRecord)
    (db : DB) : ProcessRecord :=
  if receivers then
    match process_records db !! i with
    | Some old_instance => update_process_timestamps now old_instance instance
    | None => instance
    end
  else instance.

(** [instance.save()] of the row with primary key [i]; the instance comes
    back with what the [pre_save] receiver assigned. *)
Definition save {E} (receivers : bool) (now i : nat) (instance : ProcessRecord)
  : M E ProcessRecord :=
  fun db =>
    let instance := pre_save receivers now i instance db in
    (Ok instance,
     post_save_record receivers now instance (save_record i instance db)).

(** [ProcessRecord.objects.create(...)]: the key of the new row. *)
Definition create {E} (receivers : bool) (now : nat) (instance : ProcessRecord)
  : M E nat :=
  fun db =>
    let '(i, db') := create_record instance db in
    (Ok i, post_save_record receivers now instance db').

(** A handler's serial number object after a [get_or_create] it was
    passed to: when the record was created the instance holds this very
    object, which the receiver then works on; otherwise it stays as the
    handler fetched it. *)
Definition shared_serial {E} (created : bool) (serial_id : nat)
    (serial : SerialNumber) : M E SerialNumber :=
  fun db =>
    (Ok (if created then default serial (serials db !! serial_id) else serial),
     db).

(** [order_by('sequence_number')] on keyed operations. *)
Fixpoint insert_by_sequence (p : nat * Operation) (l : list (nat * Operation))
  : list (nat * Operation) :=
  match l with
  | [] => [p]
  | q :: l' =>
      if sequence_number p.2 <=? sequence_number q.2 then p :: q :: l'
      else q :: insert_by_sequence p l'
  end.

Definition order_by_sequence (l : list (nat * Operation)) : list (nat * Operation) :=
  foldr insert_by_sequence [] l.

(** [create_process_records], the receiver of [post_save] of a created
    [SerialNumber]: the fan-out of pending records.  It is a receiver of
    this module itself, so the other receivers are connected when it runs:
    each [ProcessRecord.objects.create] of the loop is followed by
    [update_serial_status] on the serial number. *)
Definition create_process_records (now serial : nat) (db : DB) : DB :=
  let operations :=
    order_by_sequence
      (List.filter (fun p => is_active p.2) (imap pair (operations db))) in
  foldl (fun db p => (create (E := Empty_set) true now (new_record serial p.1) db).2)
    db operations.

(** * manufacturing/services.py: ManufacturingProcessService *)

(** The [ValidationError]s of [process_operation], by raise site;
    [DoesNotExist] stands for a [serial] or [operation] argument that is no
    row of its table, [NotificationFailure] for an exception of the channel
    layer inside [send_process_notification]. *)
Inductive validation_error : Type :=
| SequenceViolation      (* "Debe completar las operaciones anteriores primero." *)
| AlreadyStarted         (* "Esta operación ya ha sido iniciada" *)
| CannotApprove          (* "... no puede ser aprobada en su estado actual" *)
| CannotRejectApproved   (* "No se puede rechazar una operación ya aprobada" *)
| InvalidAction          (* "Acción no válida" *)
| NotificationFailure
| DoesNotExist.

(** [ProcessRecord.objects.get_or_create(serial_number=serial,
    operation=operation, defaults=...)]: key, row and the [created] flag. *)
Definition get_or_create {E} (receivers : bool) (now serial operation : nat)
    (defaults : ProcessRecord -> ProcessRecord)
  : M E (nat * ProcessRecord * bool) :=
  fun db =>
    match get_record serial operation (process_records db) with
    | Some (i, r) => (Ok (i, r, false), db)
    | None =>
        let r := defaults (new_record serial operation) in
        match create receivers now r db with
        | (Ok i, db') => (Ok (i, r, true), db')
        | (Raise e, db') => (Raise e, db')
        end
    end.

(** The loop of [_validate_operation_sequence] over [previous_operations]
    ([prev_op] is the key of the operation in [op]). *)
Definition previous_approved (serial seq : nat) (rs : list ProcessRecord)
    (prev_op : nat) (op : Operation) : bool :=
  if is_active op && (sequence_number op <? seq) then
    match get_record serial prev_op rs with
    | Some (_, prev_record) => bool_decide (status prev_record = APPROVED)
    | None => false
    end
  else true.

(** [ManufacturingProcessService._validate_operation_sequence] *)
Definition _validate_operation_sequence (serial : nat) (operation : Operation)
    (db : DB) : bool :=
  forallb (fun p => previous_approved serial (sequence_number operation)
                      (process_records db) p.1 p.2)
          (imap pair (operations db)).

(** The status [_update_serial_status] derives. *)
Definition derive_status (total approved rejected : nat) : serial_status :=
  if 0 <? rejected then S_REJECTED
  else if approved =? total then S_COMPLETED
  else if 0 <? approved then S_IN_PROCESS
  else S_CREATED.

(** [ManufacturingProcessService._update_serial_status] on the instance
    [s] of the row [serial]. *)
Definition _update_serial_status (now serial : nat) (s : SerialNumber)
    (db : DB) : DB :=
  let total_operations := total_operations (operations db) in
  let approved_operations := count_status serial APPROVED (process_records db) in
  let rejected_operations := count_status serial REJECTED (process_records db) in
  let s' :=
    if 0 <? rejected_operations then
      {| sn_status := S_REJECTED; sn_completed_at := sn_completed_at s |}
    else if approved_operations =? total_operations then
      {| sn_status := S_COMPLETED; sn_completed_at := Some now |}
    else if 0 <? approved_operations then
      {| sn_status := S_IN_PROCESS; sn_completed_at := sn_completed_at s |}
    else
      {| sn_status := S_CREATED; sn_completed_at := sn_completed_at s |} in
  save_serial serial s' db.

(** The action branches of [process_operation] on the instance
    [process_record]. *)
Definition apply_action (action : string) (now user : nat)
    (quality_check_passed : bool) (process_record : ProcessRecord)
  : outcome validation_error ProcessRecord :=
  if (action =? "start")%string then
    if negb (bool_decide (status process_record = PENDING))
    then Raise AlreadyStarted
    else Ok (set_processed_by (Some user)
              (set_started_at (Some now)
                (set_status IN_PROGRESS process_record)))
  else if (action =? "approve")%string then
    if negb (bool_decide (status process_record = IN_PROGRESS)
             || bool_decide (status process_record = PENDING))
    then Raise CannotApprove
    else Ok (set_quality_check_passed quality_check_passed
              (set_processed_by (Some user)
                (set_completed_at (Some now)
                  (set_status APPROVED process_record))))
  else if (action =? "reject")%string then
    if bool_decide (status process_record = APPROVED)
    then Raise CannotRejectApproved
    else Ok (set_processed_by (Some user)
              (set_completed_at (Some now)
                (set_status REJECTED process_record)))
  else Raise InvalidAction.

(** The body of [process_operation], without its [transaction.atomic].
    [delivered] tells whether [send_process_notification] returns. *)
Definition process_operation_body (receivers : bool) (serial operation : nat)
    (action : string) (now user : nat) (notes : string)
    (quality_check_passed delivered : bool)
  : M validation_error ProcessRecord :=
  db0 <- read ;;
  match serials db0 !! serial, operations db0 !! operation with
  | Some s, Some op =>
      x <- get_or_create receivers now serial operation (set_notes notes) ;;
      let '(i, process_record, created) := x in
      db1 <- read ;;
      if negb (_validate_operation_sequence serial op db1)
      then raise SequenceViolation
      else
        match apply_action action now user quality_check_passed process_record with
        | Raise e => raise e
        | Ok process_record =>
            let process_record :=
              if negb (notes =? "")%string
              then set_notes notes process_record else process_record in
            process_record <- save receivers now i process_record ;;
            if negb delivered then raise NotificationFailure
            else
              s <- shared_serial created serial s ;;
              write (_update_serial_status now serial s) ;;;
              ret process_record
        end
  | _, _ => raise DoesNotExist
  end.

(** [ManufacturingProcessService.process_operation] *)
Definition process_operation (receivers : bool) (serial operation : nat)
    (action : string) (now user : nat) (notes : string)
    (quality_check_passed delivered : bool)
  : M validation_error ProcessRecord :=
  atomic (process_operation_body receivers serial operation action now user
            notes quality_check_passed delivered).

(** * The request handlers *)

(** What a handler answers when it does not succeed: the exception its
    [except Exception] clause (or the framework) turns into a failure
    response, or the failure response it returns itself. *)
Inductive view_error : Type :=
| PermissionDenied       (* raised by the role decorators *)
| Http404                (* get_object_or_404 *)
| AlreadyAssigned        (* "Esta operación ya está asignada a otro operador." *)
| InvalidOperator        (* "El usuario seleccionado no es un operador válido." *)
| ActorBusy              (* "... ya tiene una operación en progreso ..." *)
| AssignedMeanwhile      (* "... fue asignada a otro operador mientras ..." *)
| NoPermission           (* "No tienes permisos para resolver este defecto" *)
| NotNullViolation.      (* IntegrityError: repair_notes saved as NULL *)

(** [request.user.userprofile.role], [None] without a profile. *)
Definition role_of (user : nat) (db : DB) : option role :=
  match users db !! user with
  | Some (Some r) => Some r
  | _ => None
  end.

Definition role_in (allowed : list role) (r : option role) : bool :=
  match r with
  | Some r => bool_decide (r ∈ allowed)
  | None => false
  end.

(** manufacturing/decorators.py *)
Definition operator_required {A} (user : nat) (view : M view_error A)
  : M view_error A :=
  fun db =>
    if role_in [OPERATOR; SUPERVISOR; ADMIN] (role_of user db) then view db
    else (Raise PermissionDenied, db).

Definition supervisor_or_admin_required {A} (user : nat) (view : M view_error A)
  : M view_error A :=
  fun db =>
    if role_in [SUPERVISOR; ADMIN] (role_of user db) then view db
    else (Raise PermissionDenied, db).

(** [get_object_or_404(ProcessRecord, id=i)] *)
Definition get_record_or_404 (i : nat) : M view_error ProcessRecord :=
  fun db => match process_records db !! i with
            | Some r => (Ok r, db)
            | None => (Raise Http404, db)
            end.

(** [get_object_or_404(ProcessRecord, id=i, assigned_operator=user,
    status='IN_PROGRESS')] *)
Definition get_held_record_or_404 (i user : nat) : M view_error ProcessRecord :=
  fun db => match process_records db !! i with
            | Some r => if bool_decide (holds user r) then (Ok r, db)
                        else (Raise Http404, db)
            | None => (Raise Http404, db)
            end.

Definition get_serial_or_404 (i : nat) : M view_error SerialNumber :=
  fun db => match serials db !! i with
            | Some s => (Ok s, db)
            | None => (Raise Http404, db)
            end.

(** [ProcessRecord.objects.filter(assigned_operator=user,
    status='IN_PROGRESS').first()] *)
Definition existing_assignment (user : nat) (rs : list ProcessRecord)
  : option (nat * ProcessRecord) :=
  list_find (holds user) rs.

(** The same query with [.exclude(id=i)]. *)
Definition existing_assignment_excluding (user i : nat)
    (rs : list ProcessRecord) : option (nat * ProcessRecord) :=
  List.find (fun p => bool_decide (holds user p.2) && negb (p.1 =? i))
            (imap pair rs).

(** [views_operator.assign_operation]; [target_user_id] is [None] when
    the request names no target. *)
Definition assign_operation (receivers : bool) (now request_user
    process_record_id : nat) (target_user_id : option nat)
  : M view_error unit :=
  operator_required request_user (atomic (
    db <- read ;;
    let user_role := role_of request_user db in
    process_record <- get_record_or_404 process_record_id ;;
    if negb (bool_decide (assigned_operator process_record = None))
    then raise AlreadyAssigned
    else
      target <-
        (match target_user_id with
         | Some t =>
             if role_in [SUPERVISOR; ADMIN] user_role then
               match users db !! t with
               | None => raise Http404
               | Some profile =>
                   if negb (role_in [OPERATOR; SUPERVISOR; ADMIN]
                              (role_of t db))
                   then raise InvalidOperator
                   else ret t
               end
             else ret request_user
         | None => ret request_user
         end) ;;
      match existing_assignment target (process_records db) with
      | Some _ => raise ActorBusy
      | None =>
          (* refresh_from_db *)
          process_record <- get_record_or_404 process_record_id ;;
          if negb (bool_decide (assigned_operator process_record = None))
          then raise AssignedMeanwhile
          else
            process_record <-
              save receivers now process_record_id
                (set_assigned_at (Some now)
                  (set_started_at (Some now)
                    (set_status IN_PROGRESS
                      (set_assigned_operator (Some target) process_record)))) ;;
            db' <- read ;;
            match serials db' !! pr_serial process_record with
            | Some s =>
                if bool_decide (sn_status s = S_CREATED) then
                  write (save_serial (pr_serial process_record)
                           {| sn_status := S_IN_PROCESS;
                              sn_completed_at := sn_completed_at s |})
                else ret tt
            | None => ret tt
            end
      end)).

(** The release of a record, as [reassign_operation] and
    [release_operation] write it. *)
Definition released (r : ProcessRecord) : ProcessRecord :=
  set_assigned_at None
    (set_started_at None (set_status PENDING (set_assigned_operator None r))).

(** [views_operator.reassign_operation] *)
Definition reassign_operation (receivers : bool) (now request_user
    process_record_id : nat) (new_operator_id : option nat)
  : M view_error unit :=
  supervisor_or_admin_required request_user (atomic (
    db <- read ;;
    process_record <- get_record_or_404 process_record_id ;;
    match new_operator_id with
    | Some new_operator =>
        match users db !! new_operator with
        | None => raise Http404
        | Some _ =>
            if negb (role_in [OPERATOR; SUPERVISOR; ADMIN]
                       (role_of new_operator db))
            then raise InvalidOperator
            else
              match existing_assignment_excluding new_operator
                      process_record_id (process_records db) with
              | Some _ => raise ActorBusy
              | None =>
                  save receivers now process_record_id
                    (set_assigned_at (Some now)
                       (set_assigned_operator (Some new_operator)
                          process_record)) ;;;
                  ret tt
              end
        end
    | None =>
        save receivers now process_record_id (released process_record) ;;;
        ret tt
    end)).

(** [serial_number.process_records.filter(status='APPROVED').count()] and
    the status update that ends [complete_operation]. *)
Definition complete_serial_status (now serial_number_id : nat) (s : SerialNumber)
    (db : DB) : DB :=
  let total_operations := total_operations (operations db) in
  let completed_operations :=
    count_status serial_number_id APPROVED (process_records db) in
  if total_operations <=? completed_operations then
    save_serial serial_number_id
      {| sn_status := S_COMPLETED; sn_completed_at := Some now |} db
  else
    save_serial serial_number_id
      {| sn_status := S_IN_PROCESS; sn_completed_at := sn_completed_at s |} db.

(** [views_operator.complete_operation] *)
Definition complete_operation (receivers : bool) (now request_user
    process_record_id serial_number_id : nat) (notes : string)
    (quality_passed : bool)
  : M view_error unit :=
  operator_required request_user (atomic (
    process_record <- get_held_record_or_404 process_record_id request_user ;;
    serial_number <- get_serial_or_404 serial_number_id ;;
    x <- get_or_create receivers now serial_number_id
           (pr_operation process_record)
           (fun r =>
              set_quality_check_passed quality_passed
                (set_notes notes
                  (set_assigned_at (Some now)
                    (set_completed_at (Some now)
                      (set_started_at (Some now)
                        (set_assigned_operator (Some request_user)
                          (set_processed_by (Some request_user)
                            (set_status APPROVED r)))))))) ;;
    let '(i, specific_record, created) := x in
    (if negb created then
       save receivers now i
         (set_quality_check_passed quality_passed
           (set_notes notes
             (set_processed_by (Some request_user)
               (set_completed_at (Some now)
                 (set_status APPROVED specific_record))))) ;;;
       ret tt
     else ret tt) ;;;
    serial_number <- shared_serial created serial_number_id serial_number ;;
    write (complete_serial_status now serial_number_id serial_number))).

(** [Defect.objects.create(...)] of [reject_serial_number] *)
Definition new_defect (serial operation : nat) (defect_type description : string)
    (reported_by : nat) : Defect :=
  {| d_serial := serial; d_operation := operation;
     d_defect_type := defect_type; d_description := description;
     d_status := D_OPEN; d_reported_by := reported_by;
     d_assigned_repairer := None; d_resolved_by := None;
     d_repair_notes := ""; d_return_to_operation := None;
     d_resolved_at := None |}.

(** [views_operator.reject_serial_number] *)
Definition reject_serial_number (receivers : bool) (now request_user
    process_record_id serial_number_id : nat)
    (defect_type rejection_reason : string)
  : M view_error unit :=
  operator_required request_user (atomic (
    process_record <- get_held_record_or_404 process_record_id request_user ;;
    serial_number <- get_serial_or_404 serial_number_id ;;
    write (fun db =>
             with_defects
               (defects db ++
                  [new_defect serial_number_id (pr_operation process_record)
                     defect_type rejection_reason request_user])%list db) ;;;
    write (save_serial serial_number_id
             {| sn_status := S_DEFECTIVE;
                sn_completed_at := sn_completed_at serial_number |}) ;;;
    x <- get_or_create receivers now serial_number_id
           (pr_operation process_record)
           (fun r =>
              set_defect_type defect_type
                (set_rejection_reason rejection_reason
                  (set_assigned_at (Some now)
                    (set_completed_at (Some now)
                      (set_started_at (Some now)
                        (set_assigned_operator (Some request_user)
                          (set_processed_by (Some request_user)
                            (set_status REJECTED r)))))))) ;;
    let '(i, specific_record, created) := x in
    if negb created then
      save receivers now i
        (set_defect_type defect_type
          (set_rejection_reason rejection_reason
            (set_processed_by (Some request_user)
              (set_completed_at (Some now)
                (set_status REJECTED specific_record))))) ;;;
      ret tt
    else ret tt)).

(** [views_operator.release_operation] *)
Definition release_operation (receivers : bool) (now request_user
    process_record_id : nat)
  : M view_error unit :=
  operator_required request_user (atomic (
    process_record <- get_held_record_or_404 process_record_id request_user ;;
    save receivers now process_record_id (released process_record) ;;;
    ret tt)).

(** * defects/views.py *)

Definition with_defect_status (st : defect_status) (d : Defect) : Defect :=
  {| d_serial := d_serial d; d_operation := d_operation d;
     d_defect_type := d_defect_type d; d_description := d_description d;
     d_status := st; d_reported_by := d_reported_by d;
     d_assigned_repairer := d_assigned_repairer d;
     d_resolved_by := d_resolved_by d; d_repair_notes := d_repair_notes d;
     d_return_to_operation := d_return_to_operation d;
     d_resolved_at := d_resolved_at d |}.

Definition with_return_to_operation (o : option nat) (d : Defect) : Defect :=
  {| d_serial := d_serial d; d_operation := d_operation d;
     d_defect_type := d_defect_type d; d_description := d_description d;
     d_status := d_status d; d_reported_by := d_reported_by d;
     d_assigned_repairer := d_assigned_repairer d;
     d_resolved_by := d_resolved_by d; d_repair_notes := d_repair_notes d;
     d_return_to_operation := o; d_resolved_at := d_resolved_at d |}.

Definition with_resolution (now user : nat) (repair_notes : string) (d : Defect)
  : Defect :=
  {| d_serial := d_serial d; d_operation := d_operation d;
     d_defect_type := d_defect_type d; d_description := d_description d;
     d_status := d_status d; d_reported_by := d_reported_by d;
     d_assigned_repairer := d_assigned_repairer d;
     d_resolved_by := Some user; d_repair_notes := repair_notes;
     d_return_to_operation := d_return_to_operation d;
     d_resolved_at := Some now |}.

(** [defect.save()]; the column [repair_notes] is not nullable and the
    request may carry no [repair_notes]. *)
Definition save_defect (i : nat) (repair_notes : option string)
    (d : string -> Defect) : M view_error unit :=
  match repair_notes with
  | Some n => write (fun db => with_defects (<[i := d n]> (defects db)) db)
  | None => raise NotNullViolation
  end.

(** [defects.views.resolve_defect].  The handler opens no transaction:
    what it saved before an exception stays saved. *)
Definition resolve_defect (receivers : bool) (now request_user defect_id : nat)
    (repair_notes : option string) (return_to_operation : option nat)
  : M view_error unit :=
  db <- read ;;
  match defects db !! defect_id with
  | None => raise Http404
  | Some defect =>
      match role_of request_user db with
      | None => raise Http404
      | Some user_role =>
          if negb (bool_decide (user_role ∈ [REPAIRER; ADMIN]))
             && negb (bool_decide (d_assigned_repairer defect = Some request_user))
          then raise NoPermission
          else
            match return_to_operation with
            | Some operation =>
                match operations db !! operation with
                | None => raise Http404
                | Some _ =>
                    x <- get_or_create receivers now (d_serial defect) operation
                           (fun r => set_assigned_operator None
                                       (set_status PENDING r)) ;;
                    let '(i, process_record, created) := x in
                    (if negb created then
                       save receivers now i
                         (set_assigned_operator None
                            (set_status PENDING process_record)) ;;;
                       ret tt
                     else ret tt) ;;;
                    save_defect defect_id repair_notes
                      (fun n => with_return_to_operation (Some operation)
                                  (with_defect_status D_REPAIRED
                                     (with_resolution now request_user n defect)))
                end
            | None =>
                (match serials db !! d_serial defect with
                 | Some s =>
                     write (save_serial (d_serial defect)
                              {| sn_status := S_SCRAPPED;
                                 sn_completed_at := sn_completed_at s |})
                 | None => ret tt
                 end) ;;;
                save_defect defect_id repair_notes
                  (fun n => with_defect_status D_SCRAPPED
                              (with_resolution now request_user n defect))
            end
      end
  end.

(** * The requests and the states they reach *)

Inductive request : Type :=
| ProcessOperation (serial operation : nat) (action : string) (user : nat)
    (notes : string) (quality_check_passed delivered : bool)
| AssignOperation (request_user process_record_id : nat)
    (target_user_id : option nat)
| ReassignOperation (request_user process_record_id : nat)
    (new_operator_id : option nat)
| CompleteOperation (request_user process_record_id serial_number_id : nat)
    (notes : string) (quality_passed : bool)
| RejectSerialNumber (request_user process_record_id serial_number_id : nat)
    (defect_type rejection_reason : string)
| ReleaseOperation (request_user process_record_id : nat)
| ResolveDefect (request_user defect_id : nat) (repair_notes : option string)
    (return_to_operation : option nat).

(** The database after a request served at time [now]. *)
Definition handle (receivers : bool) (now : nat) (req : request) (db : DB) : DB :=
  match req with
  | ProcessOperation serial operation action user notes q delivered =>
      (process_operation receivers serial operation action now user notes q
         delivered db).2
  | AssignOperation u i t => (assign_operation receivers now u i t db).2
  | ReassignOperation u i t => (reassign_operation receivers now u i t db).2
  | CompleteOperation u i sn notes q =>
      (complete_operation receivers now u i sn notes q db).2
  | RejectSerialNumber u i sn dt reason =>
      (reject_serial_number receivers now u i sn dt reason db).2
  | ReleaseOperation u i => (release_operation receivers now u i db).2
  | ResolveDefect u d notes op => (resolve_defect receivers now u d notes op db).2
  end.

(** Requests of the service API. *)
Definition service_request (req : request) : Prop :=
  match req with ProcessOperation _ _ _ _ _ _ _ => True | _ => False end.

(** Requests of the handlers of manufacturing/views_operator.py and of
    [resolve_defect]. *)
Definition operator_request (req : request) : Prop :=
  match req with ProcessOperation _ _ _ _ _ _ _ => False | _ => True end.

Definition any_request (req : request) : Prop := True.

Inductive reachable (receivers : bool) (allowed : request -> Prop) (init : DB)
  : DB -> Prop :=
| reach_init : reachable receivers allowed init init
| reach_step db now req :
    reachable receivers allowed init db -> allowed req ->
    reachable receivers allowed init (handle receivers now req db).

(** The status the service derives for a serial number from the tables. *)
Definition derived (serial : nat) (db : DB) : serial_status :=
  derive_status (total_operations (operations db))
    (count_status serial APPROVED (process_records db))
    (count_status serial REJECTED (process_records db)).

(** The rows of a serial number, with their keys. *)
Definition records_of (serial : nat) (db : DB) : list (nat * ProcessRecord) :=
  List.filter (fun p => pr_serial p.2 =? serial) (imap pair (process_records db)).

(** Every active operation below position [seq] has an approved record
    for [serial]. *)
Definition sequence_ok (serial seq : nat) (db : DB) : Prop :=
  forall p prev, operations db !! p = Some prev -> is_active prev = true ->
    sequence_number prev < seq ->
    exists j w, get_record serial p (process_records db) = Some (j, w)
                /\ status w = APPROVED.

(** No approved record ahead of an active operation that is not approved. *)
Definition sequence_invariant (db : DB) : Prop :=
  forall i r op, process_records db !! i = Some r -> status r = APPROVED ->
    operations db !! pr_operation r = Some op ->
    sequence_ok (pr_serial r) (sequence_number op) db.

(** An actor is the assigned operator of at most one record in progress. *)
Definition exclusive (db : DB) : Prop :=
  forall user i j ri rj,
    process_records db !! i = Some ri -> process_records db !! j = Some rj ->
    holds user ri -> holds user rj -> i = j.

(** The record [process_operation] works on, its key, and the record
    table after [get_or_create]. *)
Definition target_record (serial operation : nat) (notes : string)
    (rs : list ProcessRecord) : nat * ProcessRecord * list ProcessRecord :=
  match get_record serial operation rs with
  | Some (i, r) => (i, r, rs)
  | None =>
      let r := set_notes notes (new_record serial operation) in
      (length rs, r, (rs ++ [r])%list)
  end.

(** The status test of each action branch of [process_operation]. *)
Definition action_allowed (action : string) (st : record_status) : bool :=
  if (action =? "start")%string then bool_decide (st = PENDING)
  else if (action =? "approve")%string then
    bool_decide (st = IN_PROGRESS) || bool_decide (st = PENDING)
  else if (action =? "reject")%string then negb (bool_decide (st = APPROVED))
  else false.

(** The status part of the preconditions as the specification words them:
    a start needs a [PENDING] record, an approve an [IN_PROGRESS] one, a
    reject an [IN_PROGRESS] or [PENDING] one. *)
Definition stated_precondition (action : string) (st : record_status) : bool :=
  if (action =? "start")%string then bool_decide (st = PENDING)
  else if (action =? "approve")%string then bool_decide (st = IN_PROGRESS)
  else if (action =? "reject")%string then
    bool_decide (st = IN_PROGRESS) || bool_decide (st = PENDING)
  else false.

(** The status of the record of [serial] and [operation]; a record that
    does not exist yet is created [PENDING]. *)
Definition current_status (serial operation : nat) (db : DB) : record_status :=
  match get_record serial operation (process_records db) with
  | Some (_, r) => status r
  | None => PENDING
  end.

(** The serial number has an approved record for the operation. *)
Definition approved_at (db : DB) (serial operation : nat) : Prop :=
  exists j w, get_record serial operation (process_records db) = Some (j, w)
              /\ status w = APPROVED.

(** The user [assign_operation] assigns the record to. *)
Definition assignment_target (request_user : nat) (target_user_id : option nat)
    (db : DB) : nat :=
  match target_user_id with
  | Some t =>
      if role_in [SUPERVISOR; ADMIN] (role_of request_user db) then t
      else request_user
  | None => request_user
  end.

(** How a handler may change the record table without giving an actor a
    second record in progress: not at all, by saving over row [i] a record
    whose holder (if it has one) holds no other row, or by creating a record
    nobody holds. *)
Definition benign_update (rs rs' : list ProcessRecord) : Prop :=
  rs' = rs
  \/ (exists i r_new,
        rs' = <[i := r_new]> rs
        /\ forall user, holds user r_new ->
             forall j rj, rs !! j = Some rj -> j <> i -> ~ holds user rj)
  \/ (exists r, rs' = (rs ++ [r])%list /\ forall user, ~ holds user r).

(** ** Example databases *)

Definition fresh_serial : SerialNumber :=
  {| sn_status := S_CREATED; sn_completed_at := None |}.

Definition active_operation (seq : nat) : Operation :=
  {| sequence_number := seq; is_active := true |}.

(** Three active operations and one serial number with its records fanned
    out; user 0 is an operator, user 1 a supervisor, user 2 a repairer. *)
Definition line_db : DB :=
  create_process_records 0 0
    {| operations := [active_operation 1; active_operation 2; active_operation 3];
       serials := [fresh_serial];
       process_records := []; defects := [];
       users := [Some OPERATOR; Some SUPERVISOR; Some REPAIRER] |}.

(** One active operation and two serial numbers with their records. *)
Definition two_serials_db : DB :=
  create_process_records 0 1
    (create_process_records 0 0
       {| operations := [active_operation 1];
          serials := [fresh_serial; fresh_serial];
          process_records := []; defects := [];
          users := [Some OPERATOR; Some SUPERVISOR; Some REPAIRER] |}).

(** [line_db] after operator 0 took the first operation, and the record
    the operator then holds. *)
Definition assigned_db (receivers : bool) : DB :=
  handle receivers 7 (AssignOperation 0 0 None) line_db.

Definition held_record : ProcessRecord :=
  set_assigned_at (Some 7)
    (set_started_at (Some 7)
      (set_status IN_PROGRESS
        (set_assigned_operator (Some 0) (new_record 0 0)))).

(** [line_db] after the service approved the first operation. *)
Definition first_approved_db (receivers : bool) : DB :=
  handle receivers 3 (ProcessOperation 0 0 "approve" 0 "" true true) line_db.

(** [first_approved_db] after the service approved the second operation. *)
Definition two_approved_db (receivers : bool) : DB :=
  handle receivers 5 (ProcessOperation 0 1 "approve" 0 "" true true)
    (first_approved_db receivers).

(** The three operations and the serial number of [line_db] when no record
    has been created for it. *)
Definition bare_line_db : DB :=
  {| operations := [active_operation 1; active_operation 2; active_operation 3];
     serials := [fresh_serial];
     process_records := []; defects := [];
     users := [Some OPERATOR; Some SUPERVISOR; Some REPAIRER] |}.

(** [line_db] after operator 0 took the second operation and completed it
    for the serial number, the first operation still pending. *)
Definition skipped_db (receivers : bool) : DB :=
  handle receivers 8 (CompleteOperation 0 1 0 "" true)
    (handle receivers 7 (AssignOperation 0 1 None) line_db).

(** [two_serials_db] after the supervisor named operator 0 on both pending
    records and the service started both. *)
Definition double_start_db (receivers : bool) : DB :=
  handle receivers 4 (ProcessOperation 1 0 "start" 0 "" false true)
    (handle receivers 3 (ProcessOperation 0 0 "start" 0 "" false true)
       (handle receivers 2 (ReassignOperation 1 1 (Some 0))
          (handle receivers 1 (ReassignOperation 1 0 (Some 0)) two_serials_db))).

(** [assigned_db] after the operator rejected the serial number there. *)
Definition rejected_db (receivers : bool) : DB :=
  handle receivers 8 (RejectSerialNumber 0 0 0 "VISUAL" "scratch")
    (assigned_db receivers).

End Workflow.

(** * operations/models.py, serials/models.py: model methods *)

Module Models.
Import Workflow.

(** [ProcessRecord.is_assigned] *)
Definition is_assigned (r : ProcessRecord) : bool :=
  negb (bool_decide (assigned_operator r = None))
  && bool_decide (status r = IN_PROGRESS).

(** [ProcessRecord.can_be_assigned_to] *)
Definition can_be_assigned_to (r : ProcessRecord) (user : nat) (db : DB) : bool :=
  if negb (bool_decide (role_of user db = Some OPERATOR)) then false
  else if negb (bool_decide (status r = PENDING)) then false
  else
    let active_assignment :=
      existsb (fun r' => bool_decide (holds user r')) (process_records db) in
    negb active_assignment.

(** [self.process_records.filter(status='APPROVED')
      .values_list('operation__sequence_number', flat=True)] *)
Definition completed_ops (serial : nat) (db : DB) : list nat :=
  omap (fun r =>
          if bool_decide (pr_serial r = serial /\ status r = APPROVED)
          then sequence_number <$> operations db !! pr_operation r
          else None)
       (process_records db).

(** [SerialNumber.current_operation]: the next operation, with its key. *)
Definition current_operation (serial : nat) (db : DB) : option (nat * Operation) :=
  let completed_ops := completed_ops serial db in
  head (order_by_sequence
          (List.filter
             (fun p => is_active p.2
                       && negb (bool_decide (sequence_number p.2 ∈ completed_ops)))
             (imap pair (operations db)))).

(** [SerialNumber.has_open_defects] *)
Definition has_open_defects (serial : nat) (db : DB) : bool :=
  existsb (fun d => bool_decide (d_serial d = serial)
                    && (bool_decide (d_status d = D_OPEN)
                        || bool_decide (d_status d = D_IN_REPAIR)))
          (defects db).

(** [SerialNumber.first_pass_yield] *)
Definition first_pass_yield (serial : nat) (db : DB) : bool :=
  negb (existsb (fun d => bool_decide (d_serial d = serial)) (defects db)).

(** Rows are unique for a serial number and an operation
    ([unique_together]). *)
Definition unique_records (rs : list ProcessRecord) : Prop :=
  forall i j ri rj, rs !! i = Some ri -> rs !! j = Some rj ->
    pr_serial ri = pr_serial rj -> pr_operation ri = pr_operation rj -> i = j.

(** Sequence numbers are unique among the operations ([unique=True]). *)
Definition unique_sequence (ops : list Operation) : Prop :=
  forall p q a b, ops !! p = Some a -> ops !! q = Some b ->
    sequence_number a = sequence_number b -> p = q.

(** How a request may change the record table: rows are saved over with
    their serial number and operation kept, or appended for a serial number
    and operation that have no row. *)
Inductive keyed_update : list ProcessRecord -> list ProcessRecord -> Prop :=
| keyed_refl rs : keyed_update rs rs
| keyed_save rs rs' i r r' :
    keyed_update rs rs' -> rs' !! i = Some r ->
    pr_serial r' = pr_serial r -> pr_operation r' = pr_operation r ->
    keyed_update rs (<[i := r']> rs')
| keyed_create rs rs' r' :
    keyed_update rs rs' ->
    get_record (pr_serial r') (pr_operation r') rs' = None ->
    keyed_update rs (rs' ++ [r'])%list.

(** What a request leaves of the other tables: operations and users as
    they were, as many serial numbers, and the defects with at most one
    appended or one saved over in place with its serial number, operation,
    description and reporter kept. *)
Definition tables_kept (db db' : DB) : Prop :=
  operations db' = operations db /\ users db' = users db
  /\ length (serials db') = length (serials db)
  /\ (defects db' = defects db
      \/ (exists d, defects db' = (defects db ++ [d])%list)
      \/ (exists i d d', defects db !! i = Some d
            /\ defects db' = <[i := d']> (defects db)
            /\ d_serial d' = d_serial d /\ d_operation d' = d_operation d
            /\ d_description d' = d_description d
            /\ d_reported_by d' = d_reported_by d)).

End Models.

(** * operators/views.py: the second assignment handler *)

Module Operators.
Import Workflow.

(** [operators.views.assign_operation], routed under [operators/api/assign/].
    The tests on the record's assignee and on the target's records in
    progress are made for a requester of role [OPERATOR] only.  The
    decorator of operators/decorators.py answers a requester without the
    role with a redirect; that refusal is [PermissionDenied] here. *)
Definition assign_operation (receivers : bool) (now request_user
    process_record_id : nat) (target_user_id : option nat)
  : M view_error unit :=
  operator_required request_user (atomic (
    db <- read ;;
    let user_role := role_of request_user db in
    process_record <- get_record_or_404 process_record_id ;;
    target_user <-
      (match target_user_id with
       | Some t =>
           if role_in [SUPERVISOR; ADMIN] user_role then
             match users db !! t with
             | None => raise Http404
             | Some profile =>
                 if negb (role_in [OPERATOR; SUPERVISOR; ADMIN]
                            (role_of t db))
                 then raise InvalidOperator
                 else ret t
             end
           else ret request_user
       | None => ret request_user
       end) ;;
    (if bool_decide (user_role = Some OPERATOR) then
       if negb (bool_decide (assigned_operator process_record = None))
       then raise AlreadyAssigned
       else
         match existing_assignment target_user (process_records db) with
         | Some _ => raise ActorBusy
         | None => ret tt
         end
     else ret tt) ;;;
    process_record <-
      save receivers now process_record_id
        (set_assigned_at (Some now)
          (set_started_at (Some now)
            (set_status IN_PROGRESS
              (set_assigned_operator (Some target_user) process_record)))) ;;
    db' <- read ;;
    match serials db' !! pr_serial process_record with
    | Some s =>
        if bool_decide (sn_status s = S_CREATED) then
          write (save_serial (pr_serial process_record)
                   {| sn_status := S_IN_PROCESS;
                      sn_completed_at := sn_completed_at s |})
        else ret tt
    | None => ret tt
    end)).

End Operators.

(** * manufacturing/services.py: the KM###W###R generator and the
      validators *)

Module Legacy.
Import Serials.

(** The [ValidationError]s of this module by raise site, and the
    [AttributeError] of [last_serial.serial_number] on an empty table. *)
Inductive error : Type :=
| KMLimitReached          (* "Se ha alcanzado el límite máximo de números de serie" *)
| KMNotUnique             (* "No se pudo generar un número de serie único" *)
| KMPartNotAuthorized     (* generate_serial_number: "... no está autorizado" *)
| PartNotActive           (* validate_part_availability: "... no está activo" *)
| PartUnknown             (* validate_part_availability: "... no está autorizado" *)
| OrderRequired           (* "El número de orden es requerido" *)
| OrderTooLong            (* "... no puede exceder 50 caracteres" *)
| OrderInvalidCharacters  (* "... solo puede contener letras, números, ..." *)
| QuantityOutOfRange      (* "La cantidad debe estar entre 1 y 100" *)
| BulkFailure (i : nat) (e : error)  (* "Error generando serie {i+1}: ..." *)
| AttributeError.

Definition is_validation_error (e : error) : bool :=
  match e with AttributeError => false | _ => true end.

#[export] Instance string_eq_dec : EqDecision string := String.string_dec.

(** [serials.models.AuthorizedPart]; [part_number] is unique. *)
Record AuthorizedPart : Type := {
  part_number : string;
  part_is_active : bool
}.

(** [serials.models.SerialNumber]: the columns the generator writes
    besides the constant status; [authorized_part] is a key. *)
Record SerialRow : Type := {
  serial_number : string;
  order_number : string;
  authorized_part : nat
}.

Record Tables : Type := {
  parts : list AuthorizedPart;
  serial_rows : list SerialRow
}.

(** The [serial_number] column. *)
Definition column (t : Tables) : list string := map serial_number (serial_rows t).

(** The groups of [KM(\d{3})W(\d{3})R] at the head of [s], and what
    follows. *)
Definition match_km (s : string) : option (nat * nat * string) :=
  match s with
  | String "K" (String "M" s0) =>
      match take_digits3 s0 with
      | Some (first, String "W" s1) =>
          match take_digits3 s1 with
          | Some (second, String "R" rest) => Some (first, second, rest)
          | _ => None
          end
      | _ => None
      end
  | _ => None
  end.

(** [f"KM{first_part:03d}W{second_part:03d}R"] *)
Definition format_km (first_part second_part : nat) : string :=
  "KM" ++ pad3 first_part ++ "W" ++ pad3 second_part ++ "R".

(** [SerialNumberGenerator.get_next_serial_number] *)
Definition get_next_serial_number (store : list string) : outcome error string :=
  match greatest store with
  | None => Ok "KM001W001R"
  | Some last =>
      match match_km last with
      | None => Ok "KM001W001R"
      | Some (first_part, second_part, _) =>
          let second_part := second_part + 1 in
          let '(first_part, second_part) :=
            if 999 <? second_part then (first_part + 1, 1)
            else (first_part, second_part) in
          if 999 <? first_part then Raise KMLimitReached
          else Ok (format_km first_part second_part)
      end
  end.

Definition max_attempts : nat := 100.

(** The [while] loop of [generate_serial_number] that looks for an unused
    identifier, entered with [attempts] retries made; [fuel] bounds the
    iterations and [None] is the answer when it runs out. *)
Fixpoint ensure_unique (fuel attempts : nat) (serial_number : string)
    (store : list string) : option (outcome error string) :=
  if negb (exists_serial serial_number store) then Some (Ok serial_number)
  else
    match fuel with
    | O => None
    | S fuel' =>
        let attempts := attempts + 1 in
        if max_attempts <=? attempts then Some (Raise KMNotUnique)
        else
          match greatest store with
          | None => Some (Raise AttributeError)
          | Some last =>
              let serial_number :=
                match match_km last with
                | Some (first_part, second_part, _) =>
                    let second_part := second_part + attempts in
                    let '(first_part, second_part) :=
                      if 999 <? second_part
                      then (first_part + 1, second_part mod 1000)
                      else (first_part, second_part) in
                    format_km first_part second_part
                | None => serial_number
                end in
              ensure_unique fuel' attempts serial_number store
          end
    end.

(** [AuthorizedPart.objects.get(part_number=part_number, is_active=True)] *)
Definition get_active_part (pn : string) (ps : list AuthorizedPart)
  : option (nat * AuthorizedPart) :=
  list_find (fun p => part_number p = pn /\ part_is_active p = true) ps.

(** [SerialNumberGenerator.generate_serial_number]: the created row and
    the tables with it.  Nothing is written before the last step, so an
    exception leaves the tables as they were. *)
Definition generate_serial_number (order_number part_number : string)
    (t : Tables) : option (outcome error (SerialRow * Tables)) :=
  match get_active_part part_number (parts t) with
  | None => Some (Raise KMPartNotAuthorized)
  | Some (authorized_part, _) =>
      match get_next_serial_number (column t) with
      | Raise e => Some (Raise e)
      | Ok serial_number =>
          match ensure_unique max_attempts 0 serial_number (column t) with
          | None => None
          | Some (Raise e) => Some (Raise e)
          | Some (Ok serial_number) =>
              let serial_instance :=
                {| serial_number := serial_number;
                   order_number := order_number;
                   authorized_part := authorized_part |} in
              Some (Ok (serial_instance,
                        {| parts := parts t;
                           serial_rows :=
                             (serial_rows t ++ [serial_instance])%list |}))
          end
      end
  end.

(** [SerialNumberGenerator.validate_serial_format]:
    [^KM\d{3}W\d{3}R$]. *)
Definition validate_serial_format (serial_number : string) : bool :=
  match match_km serial_number with
  | Some (_, _, rest) => at_end rest
  | None => false
  end.

Record km_info : Type := {
  first_sequence : nat;
  second_sequence : nat;
  full_number : string
}.

(** [SerialNumberGenerator.get_serial_info] *)
Definition get_serial_info (serial_number : string) : option km_info :=
  match match_km serial_number with
  | None => None
  | Some (first, second, _) =>
      Some {| first_sequence := first; second_sequence := second;
              full_number := serial_number |}
  end.

(** *** SerialNumberValidator *)

(** [str.isspace] on a character below 256. *)
Definition is_space (c : ascii) : bool :=
  let n := nat_of_ascii c in
  ((9 <=? n) && (n <=? 13)) || ((28 <=? n) && (n <=? 32))
  || (n =? 133) || (n =? 160).

Fixpoint lstrip (s : list ascii) : list ascii :=
  match s with
  | [] => []
  | c :: s' => if is_space c then lstrip s' else s
  end.

(** [str.strip()], on the list of characters. *)
Definition strip (s : list ascii) : list ascii :=
  reverse (lstrip (reverse (lstrip s))).

(** The set [[A-Za-z0-9\-_]]. *)
Definition order_char (c : ascii) : bool :=
  in_range "A" "Z" c || in_range "a" "z" c || in_range "0" "9" c
  || (c =? "-")%char || (c =? "_")%char.

(** What is left of [s] after the longest run of [order_char]s. *)
Fixpoint after_order_chars (s : string) : string :=
  match s with
  | String c s' => if order_char c then after_order_chars s' else s
  | EmptyString => s
  end.

(** [re.match(r'^[A-Za-z0-9\-_]+$', order_number)] *)
Definition match_order (order_number : string) : bool :=
  match order_number with
  | String c s' => order_char c && at_end (after_order_chars s')
  | EmptyString => false
  end.

(** [SerialNumberValidator.validate_order_number] *)
Definition validate_order_number (order_number : string) : outcome error bool :=
  if (order_number =? "")%string
     || (length (strip (list_ascii_of_string order_number)) =? 0)
  then Raise OrderRequired
  else if 50 <? String.length order_number then Raise OrderTooLong
  else if negb (match_order order_number) then Raise OrderInvalidCharacters
  else Ok true.

(** [SerialNumberValidator.check_order_duplicates]; [exclude_serial] is
    the key of the row to leave out. *)
Definition check_order_duplicates (order : string) (exclude_serial : option nat)
    (t : Tables) : bool :=
  existsb (fun p => (order_number p.2 =? order)%string
                    && match exclude_serial with
                       | Some pk => negb (p.1 =? pk)
                       | None => true
                       end)
          (imap pair (serial_rows t)).

(** [SerialNumberValidator.validate_part_availability] *)
Definition validate_part_availability (pn : string) (t : Tables)
  : outcome error AuthorizedPart :=
  match list_find (fun p => part_number p = pn) (parts t) with
  | Some (_, part) =>
      if negb (part_is_active part) then Raise PartNotActive else Ok part
  | None => Raise PartUnknown
  end.

(** *** SerialNumberBulkGenerator *)

(** The [for] loop of [generate_bulk_serials] over the indices [is]. *)
Fixpoint bulk_loop (order_number part_number : string) (indices : list nat)
    (created_serials : list SerialRow) (t : Tables)
  : option (outcome error (list SerialRow * Tables)) :=
  match indices with
  | [] => Some (Ok (created_serials, t))
  | i :: indices' =>
      match generate_serial_number (order_number ++ "-" ++ pad3 (i + 1))
              part_number t with
      | None => None
      | Some (Ok (serial, t')) =>
          bulk_loop order_number part_number indices'
            (created_serials ++ [serial])%list t'
      | Some (Raise e) =>
          if is_validation_error e then Some (Raise (BulkFailure i e))
          else Some (Raise e)
      end
  end.

(** [SerialNumberBulkGenerator.generate_bulk_serials]; the decorator
    [transaction.atomic] gives the tables back as they were when an
    exception leaves. *)
Definition generate_bulk_serials (order_number part_number : string)
    (quantity : Z) (t : Tables)
  : option (outcome error (list SerialRow) * Tables) :=
  if ((quantity <=? 0) || (quantity >? 100))%Z
  then Some (Raise QuantityOutOfRange, t)
  else
    match validate_part_availability part_number t with
    | Raise e => Some (Raise e, t)
    | Ok _ =>
        match validate_order_number order_number with
        | Raise e => Some (Raise e, t)
        | Ok _ =>
            match bulk_loop order_number part_number
                    (seq 0 (Z.to_nat quantity)) [] t with
            | None => None
            | Some (Ok (created_serials, t')) => Some (Ok created_serials, t')
            | Some (Raise e) => Some (Raise e, t)
            end
        end
    end.

(** The code of the first character of an identifier, which decides
    first how the table orders it. *)
Definition first_code (s : string) : nat :=
  match s with
  | String c _ => nat_of_ascii c
  | EmptyString => 0
  end.

(** The tables with one more serial number row. *)
Definition add_row (t : Tables) (row : SerialRow) : Tables :=
  {| parts := parts t; serial_rows := (serial_rows t ++ [row])%list |}.

(** The table after [n] more allocations for one order and part. *)
Fixpoint tables_after (order_number part_number : string) (t : Tables) (n : nat)
  : Tables :=
  match n with
  | O => t
  | S n' =>
      let t' := tables_after order_number part_number t n' in
      match generate_serial_number order_number part_number t' with
      | Some (Ok (_, t'')) => t''
      | _ => t'
      end
  end.

(** The identifiers of the column are generated ones and the one with the
    counters [first_part], [second_part] is the last of them. *)
Definition km_state (store : list string) (first_part second_part : nat) : Prop :=
  first_part < 1000 /\ second_part < 1000
  /\ In (format_km first_part second_part) store
  /\ forall x, In x store ->
       exists f k, f < 1000 /\ k < 1000 /\ x = format_km f k
                   /\ 1000 * f + k <= 1000 * first_part + second_part.

End Legacy.

(** * Properties of the serial numbers *)

Module SerialFacts.
Import Serials.

(** ** Letters *)

Lemma year_cases (y : Z) :
  (2025 <= y <= 2050)%Z ->
  exists n, n < 26 /\ y = (2025 + Z.of_nat n)%Z.
Proof. intros H. exists (Z.to_nat (y - 2025)). lia. Qed.

Lemma get_year_letter_in_range (y : Z) :
  (2025 <= y <= 2050)%Z ->
  get_year_letter y = Ok (chr (ord "K" + (y - 2025))).
Proof.
  intros H. unfold get_year_letter.
  destruct (y <? 2025)%Z eqn:H1; [lia|].
  destruct (y - 2025 >? 25)%Z eqn:H2; [lia|]. done.
Qed.


(** ** The shape of a generated identifier *)

Lemma generate_serial_number_form authorized y m store s store' :
  generate_serial_number authorized y m store = Ok (s, store') ->
  exists year_letter month_letter first_num second_num,
    get_year_letter y = Ok year_letter
    /\ get_month_letter m = Ok month_letter
    /\ s = format_serial (String year_letter (String month_letter ""))
             first_num second_num
    /\ store' = (store ++ [s])%list.
Proof.
  unfold generate_serial_number.
  destruct authorized; simpl; [|done].
  destruct (get_year_letter y) as [yl|]; [|done].
  destruct (get_month_letter m) as [ml|]; [|done].
  match goal with
  | |- context [match ?c with Ok _ => _ | Raise _ => _ end] =>
      destruct c as [[f k]|]; [|done]
  end.
  destruct (exists_serial _ store); [done|].
  intros H. injection H as <- <-. by exists yl, ml, f, k.
Qed.




(** ** Decoding *)

(** C5, at the failing input.  In January 2041 the generator returns
    an identifier that the decoder reports as invalid. *)
Theorem decode_generated_2041 :
  generate_serial_number true 2041 1 [] = Ok ("[A001-001M", ["[A001-001M"])
  /\ decode_serial_info "[A001-001M" = None.
Proof. split; vm_compute; reflexivity. Qed.

(** C4, at the failing input.  In January 2041 the first allocation
    returns an identifier and the second raises the pattern error: no
    second code, and not the exhaustion error either. *)
Theorem second_allocation_2041 :
  generate_serial_number true 2041 1 [] = Ok ("[A001-001M", ["[A001-001M"])
  /\ generate_serial_number true 2041 1 ["[A001-001M"] = Raise PatternError.
Proof. split; vm_compute; reflexivity. Qed.

Lemma decode_invalid_format s :
  validate_serial_format s = false -> decode_serial_info s = None.
Proof. intros H. unfold decode_serial_info. by rewrite H. Qed.

Lemma pad3_reads_back_all : forallb pad3_reads_back (seq 0 1000) = true.
Proof. vm_compute. reflexivity. Qed.

Lemma take_digits3_pad3 n rest :
  n < 1000 -> take_digits3 (pad3 n ++ rest) = Some (n, rest).
Proof.
  intros Hn.
  pose proof pad3_reads_back_all as H. rewrite forallb_forall in H.
  specialize (H n). unfold pad3_reads_back in H.
  destruct (pad3 n) as [|a [|b [|c [|]]]];
    try (assert (false = true) by (apply H; apply in_seq; lia); done).
  assert (Hok : is_digit a && is_digit b && is_digit c
                && (100 * digit_val a + 10 * digit_val b + digit_val c =? n)
                = true) by (apply H; apply in_seq; lia).
  apply andb_true_iff in Hok as [Hd Hv]. apply Nat.eqb_eq in Hv.
  cbn [append]. unfold take_digits3. rewrite Hd. by rewrite Hv.
Qed.

Lemma match_counters_format first_num second_num :
  first_num < 1000 -> second_num < 1000 ->
  match_counters (pad3 first_num ++ "-" ++ pad3 second_num ++ "M")
  = Some (first_num, second_num, "").
Proof.
  intros H1 H2. unfold match_counters.
  rewrite take_digits3_pad3 by done. simpl.
  by rewrite take_digits3_pad3 by done.
Qed.

Lemma take_digits3_bound s n rest :
  take_digits3 s = Some (n, rest) -> n < 1000.
Proof.
  unfold take_digits3.
  destruct s as [|a [|b [|c s]]]; try done.
  destruct (is_digit a) eqn:Ha, (is_digit b) eqn:Hb, (is_digit c) eqn:Hc;
    simpl; try done.
  intros H. injection H as <- _.
  unfold is_digit, digit_val in *.
  apply andb_true_iff in Ha as [_ Ha], Hb as [_ Hb], Hc as [_ Hc].
  apply Nat.leb_le in Ha, Hb, Hc. lia.
Qed.

Lemma match_counters_bound s first_num second_num rest :
  match_counters s = Some (first_num, second_num, rest) ->
  first_num < 1000 /\ second_num < 1000.
Proof.
  unfold match_counters.
  destruct (take_digits3 s) as [[f s1]|] eqn:H1; [|done].
  destruct s1 as [|c s1]; [done|].
  destruct (Ascii.eqb_spec c "-") as [->|Hc].
  2:{ intros H. exfalso. revert H.
      destruct c as [[] [] [] [] [] [] [] []]; try done. }
  destruct (take_digits3 s1) as [[k s2]|] eqn:H2; [|done].
  destruct s2 as [|d s2]; [done|].
  destruct (Ascii.eqb_spec d "M") as [->|Hd].
  2:{ intros H. exfalso. revert H.
      destruct d as [[] [] [] [] [] [] [] []]; try done. }
  intros H. injection H as <- <- _.
  split; by eapply take_digits3_bound.
Qed.

(** ** Decoding what was generated *)

Lemma re_match_prefixed_bound year_letter month_letter x f k :
  re_match_prefixed year_letter month_letter x = Ok (Some (f, k)) ->
  f < 1000 /\ k < 1000.
Proof.
  unfold re_match_prefixed.
  destruct (compile_prefix year_letter month_letter) as [items|]; [|done].
  destruct (match_prefix items x) as [rest|]; [|done].
  destruct (match_counters rest) as [[[f' k'] tail]|] eqn:Hm; [|done].
  intros H. injection H as <- <-. by eapply match_counters_bound.
Qed.

Lemma generate_serial_number_counters authorized y m store s store' :
  generate_serial_number authorized y m store = Ok (s, store') ->
  exists year_letter month_letter f k,
    get_year_letter y = Ok year_letter
    /\ get_month_letter m = Ok month_letter
    /\ s = serial_of year_letter month_letter f k
    /\ f < 1000 /\ k < 1000.
Proof.
  unfold generate_serial_number.
  destruct authorized; simpl; [|done].
  destruct (get_year_letter y) as [yl|]; [|done].
  destruct (get_month_letter m) as [ml|]; [|done].
  set (prefix := String yl (String ml "")).
  assert (Hc : forall f k,
    match last_serial prefix store with
    | Some last =>
        match re_match_prefixed yl ml last with
        | Ok (Some (first_num, second_num)) =>
            if second_num <? 999 then Ok (first_num, second_num + 1)
            else if 999 <? first_num + 1 then Raise SerialLimitReached
                 else Ok (first_num + 1, 1)
        | Ok None => Ok (1, 1)
        | Raise e => Raise e
        end
    | None => Ok (1, 1)
    end = Ok (f, k) -> f < 1000 /\ k < 1000).
  { intros f k.
    destruct (last_serial prefix store) as [last|];
      [|intros H; injection H as <- <-; lia].
    destruct (re_match_prefixed yl ml last) as [[[f0 k0]|]|] eqn:Hr;
      [|intros H; injection H as <- <-; lia|done].
    apply re_match_prefixed_bound in Hr as [Hf0 Hk0].
    destruct (Nat.ltb_spec k0 999).
    - intros Heq; injection Heq as <- <-; lia.
    - destruct (Nat.ltb_spec 999 (f0 + 1)); [done|].
      intros Heq; injection Heq as <- <-; lia. }
  match goal with
  | |- context [match ?c with Ok _ => _ | Raise _ => _ end] =>
      destruct c as [[f k]|] eqn:Hcounters; [|done]
  end.
  destruct (exists_serial _ store); [done|].
  intros H. injection H as <- <-.
  exists yl, ml, f, k. split_and!; try done; by apply (Hc f k).
Qed.

Lemma ord_chr z : (0 <= z < 256)%Z -> ord (chr z) = z.
Proof.
  intros H. unfold ord, chr. rewrite nat_ascii_embedding by lia. lia.
Qed.

Lemma in_range_chr lo hi z :
  (0 <= z < 256)%Z -> (ord lo <= z <= ord hi)%Z ->
  in_range lo hi (chr z) = true.
Proof.
  intros Hz Hr. unfold in_range.
  pose proof (ord_chr z Hz) as Ho. unfold ord in *.
  apply andb_true_iff. split; apply Nat.leb_le; lia.
Qed.

(** The decoder on an identifier of the years 2025 to 2040. *)
Lemma decode_serial_of y m f k :
  (2025 <= y <= 2040)%Z -> (1 <= m <= 12)%Z -> f < 1000 -> k < 1000 ->
  decode_serial_info
    (serial_of (chr (ord "K" + (y - 2025))) (chr (ord "A" + m - 1)) f k)
  = Some {| year := y; month := m;
            first_sequence := f; second_sequence := k;
            info_year_letter := chr (ord "K" + (y - 2025));
            info_month_letter := chr (ord "A" + m - 1) |}.
Proof.
  intros Hy Hm Hf Hk.
  assert (HK : ord "K" = 75%Z) by done.
  assert (HZ : ord "Z" = 90%Z) by done.
  assert (HA : ord "A" = 65%Z) by done.
  assert (HL : ord "L" = 76%Z) by done.
  pose proof (match_counters_format f k Hf Hk) as Hmc. cbn [append] in Hmc.
  assert (Hms : match_serial
            (serial_of (chr (ord "K" + (y - 2025))) (chr (ord "A" + m - 1)) f k)
          = Some (f, k)).
  { unfold serial_of, format_serial, match_serial. cbn [append].
    rewrite !in_range_chr by lia. simpl. by rewrite Hmc. }
  unfold decode_serial_info, validate_serial_format. rewrite Hms. simpl.
  rewrite !ord_chr by lia. do 2 f_equal; lia.
Qed.

(** X2.  The round trip for the years whose letter the validator knows:
    an identifier generated in a month of 2025 to 2040 decodes to that
    year and month, its two counters and its two letters. *)
Lemma decode_generated_valid_years authorized y m store s store' :
  (2025 <= y <= 2040)%Z ->
  generate_serial_number authorized y m store = Ok (s, store') ->
  exists f k,
    s = serial_of (chr (ord "K" + (y - 2025))) (chr (ord "A" + m - 1)) f k
    /\ decode_serial_info s
       = Some {| year := y; month := m;
                 first_sequence := f; second_sequence := k;
                 info_year_letter := chr (ord "K" + (y - 2025));
                 info_month_letter := chr (ord "A" + m - 1) |}.
Proof.
  intros Hy Hg.
  apply generate_serial_number_counters in Hg
    as (yl & ml & f & k & Hyl & Hml & -> & Hf & Hk).
  rewrite get_year_letter_in_range in Hyl by lia. injection Hyl as <-.
  unfold get_month_letter in Hml.
  destruct ((m <? 1) || (m >? 12))%Z eqn:Hm; [done|].
  injection Hml as <-.
  exists f, k. split; [done|]. apply decode_serial_of; try done. lia.
Qed.

(** ** The order of identifiers *)

Lemma ascii_compare_nat a b :
  Ascii.compare a b = (nat_of_ascii a ?= nat_of_ascii b).
Proof.
  unfold Ascii.compare, nat_of_ascii. by rewrite N2Nat.inj_compare.
Qed.

Lemma ascii_compare_refl a : Ascii.compare a a = Eq.
Proof. rewrite ascii_compare_nat. apply Nat.compare_refl. Qed.

Lemma string_compare_refl s : String.compare s s = Eq.
Proof.
  induction s as [|a s IH]; [done|]. simpl. by rewrite ascii_compare_refl.
Qed.

(** What the table [pad3_reads_back_all] says of one number. *)
Lemma pad3_digits n :
  n < 1000 ->
  exists a b c,
    pad3 n = String a (String b (String c ""))
    /\ 48 <= nat_of_ascii a <= 57 /\ 48 <= nat_of_ascii b <= 57
    /\ 48 <= nat_of_ascii c <= 57
    /\ 100 * (nat_of_ascii a - 48) + 10 * (nat_of_ascii b - 48)
       + (nat_of_ascii c - 48) = n.
Proof.
  intros Hn.
  pose proof pad3_reads_back_all as H. rewrite forallb_forall in H.
  specialize (H n). unfold pad3_reads_back in H.
  destruct (pad3 n) as [|a [|b [|c [|]]]];
    try (assert (false = true) by (apply H; apply in_seq; lia); done).
  assert (Hok : is_digit a && is_digit b && is_digit c
                && (100 * digit_val a + 10 * digit_val b + digit_val c =? n)
                = true) by (apply H; apply in_seq; lia).
  exists a, b, c. split; [done|].
  unfold is_digit, digit_val in Hok.
  repeat match goal with
         | H : _ && _ = true |- _ => apply andb_true_iff in H as [? ?]
         | H : (_ <=? _) = true |- _ => apply Nat.leb_le in H
         | H : (_ =? _) = true |- _ => apply Nat.eqb_eq in H
         end.
  lia.
Qed.

(** Padded numbers compare as the numbers do. *)
Lemma compare_pad3 n n' r r' :
  n < 1000 -> n' < 1000 ->
  String.compare (pad3 n ++ r) (pad3 n' ++ r') =
  match n ?= n' with
  | Eq => String.compare r r'
  | c => c
  end.
Proof.
  intros Hn Hn'.
  destruct (pad3_digits n Hn) as (a & b & c & -> & Ha & Hb & Hc & Hv).
  destruct (pad3_digits n' Hn') as (a' & b' & c' & -> & Ha' & Hb' & Hc' & Hv').
  cbn [append String.compare]. rewrite !ascii_compare_nat.
  destruct (Nat.compare_spec (nat_of_ascii a) (nat_of_ascii a'));
    destruct (Nat.compare_spec (nat_of_ascii b) (nat_of_ascii b'));
    destruct (Nat.compare_spec (nat_of_ascii c) (nat_of_ascii c'));
    destruct (Nat.compare_spec n n'); try reflexivity; lia.
Qed.

Lemma compare_serial_of year_letter month_letter f k f' k' :
  f < 1000 -> k < 1000 -> f' < 1000 -> k' < 1000 ->
  String.compare (serial_of year_letter month_letter f k)
                 (serial_of year_letter month_letter f' k') =
  match f ?= f' with
  | Eq => k ?= k'
  | c => c
  end.
Proof.
  intros Hf Hk Hf' Hk'. unfold serial_of, format_serial.
  cbn [append String.compare]. rewrite !ascii_compare_refl.
  rewrite compare_pad3 by done.
  destruct (f ?= f'); try done.
  cbn [append String.compare]. rewrite ascii_compare_refl.
  rewrite compare_pad3 by done.
  destruct (k ?= k'); try done.
Qed.

(** Identifiers of one bucket are ordered as their counters. *)
Lemma serial_of_lt year_letter month_letter f k f' k' :
  f < 1000 -> k < 1000 -> f' < 1000 -> k' < 1000 ->
  1000 * f + k < 1000 * f' + k' ->
  String.ltb (serial_of year_letter month_letter f k)
             (serial_of year_letter month_letter f' k') = true.
Proof.
  intros Hf Hk Hf' Hk' Hlt. unfold String.ltb.
  rewrite compare_serial_of by done.
  destruct (Nat.compare_spec f f'); [|done|lia].
  destruct (Nat.compare_spec k k'); [lia|done|lia].
Qed.

Lemma serial_of_inj year_letter month_letter f k f' k' :
  f < 1000 -> k < 1000 -> f' < 1000 -> k' < 1000 ->
  serial_of year_letter month_letter f k
  = serial_of year_letter month_letter f' k' ->
  f = f' /\ k = k'.
Proof.
  intros Hf Hk Hf' Hk' Heq.
  pose proof (compare_serial_of year_letter month_letter f k f' k'
                Hf Hk Hf' Hk') as Hc.
  rewrite Heq, string_compare_refl in Hc.
  destruct (Nat.compare_spec f f'); try done.
  destruct (Nat.compare_spec k k'); done.
Qed.

(** ** One allocation *)

Lemma greatest_In l x : greatest l = Some x -> In x l.
Proof.
  revert x. induction l as [|y l IH]; intros x; simpl; [done|].
  destruct (greatest l) as [z|].
  - destruct (String.ltb z y); intros H; injection H as <-; auto.
  - intros H; injection H as <-; auto.
Qed.

Lemma ltb_false_of_le x c :
  x = c \/ String.ltb x c = true -> String.ltb c x = false.
Proof.
  unfold String.ltb. intros [->|H].
  - by rewrite string_compare_refl.
  - rewrite String.compare_antisym. by destruct (String.compare x c).
Qed.

Lemma greatest_is l c :
  In c l -> (forall x, In x l -> x = c \/ String.ltb x c = true) ->
  greatest l = Some c.
Proof.
  induction l as [|y l IH]; intros Hin Hle; [done|]. simpl.
  destruct (in_dec string_dec c l) as [Hc|Hc].
  - rewrite IH; [|done|intros x Hx; apply Hle; by right].
    rewrite ltb_false_of_le; [done|]. apply Hle. by left.
  - destruct Hin as [->|Hin]; [|done].
    destruct (greatest l) as [z|] eqn:Hz; [|done].
    apply greatest_In in Hz.
    destruct (Hle z (or_intror Hz)) as [->|Hlt]; [done|]. by rewrite Hlt.
Qed.

Section Bucket.
Variables (year month : Z) (year_letter month_letter : ascii).
Hypothesis Hyear : get_year_letter year = Ok year_letter.
Hypothesis Hmonth : get_month_letter month = Ok month_letter.
Hypothesis Hliteral :
  compile_prefix year_letter month_letter
  = Some [PLit year_letter; PLit month_letter].

Local Abbreviation bucket := (String year_letter (String month_letter "")).

Lemma startswith_serial_of f k :
  startswith bucket (serial_of year_letter month_letter f k) = true.
Proof.
  unfold startswith, serial_of, format_serial.
  cbn [append String.prefix].
  destruct (ascii_dec year_letter year_letter); [|done].
  destruct (ascii_dec month_letter month_letter); [|done].
  by destruct (pad3 f ++ _).
Qed.

Lemma re_match_serial_of f k :
  f < 1000 -> k < 1000 ->
  re_match_prefixed year_letter month_letter
    (serial_of year_letter month_letter f k) = Ok (Some (f, k)).
Proof.
  intros Hf Hk. unfold re_match_prefixed. rewrite Hliteral.
  unfold serial_of, format_serial. cbn [append match_prefix].
  rewrite !Ascii.eqb_refl.
  pose proof (match_counters_format f k Hf Hk) as Hm.
  cbn [append] in Hm. by rewrite Hm.
Qed.

Lemma last_serial_bucket store f k :
  bucket_state year_letter month_letter store f k ->
  last_serial bucket store = Some (serial_of year_letter month_letter f k).
Proof.
  intros (Hf & Hk & Hin & Hall). unfold last_serial.
  apply greatest_is.
  - apply filter_In. split; [done|]. apply startswith_serial_of.
  - intros x Hx. apply filter_In in Hx as [Hx Hp].
    destruct (Hall x Hx Hp) as (f' & k' & Hf' & Hk' & -> & Hle).
    destruct (decide (1000 * f' + k' = 1000 * f + k)) as [Heq|Hne].
    + left. f_equal; lia.
    + right. apply serial_of_lt; try done. lia.
Qed.

Lemma last_serial_none store :
  (forall x, In x store -> startswith bucket x = false) ->
  last_serial bucket store = None.
Proof.
  intros H. unfold last_serial.
  destruct (List.filter (startswith bucket) store) as [|x l] eqn:Hf; [done|].
  assert (Hx : In x (List.filter (startswith bucket) store))
    by (rewrite Hf; by left).
  apply filter_In in Hx as [Hx Hp]. rewrite (H x Hx) in Hp. done.
Qed.

Lemma exists_serial_false s store :
  (forall x, In x store -> x <> s) -> exists_serial s store = false.
Proof.
  intros H. unfold exists_serial.
  destruct (existsb (String.eqb s) store) eqn:He; [|done].
  apply existsb_exists in He as (x & Hx & Heq).
  apply String.eqb_eq in Heq. by destruct (H x Hx).
Qed.

(** A generated identifier beyond the last one is new, and the store
    with it is again a bucket state. *)
Lemma bucket_state_next store f k f' k' :
  bucket_state year_letter month_letter store f k ->
  f' < 1000 -> k' < 1000 -> 1000 * f + k < 1000 * f' + k' ->
  exists_serial (serial_of year_letter month_letter f' k') store = false
  /\ bucket_state year_letter month_letter
       (store ++ [serial_of year_letter month_letter f' k'])%list f' k'.
Proof.
  intros (Hf & Hk & Hin & Hall) Hf' Hk' Hlt. split.
  - apply exists_serial_false. intros x Hx Heq. subst x.
    destruct (Hall _ Hx (startswith_serial_of f' k'))
      as (f1 & k1 & Hf1 & Hk1 & Heq & Hle).
    apply serial_of_inj in Heq as [-> ->]; try done. lia.
  - split_and!; try done.
    + apply in_or_app. right. by left.
    + intros x Hx Hp. apply in_app_or in Hx as [Hx|[<-|[]]].
      * destruct (Hall x Hx Hp) as (f1 & k1 & Hf1 & Hk1 & -> & Hle).
        exists f1, k1. split_and!; try done. lia.
      * exists f', k'. split_and!; try done.
Qed.

(** The first allocation of a month. *)
Lemma generate_first store :
  (forall x, In x store -> startswith bucket x = false) ->
  generate_serial_number true year month store
  = Ok (serial_of year_letter month_letter 1 1,
        (store ++ [serial_of year_letter month_letter 1 1])%list)
  /\ bucket_state year_letter month_letter
       (store ++ [serial_of year_letter month_letter 1 1])%list 1 1.
Proof.
  intros Hnone. unfold generate_serial_number. simpl.
  rewrite Hyear, Hmonth.
  rewrite last_serial_none by done.
  fold (serial_of year_letter month_letter 1 1).
  rewrite exists_serial_false.
  2:{ intros x Hx Heq. subst x.
      pose proof (Hnone _ Hx) as Hp.
      by rewrite startswith_serial_of in Hp. }
  split; [done|].
  split_and!; [lia|lia|apply in_or_app; right; by left|].
  intros x Hx Hp. apply in_app_or in Hx as [Hx|[<-|[]]].
  - by rewrite (Hnone x Hx) in Hp.
  - exists 1, 1. split_and!; try done; lia.
Qed.

(** A later allocation: the second counter goes up, carries into the
    first past 999, and past 999 of the first the limit error is raised
    and the store stays. *)
Lemma generate_next store f k :
  bucket_state year_letter month_letter store f k ->
  generate_serial_number true year month store =
  (if k <? 999 then
     Ok (serial_of year_letter month_letter f (k + 1),
         (store ++ [serial_of year_letter month_letter f (k + 1)])%list)
   else if 999 <? f + 1 then Raise SerialLimitReached
   else
     Ok (serial_of year_letter month_letter (f + 1) 1,
         (store ++ [serial_of year_letter month_letter (f + 1) 1])%list)).
Proof.
  intros Hst. pose proof Hst as (Hf & Hk & _).
  unfold generate_serial_number. simpl.
  rewrite Hyear, Hmonth.
  rewrite (last_serial_bucket _ _ _ Hst).
  rewrite re_match_serial_of by done.
  destruct (k <? 999) eqn:Hk9.
  - apply Nat.ltb_lt in Hk9.
    fold (serial_of year_letter month_letter f (k + 1)).
    destruct (bucket_state_next store f k f (k + 1) Hst) as [-> _];
      try done; lia.
  - apply Nat.ltb_ge in Hk9.
    destruct (999 <? f + 1) eqn:Hf9; [done|].
    apply Nat.ltb_ge in Hf9.
    fold (serial_of year_letter month_letter (f + 1) 1).
    destruct (bucket_state_next store f k (f + 1) 1 Hst) as [-> _];
      try done; lia.
Qed.

(** ** Successive allocations *)

Section Successive.
Variable store : list string.
Hypothesis Hempty : forall x, In x store -> startswith bucket x = false.

Lemma store_after_S n :
  store_after year month store (S n) =
  match generate_serial_number true year month
          (store_after year month store n) with
  | Ok (_, st') => st'
  | Raise _ => store_after year month store n
  end.
Proof. done. Qed.

Lemma store_after_state n :
  forall a b, n = 999 * a + b -> a < 999 -> b < 999 ->
    bucket_state year_letter month_letter
      (store_after year month store (S n)) (a + 1) (b + 1).
Proof.
  induction n as [|n IH]; intros a b Hn Ha Hb.
  - assert (a = 0 /\ b = 0) as [-> ->] by lia.
    rewrite store_after_S. cbn [store_after].
    destruct (generate_first store Hempty) as [-> Hst]. exact Hst.
  - rewrite store_after_S.
    destruct b as [|b].
    + destruct a as [|a]; [lia|].
      assert (Hprev : bucket_state year_letter month_letter
                (store_after year month store (S n)) (a + 1) (998 + 1))
        by (apply IH; lia).
      rewrite (generate_next _ _ _ Hprev).
      destruct (Nat.ltb_spec (998 + 1) 999); [lia|].
      destruct (Nat.ltb_spec 999 (a + 1 + 1)); [lia|].
      replace (S a + 1) with (a + 1 + 1) by lia.
      eapply bucket_state_next; [exact Hprev|lia..].
    + assert (Hprev : bucket_state year_letter month_letter
                (store_after year month store (S n)) (a + 1) (b + 1))
        by (apply IH; lia).
      rewrite (generate_next _ _ _ Hprev).
      destruct (Nat.ltb_spec (b + 1) 999); [|lia].
      replace (S b + 1) with (b + 1 + 1) by lia.
      eapply bucket_state_next; [exact Hprev|lia..].
Qed.

Lemma store_after_full d :
  bucket_state year_letter month_letter
    (store_after year month store (999 * 999 + d)) 999 999.
Proof.
  induction d as [|d IH].
  - replace (999 * 999 + 0) with (S (999 * 998 + 998)) by lia.
    apply (store_after_state _ 998 998); lia.
  - rewrite Nat.add_succ_r, store_after_S.
    by rewrite (generate_next _ _ _ IH).
Qed.

(** Successive allocations of one month, from a store without
    identifiers of that month: allocation number [999 * a + b + 1]
    returns the identifier with the counters [a + 1] and [b + 1]; the
    identifiers grow strictly; after [999 * 999] of them every
    allocation raises the limit error. *)
Theorem successive_allocations :
  (forall a b, a < 999 -> b < 999 ->
     generate_serial_number true year month
       (store_after year month store (999 * a + b))
     = Ok (serial_of year_letter month_letter (a + 1) (b + 1),
           (store_after year month store (999 * a + b)
              ++ [serial_of year_letter month_letter (a + 1) (b + 1)])%list))
  /\ (forall a b a' b', a < 999 -> b < 999 -> a' < 999 -> b' < 999 ->
       999 * a + b < 999 * a' + b' ->
       String.ltb (serial_of year_letter month_letter (a + 1) (b + 1))
                  (serial_of year_letter month_letter (a' + 1) (b' + 1))
       = true)
  /\ (forall n, 999 * 999 <= n ->
       generate_serial_number true year month
         (store_after year month store n) = Raise SerialLimitReached).
Proof.
  split_and!.
  - intros a b Ha Hb.
    destruct b as [|b].
    + destruct a as [|a].
      * replace (999 * 0 + 0) with 0 by lia. cbn [store_after].
        by destruct (generate_first store Hempty) as [-> _].
      * assert (Hprev : bucket_state year_letter month_letter
                  (store_after year month store (999 * S a + 0))
                  (a + 1) (998 + 1)).
        { replace (999 * S a + 0) with (S (999 * a + 998)) by lia.
          apply store_after_state; lia. }
        rewrite (generate_next _ _ _ Hprev).
        destruct (Nat.ltb_spec (998 + 1) 999); [lia|].
        destruct (Nat.ltb_spec 999 (a + 1 + 1)); [lia|].
        by replace (S a + 1) with (a + 1 + 1) by lia.
    + assert (Hprev : bucket_state year_letter month_letter
                (store_after year month store (999 * a + S b))
                (a + 1) (b + 1)).
      { replace (999 * a + S b) with (S (999 * a + b)) by lia.
        apply store_after_state; lia. }
      rewrite (generate_next _ _ _ Hprev).
      destruct (Nat.ltb_spec (b + 1) 999); [|lia].
      by replace (S b + 1) with (b + 1 + 1) by lia.
  - intros a b a' b' Ha Hb Ha' Hb' Hlt.
    apply serial_of_lt; lia.
  - intros n Hn.
    replace n with (999 * 999 + (n - 999 * 999)) by lia.
    by rewrite (generate_next _ _ _ (store_after_full _)).
Qed.

End Successive.

End Bucket.

Lemma compile_prefix_valid_year y month_letter :
  (2025 <= y <= 2040)%Z ->
  compile_prefix (chr (ord "K" + (y - 2025))) month_letter
  = Some [PLit (chr (ord "K" + (y - 2025))); PLit month_letter].
Proof.
  intros Hy. destruct (year_cases y) as (n & Hn & ->); [lia|].
  do 16 (destruct n as [|n]; [reflexivity|]). lia.
Qed.

(** X1.  The allocations of a month of the years 2025 to 2040, from a
    store without identifiers of that month: allocation number
    [999 * a + b + 1] returns the identifier with the counters [a + 1] and
    [b + 1] and stores it; the identifiers grow strictly; after [999 * 999]
    of them every allocation raises the limit error. *)
Corollary successive_allocations_valid_years y m store :
  (2025 <= y <= 2040)%Z -> (1 <= m <= 12)%Z ->
  (forall x, In x store ->
     startswith (String (chr (ord "K" + (y - 2025)))
                   (String (chr (ord "A" + m - 1)) "")) x = false) ->
  let year_letter := chr (ord "K" + (y - 2025)) in
  let month_letter := chr (ord "A" + m - 1) in
  (forall a b, a < 999 -> b < 999 ->
     generate_serial_number true y m (store_after y m store (999 * a + b))
     = Ok (serial_of year_letter month_letter (a + 1) (b + 1),
           (store_after y m store (999 * a + b)
              ++ [serial_of year_letter month_letter (a + 1) (b + 1)])%list))
  /\ (forall a b a' b', a < 999 -> b < 999 -> a' < 999 -> b' < 999 ->
       999 * a + b < 999 * a' + b' ->
       String.ltb (serial_of year_letter month_letter (a + 1) (b + 1))
                  (serial_of year_letter month_letter (a' + 1) (b' + 1))
       = true)
  /\ (forall n, 999 * 999 <= n ->
       generate_serial_number true y m (store_after y m store n)
       = Raise SerialLimitReached).
Proof.
  intros Hy Hm Hempty year_letter month_letter.
  apply (successive_allocations y m year_letter month_letter).
  - apply get_year_letter_in_range. lia.
  - unfold get_month_letter.
    destruct ((m <? 1) || (m >? 12))%Z eqn:Hb; [lia|done].
  - by apply compile_prefix_valid_year.
  - exact Hempty.
Qed.

Example first_allocations_january_2025 :
  generate_serial_number true 2025 1 (store_after 2025 1 [] 0)
    = Ok ("KA001-001M", ["KA001-001M"])
  /\ generate_serial_number true 2025 1 (store_after 2025 1 [] 1)
    = Ok ("KA001-002M", ["KA001-001M"; "KA001-002M"])
  /\ generate_serial_number true 2025 1 ["KA001-999M"]
    = Ok ("KA002-001M", ["KA001-999M"; "KA002-001M"])
  /\ generate_serial_number true 2025 1 ["KA999-999M"]
    = Raise SerialLimitReached.
Proof. split_and!; vm_compute; reflexivity. Qed.

End SerialFacts.

(** * Properties of the process service *)

Module ServiceFacts.
Import Workflow.

(** ** Saving records *)

Lemma update_process_timestamps_fields now old r :
  pr_serial (update_process_timestamps now old r) = pr_serial r
  /\ pr_operation (update_process_timestamps now old r) = pr_operation r
  /\ status (update_process_timestamps now old r) = status r
  /\ assigned_operator (update_process_timestamps now old r)
     = assigned_operator r
  /\ processed_by (update_process_timestamps now old r) = processed_by r
  /\ quality_check_passed (update_process_timestamps now old r)
     = quality_check_passed r
  /\ rejection_reason (update_process_timestamps now old r)
     = rejection_reason r
  /\ (completed_at r <> None ->
      completed_at (update_process_timestamps now old r) = completed_at r).
Proof.
  unfold update_process_timestamps.
  repeat match goal with
         | |- context [if ?b then _ else _] => destruct b eqn:?
         end; simpl; split_and!; try done.
  all: intros Hc; repeat match goal with
         | H : _ && _ = true |- _ => apply andb_true_iff in H as [? ?]
         | H : bool_decide _ = true |- _ => apply bool_decide_eq_true in H
         end; simpl in *; done.
Qed.

Lemma pre_save_fields receivers now i r db :
  pr_serial (pre_save receivers now i r db) = pr_serial r
  /\ pr_operation (pre_save receivers now i r db) = pr_operation r
  /\ status (pre_save receivers now i r db) = status r
  /\ assigned_operator (pre_save receivers now i r db) = assigned_operator r
  /\ processed_by (pre_save receivers now i r db) = processed_by r
  /\ quality_check_passed (pre_save receivers now i r db)
     = quality_check_passed r
  /\ rejection_reason (pre_save receivers now i r db) = rejection_reason r
  /\ (completed_at r <> None ->
      completed_at (pre_save receivers now i r db) = completed_at r).
Proof.
  unfold pre_save. destruct receivers; [|done].
  destruct (process_records db !! i); [|done].
  apply update_process_timestamps_fields.
Qed.

Lemma holds_pre_save receivers now i r db user :
  holds user (pre_save receivers now i r db) <-> holds user r.
Proof.
  unfold holds.
  destruct (pre_save_fields receivers now i r db) as (_ & _ & -> & -> & _).
  done.
Qed.

Lemma post_save_record_tables receivers now r db :
  process_records (post_save_record receivers now r db) = process_records db
  /\ operations (post_save_record receivers now r db) = operations db
  /\ defects (post_save_record receivers now r db) = defects db
  /\ users (post_save_record receivers now r db) = users db
  /\ length (serials (post_save_record receivers now r db))
     = length (serials db)
  /\ (receivers = false -> post_save_record receivers now r db = db).
Proof.
  unfold post_save_record. destruct receivers; [|done].
  destruct (serials db !! pr_serial r); [|done]. simpl.
  split_and!; try done. apply length_insert.
Qed.

Lemma save_eq {E} receivers now i r db :
  @save E receivers now i r db =
  (Ok (pre_save receivers now i r db),
   post_save_record receivers now (pre_save receivers now i r db)
     (save_record i (pre_save receivers now i r db) db)).
Proof. done. Qed.

Lemma get_or_create_eq {E} receivers now serial operation defaults db :
  @get_or_create E receivers now serial operation defaults db =
  match get_record serial operation (process_records db) with
  | Some (i, r) => (Ok (i, r, false), db)
  | None =>
      (Ok (length (process_records db),
           defaults (new_record serial operation), true),
       post_save_record receivers now (defaults (new_record serial operation))
         (with_records
            (process_records db ++ [defaults (new_record serial operation)])
            db))
  end.
Proof. unfold get_or_create. by destruct (get_record _ _ _) as [[? ?]|]. Qed.

(** What [get_or_create] leaves: the target record and the tables. *)
Lemma get_or_create_target {E} receivers now serial operation notes db :
  exists created db1,
    @get_or_create E receivers now serial operation (set_notes notes) db
    = (Ok ((target_record serial operation notes (process_records db)).1,
           created), db1)
    /\ process_records db1
       = (target_record serial operation notes (process_records db)).2
    /\ operations db1 = operations db /\ defects db1 = defects db
    /\ users db1 = users db
    /\ length (serials db1) = length (serials db)
    /\ (receivers = false -> serials db1 = serials db).
Proof.
  rewrite get_or_create_eq. unfold target_record.
  destruct (get_record serial operation (process_records db)) as [[i r]|].
  - by exists false, db.
  - eexists true, _. split; [reflexivity|].
    match goal with
    | |- context [post_save_record ?a ?b ?c ?d] =>
        destruct (post_save_record_tables a b c d)
          as (-> & -> & -> & -> & -> & Hoff)
    end.
    split_and!; try done. intros Hr. by rewrite Hoff.
Qed.

(** ** The sequence check *)

Lemma validate_spec serial op db :
  _validate_operation_sequence serial op db = true <->
  sequence_ok serial (sequence_number op) db.
Proof.
  unfold _validate_operation_sequence, sequence_ok.
  rewrite forallb_forall. split.
  - intros H p prev Hp Hact Hlt.
    specialize (H (p, prev)). simpl in H.
    assert (Hin : In (p, prev) (imap pair (operations db))).
    { apply list_elem_of_In.
      by apply (elem_of_lookup_imap_2 pair (operations db) prev p). }
    specialize (H Hin). unfold previous_approved in H.
    rewrite Hact in H. simpl in H.
    apply Nat.ltb_lt in Hlt. rewrite Hlt in H.
    destruct (get_record serial p (process_records db)) as [[j w]|]; [|done].
    exists j, w. split; [done|]. by apply bool_decide_eq_true in H.
  - intros H [p prev] Hin. simpl.
    apply list_elem_of_In, elem_of_lookup_imap_1 in Hin as (i & x & Heq & Hlook).
    simplify_eq. unfold previous_approved.
    destruct (is_active x) eqn:Hact; simpl; [|done].
    destruct (sequence_number x <? sequence_number op) eqn:Hlt; [|done].
    apply Nat.ltb_lt in Hlt.
    destruct (H i x Hlook Hact Hlt) as (j & w & -> & Hw).
    by apply bool_decide_eq_true.
Qed.

Lemma validate_false_spec serial op db :
  _validate_operation_sequence serial op db = false <->
  ~ sequence_ok serial (sequence_number op) db.
Proof.
  rewrite <- validate_spec.
  destruct (_validate_operation_sequence serial op db); split; try done.
Qed.

Lemma sequence_ok_tables serial seq db db' :
  process_records db' = process_records db ->
  operations db' = operations db ->
  sequence_ok serial seq db' <-> sequence_ok serial seq db.
Proof. unfold sequence_ok. by intros -> ->. Qed.

(** A row appended for another operation does not change what [get]
    finds. *)
Lemma get_record_snoc_other serial p rs r :
  pr_operation r <> p ->
  get_record serial p (rs ++ [r]) = get_record serial p rs.
Proof.
  intros Hne. unfold get_record.
  destruct (list_find _ rs) as [[j w]|] eqn:Hf.
  - by apply list_find_app_l.
  - rewrite list_find_app_r by done. simpl.
    rewrite decide_False; [done|]. intros [_ ?]. done.
Qed.

Lemma target_record_sequence_ok serial operation notes db db1 op seq :
  process_records db1
    = (target_record serial operation notes (process_records db)).2 ->
  operations db1 = operations db ->
  operations db !! operation = Some op -> seq <= sequence_number op ->
  forall serial', sequence_ok serial' seq db1 <-> sequence_ok serial' seq db.
Proof.
  unfold target_record, sequence_ok.
  destruct (get_record _ _ _) as [[j w]|] eqn:Hg;
    simpl; intros -> -> Hop Hle serial'; [done|].
  split; intros H p prev Hp Hact Hlt.
  - destruct (H p prev Hp Hact Hlt) as (j & w & Hj & Hw).
    rewrite get_record_snoc_other in Hj; [eauto|].
    simpl. intros ->. simplify_eq. lia.
  - destruct (H p prev Hp Hact Hlt) as (j & w & Hj & Hw).
    exists j, w. split; [|done].
    rewrite get_record_snoc_other; [done|].
    simpl. intros ->. simplify_eq. lia.
Qed.

Lemma target_record_validate serial operation notes db db1 op :
  process_records db1
    = (target_record serial operation notes (process_records db)).2 ->
  operations db1 = operations db ->
  operations db !! operation = Some op ->
  _validate_operation_sequence serial op db1 =
  _validate_operation_sequence serial op db.
Proof.
  intros Hrec Hops Hop.
  pose proof (target_record_sequence_ok _ _ _ _ _ _ _ Hrec Hops Hop
                (le_n _) serial) as Hiff.
  destruct (_validate_operation_sequence serial op db) eqn:Hv.
  - apply validate_spec. apply validate_spec in Hv. by apply Hiff.
  - apply validate_false_spec. apply validate_false_spec in Hv.
    intros H. apply Hv. by apply Hiff.
Qed.

Lemma target_record_status serial operation notes db i r rs1 :
  target_record serial operation notes (process_records db) = (i, r, rs1) ->
  status r = current_status serial operation db
  /\ pr_serial r = serial /\ pr_operation r = operation
  /\ rs1 !! i = Some r
  /\ get_record serial operation rs1 = Some (i, r).
Proof.
  unfold target_record, current_status.
  destruct (get_record _ _ _) as [[j w]|] eqn:Hg; intros H; simplify_eq.
  - pose proof Hg as Hg'.
    apply list_find_Some in Hg as (Hl & [? ?] & _). done.
  - simpl. split_and!; try done.
    + by rewrite lookup_app_r, Nat.sub_diag.
    + unfold get_record in *. rewrite list_find_app_r by done. simpl.
      rewrite decide_True by done. done.
Qed.

(** ** The action *)

(** The action branch is taken exactly when the status test passes. *)
Lemma apply_action_allowed action now user q r :
  match apply_action action now user q r with
  | Ok _ => action_allowed action (status r) = true
  | Raise e =>
      action_allowed action (status r) = false /\
      e = (if (action =? "start")%string then AlreadyStarted
           else if (action =? "approve")%string then CannotApprove
           else if (action =? "reject")%string then CannotRejectApproved
           else InvalidAction)
  end.
Proof.
  unfold apply_action, action_allowed.
  destruct (action =? "start")%string.
  { destruct (bool_decide (status r = PENDING)); simpl; done. }
  destruct (action =? "approve")%string.
  { destruct (bool_decide (status r = IN_PROGRESS)),
      (bool_decide (status r = PENDING)); simpl; done. }
  destruct (action =? "reject")%string.
  { destruct (bool_decide (status r = APPROVED)); simpl; done. }
  done.
Qed.

Lemma apply_action_keys action now user q r r' :
  apply_action action now user q r = Ok r' ->
  pr_serial r' = pr_serial r /\ pr_operation r' = pr_operation r
  /\ assigned_operator r' = assigned_operator r.
Proof.
  unfold apply_action.
  repeat match goal with
         | |- context [if ?b then _ else _] => destruct b
         end; intros H; by simplify_eq.
Qed.

Lemma apply_action_not_approved action now user q r0 r :
  apply_action action now user q r0 = Ok r -> status r0 <> APPROVED.
Proof.
  unfold apply_action. intros H Hst. rewrite Hst in H.
  destruct (action =? "start")%string; [done|].
  destruct (action =? "approve")%string; [done|].
  destruct (action =? "reject")%string; done.
Qed.

(** The record an action returns carries the time stamps the [pre_save]
    receiver would add. *)
Lemma apply_action_pre_save action now user q r0 r notes receivers i db :
  apply_action action now user q r0 = Ok r ->
  pre_save receivers now i
    (if negb (notes =? "")%string then set_notes notes r else r) db
  = (if negb (notes =? "")%string then set_notes notes r else r).
Proof.
  intros Ha. unfold pre_save. destruct receivers; [|done].
  destruct (process_records db !! i) as [old|]; [|done].
  unfold apply_action in Ha. unfold update_process_timestamps.
  repeat match type of Ha with
         | context [if ?b then _ else _] => destruct b
         end; simplify_eq;
    destruct (negb (notes =? "")%string), (status old); reflexivity.
Qed.

(** ** The service call *)

Lemma process_operation_missing receivers serial operation action now user notes
    q delivered db :
  serials db !! serial = None \/ operations db !! operation = None ->
  process_operation receivers serial operation action now user notes q
    delivered db = (Raise DoesNotExist, db).
Proof.
  intros H.
  unfold process_operation, atomic, process_operation_body, bind, read.
  destruct (serials db !! serial), (operations db !! operation);
    try done; destruct H; done.
Qed.

(** A failure of [process_operation] leaves the database as it was. *)
Lemma process_operation_raise_unchanged receivers serial operation action now
    user notes q delivered db e db' :
  process_operation receivers serial operation action now user notes q
    delivered db = (Raise e, db') -> db' = db.
Proof.
  unfold process_operation, atomic.
  destruct (process_operation_body _ _ _ _ _ _ _ _ _ db) as [[a|e'] db''];
    intros H; by simplify_eq.
Qed.

(** [process_operation] in terms of the database it starts from: the
    errors, and what success returns and leaves in the tables. *)
Lemma process_operation_outcome receivers serial operation action now user notes
    q delivered db s op :
  serials db !! serial = Some s ->
  operations db !! operation = Some op ->
  let '(i, r0, rs1) :=
    target_record serial operation notes (process_records db) in
  if negb (_validate_operation_sequence serial op db) then
    process_operation receivers serial operation action now user notes q
      delivered db = (Raise SequenceViolation, db)
  else
    match apply_action action now user q r0 with
    | Raise e =>
        process_operation receivers serial operation action now user notes q
          delivered db = (Raise e, db)
    | Ok r =>
        let r' := if negb (notes =? "")%string then set_notes notes r else r in
        if negb delivered then
          process_operation receivers serial operation action now user notes q
            delivered db = (Raise NotificationFailure, db)
        else
          exists db' s',
            process_operation receivers serial operation action now user notes
              q delivered db = (Ok r', db')
            /\ process_records db' = <[i := r']> rs1
            /\ operations db' = operations db
            /\ defects db' = defects db /\ users db' = users db
            /\ serials db' !! serial = Some s'
            /\ sn_status s' = derived serial db'
            /\ (sn_status s' = S_COMPLETED -> sn_completed_at s' = Some now)
    end.
Proof.
  intros Hs Hop.
  destruct (target_record serial operation notes (process_records db))
    as [[i r0] rs1] eqn:Ht.
  unfold process_operation, atomic, process_operation_body, bind, read.
  rewrite Hs, Hop.
  destruct (get_or_create_target (E := validation_error) receivers now serial
              operation notes db)
    as (created & db1 & -> & Hrec & Hops & Hdef & Husers & Hlen & _).
  rewrite Ht in *. simpl in Hrec. simpl.
  rewrite (target_record_validate serial operation notes db db1 op)
    by (by rewrite ?Ht).
  destruct (_validate_operation_sequence serial op db); simpl; [|done].
  destruct (apply_action action now user q r0) as [r|e] eqn:Ha; simpl; [|done].
  rewrite !(apply_action_pre_save _ _ _ _ _ _ _ _ _ _ Ha).
  set (r' := if negb (notes =? "")%string then set_notes notes r else r).
  destruct delivered; simpl; [|done].
  unfold shared_serial, write, ret. simpl.
  set (db2 := post_save_record receivers now r' (save_record i r' db1)).
  set (s1 := if created then default s (serials db2 !! serial) else s).
  destruct (post_save_record_tables receivers now r' (save_record i r' db1))
    as (Hrec2 & Hops2 & Hdef2 & Husers2 & Hlen2 & _).
  fold db2 in Hrec2, Hops2, Hdef2, Husers2, Hlen2. simpl in *.
  assert (Hlt : serial < length (serials db2)).
  { rewrite Hlen2, Hlen. by eapply lookup_lt_Some. }
  eexists _, _. split; [reflexivity|].
  unfold _update_serial_status, derived, derive_status. simpl.
  rewrite Hrec2, Hops2, Hdef2, Husers2, Hrec, Hops, Hdef, Husers.
  rewrite list_lookup_insert_eq by done.
  split_and!; try done;
    repeat match goal with
           | |- context [if ?b then _ else _] => destruct b
           end; simpl; done.
Qed.

(** What a successful [process_operation] returns and leaves. *)
Lemma process_operation_ok receivers serial operation action now user notes q
    delivered db r' db' :
  process_operation receivers serial operation action now user notes q
    delivered db = (Ok r', db') ->
  exists s op i r0 rs1 r s',
    serials db !! serial = Some s /\ operations db !! operation = Some op
    /\ target_record serial operation notes (process_records db) = (i, r0, rs1)
    /\ _validate_operation_sequence serial op db = true
    /\ apply_action action now user q r0 = Ok r
    /\ r' = (if negb (notes =? "")%string then set_notes notes r else r)
    /\ delivered = true
    /\ process_records db' = <[i := r']> rs1
    /\ operations db' = operations db
    /\ defects db' = defects db /\ users db' = users db
    /\ serials db' !! serial = Some s'
    /\ sn_status s' = derived serial db'
    /\ (sn_status s' = S_COMPLETED -> sn_completed_at s' = Some now).
Proof.
  intros H.
  destruct (serials db !! serial) as [s|] eqn:Hs.
  2:{ rewrite process_operation_missing in H by auto. done. }
  destruct (operations db !! operation) as [op|] eqn:Hop.
  2:{ rewrite process_operation_missing in H by auto. done. }
  pose proof (process_operation_outcome receivers serial operation action now
                user notes q delivered db s op Hs Hop) as Hout.
  destruct (target_record serial operation notes (process_records db))
    as [[i r0] rs1] eqn:Ht.
  destruct (_validate_operation_sequence serial op db) eqn:Hv; simpl in Hout;
    [|congruence].
  destruct (apply_action action now user q r0) as [r|e] eqn:Ha; [|congruence].
  destruct delivered; simpl in Hout; [|congruence].
  destruct Hout as (db'' & s' & Heq & ? & ? & ? & ? & ? & ? & ?).
  rewrite Heq in H. injection H as <- <-.
  exists s, op, i, r0, rs1, r, s'. by split_and!.
Qed.

(** ** Failed transitions *)

(** C9 (amended).  When the sequence check fails for a start, approve or
    reject, or the status test the code makes for the action fails (start:
    the record is not [PENDING]; approve: it is neither [IN_PROGRESS] nor
    [PENDING]; reject: it is [APPROVED]), [process_operation] answers with
    one of its validation errors and the database is exactly the one it
    started from: no record created or modified (the record [get_or_create]
    had just created is rolled back), the serial number's status
    untouched. *)
Theorem failed_transition_leaves_state receivers serial operation action now user
    notes q delivered db s op :
  serials db !! serial = Some s ->
  operations db !! operation = Some op ->
  action = "start" \/ action = "approve" \/ action = "reject" ->
  _validate_operation_sequence serial op db = false
  \/ action_allowed action (current_status serial operation db) = false ->
  exists e,
    process_operation receivers serial operation action now user notes q
      delivered db = (Raise e, db)
    /\ (e = SequenceViolation \/ e = AlreadyStarted \/ e = CannotApprove
        \/ e = CannotRejectApproved).
Proof.
  intros Hs Hop Hact Hpre.
  pose proof (process_operation_outcome receivers serial operation action now
                user notes q delivered db s op Hs Hop) as Hout.
  destruct (target_record serial operation notes (process_records db))
    as [[i r0] rs1] eqn:Ht.
  destruct (_validate_operation_sequence serial op db) eqn:Hv; simpl in Hout.
  2:{ exists SequenceViolation. auto. }
  destruct Hpre as [?|Hpre]; [done|].
  apply target_record_status in Ht as (Hst & _).
  pose proof (apply_action_allowed action now user q r0) as Ha.
  destruct (apply_action action now user q r0) as [r|e].
  - rewrite Hst in Ha. congruence.
  - destruct Ha as [_ ->]. eexists. split; [done|].
    destruct Hact as [->| [->| ->]]; simpl; auto.
Qed.

(** On [bare_line_db] the second operation has no record yet: the body
    creates it before the sequence check fails, and the transaction takes
    it back. *)
Lemma failed_transition_leaves_state_witness :
  process_records
    (process_operation_body true 0 1 "start" 9 0 "" false true bare_line_db).2
    = [new_record 0 1]
  /\ exists e,
       process_operation true 0 1 "start" 9 0 "" false true bare_line_db
         = (Raise e, bare_line_db)
       /\ (e = SequenceViolation \/ e = AlreadyStarted \/ e = CannotApprove
           \/ e = CannotRejectApproved).
Proof.
  split; [reflexivity|].
  apply (failed_transition_leaves_state true 0 1 "start" 9 0 "" false true
           bare_line_db fresh_serial (active_operation 2)).
  - reflexivity.
  - reflexivity.
  - left. reflexivity.
  - left. vm_compute. reflexivity.
Defined.

(** C9 as stated fails, whether or not the receivers are connected: an
    approve of a record that is still [PENDING] does not meet the stated
    precondition of approve, yet [process_operation] succeeds and writes
    the record. *)
Lemma stated_precondition_counterexample :
  ~ (exists receivers,
      forall serial operation action now user notes q delivered db s op,
        serials db !! serial = Some s ->
        operations db !! operation = Some op ->
        action = "start" \/ action = "approve" \/ action = "reject" ->
        stated_precondition action (current_status serial operation db) = false ->
        exists e,
          process_operation receivers serial operation action now user notes q
            delivered db = (Raise e, db)).
Proof.
  intros [receivers H].
  destruct (H 0 0 "approve" 3 0 "" true true line_db fresh_serial
              (active_operation 1)) as [e He]; try reflexivity.
  - right. left. reflexivity.
  - destruct receivers; vm_compute in He; discriminate.
Qed.

(** ** Successful transitions *)

Lemma get_record_insert_same rs i r r' serial operation :
  get_record serial operation rs = Some (i, r) ->
  pr_serial r' = pr_serial r -> pr_operation r' = pr_operation r ->
  get_record serial operation (<[i := r']> rs) = Some (i, r').
Proof.
  unfold get_record. intros Hg Hs Ho.
  apply list_find_Some in Hg as (Hl & [? ?] & Hleast).
  apply list_find_insert_Some. right. left.
  split_and!; try done.
  - by eapply lookup_lt_Some.
  - congruence.
  - congruence.
Qed.

(** C8 (amended).  [approve] succeeds exactly when the sequence check
    passes, the record is [IN_PROGRESS] or [PENDING] (a record that does not
    exist yet counts as [PENDING]) and the notification goes out; the stored
    record is then [APPROVED] with its completion time, the user and the
    quality flag.  With the sequence check passed, an [APPROVED] or
    [REJECTED] record makes approve fail and change nothing. *)
Theorem approve_outcome receivers serial operation now user notes q delivered db
    s op :
  serials db !! serial = Some s ->
  operations db !! operation = Some op ->
  ((exists r' db',
      process_operation receivers serial operation "approve" now user notes q
        delivered db = (Ok r', db'))
   <-> (_validate_operation_sequence serial op db = true
        /\ (current_status serial operation db = IN_PROGRESS
            \/ current_status serial operation db = PENDING)
        /\ delivered = true))
  /\ (forall r' db',
        process_operation receivers serial operation "approve" now user notes q
          delivered db = (Ok r', db') ->
        status r' = APPROVED /\ completed_at r' = Some now
        /\ quality_check_passed r' = q /\ processed_by r' = Some user
        /\ exists i, get_record serial operation (process_records db')
                       = Some (i, r'))
  /\ (_validate_operation_sequence serial op db = true ->
      current_status serial operation db = APPROVED
      \/ current_status serial operation db = REJECTED ->
      process_operation receivers serial operation "approve" now user notes q
        delivered db = (Raise CannotApprove, db)).
Proof.
  intros Hs Hop.
  pose proof (process_operation_outcome receivers serial operation "approve"
                now user notes q delivered db s op Hs Hop) as Hout.
  destruct (target_record serial operation notes (process_records db))
    as [[i r0] rs1] eqn:Ht.
  pose proof (target_record_status _ _ _ _ _ _ _ Ht)
    as (Hst & Hks & Hko & Hi & Hg).
  split_and!.
  - rewrite <- Hst.
    destruct (_validate_operation_sequence serial op db); simpl in Hout.
    2:{ split; [intros (? & ? & ?); congruence|intros (? & _); done]. }
    unfold apply_action in Hout. simpl in Hout.
    destruct (status r0), delivered; simpl in Hout; split;
      try (intros (? & ? & ?); congruence);
      try (intros (_ & [?|?] & ?); done);
      intros _; destruct Hout as (db' & s' & Heq & _); eauto.
  - intros r' db' H.
    apply process_operation_ok in H
      as (s1 & op1 & i1 & r1 & rs & r & s' & _ & _ & Ht' & _ & Ha & -> & _
          & Hrec & _).
    rewrite Ht in Ht'. injection Ht' as <- <- <-.
    pose proof (apply_action_keys _ _ _ _ _ _ Ha) as (Hk1 & Hk2 & _).
    unfold apply_action in Ha. simpl in Ha.
    destruct (negb _) in Ha; [done|]. simplify_eq.
    split_and!; try by destruct (negb (notes =? "")%string).
    exists i. rewrite Hrec.
    apply (get_record_insert_same _ _ r0); [done|..];
      by destruct (negb (notes =? "")%string).
  - intros Hv Hcs. rewrite <- Hst in Hcs.
    rewrite Hv in Hout. simpl in Hout.
    unfold apply_action in Hout. simpl in Hout.
    destruct Hcs as [Hcs | Hcs]; rewrite Hcs in Hout; done.
Qed.

Lemma approve_outcome_witness :
  serials line_db !! 0 = Some fresh_serial
  /\ operations line_db !! 0 = Some (active_operation 1)
  /\ exists r' db',
       process_operation true 0 0 "approve" 9 0 "" true true line_db
       = (Ok r', db').
Proof.
  split; [reflexivity|]. split; [reflexivity|].
  apply (approve_outcome true 0 0 9 0 "" true true line_db fresh_serial
           (active_operation 1)).
  - reflexivity.
  - reflexivity.
  - split; [vm_compute; reflexivity|]. split; [|reflexivity].
    right. vm_compute. reflexivity.
Defined.

(** C8 as stated fails, whether or not the receivers are connected: a
    [PENDING] record is approved. *)
Lemma approve_pending_counterexample :
  ~ (exists receivers,
      forall serial operation now user notes q delivered db i r,
        get_record serial operation (process_records db) = Some (i, r) ->
        status r <> IN_PROGRESS ->
        exists e db',
          process_operation receivers serial operation "approve" now user notes
            q delivered db = (Raise e, db')).
Proof.
  intros [receivers H].
  destruct (H 0 0 9 0 "" true true line_db 0 (new_record 0 0))
    as (e & db' & Hr).
  - vm_compute. reflexivity.
  - discriminate.
  - destruct receivers; vm_compute in Hr; discriminate.
Qed.

(** ** The derived status *)

(** C1 (amended).  After every successful [process_operation] the stored
    status of the serial number is the derivation over the tables:
    [REJECTED] with a rejected record, else [COMPLETED] when the approved
    records are as many as the active operations, else [IN_PROCESS] with an
    approved record, else [CREATED]; a [COMPLETED] status comes with the
    completion time of the request. *)
Theorem service_status_derivation receivers serial operation action now user
    notes q delivered db r' db' :
  process_operation receivers serial operation action now user notes q
    delivered db = (Ok r', db') ->
  exists s',
    serials db' !! serial = Some s'
    /\ sn_status s' = derived serial db'
    /\ (sn_status s' = S_COMPLETED -> sn_completed_at s' = Some now).
Proof.
  intros H.
  apply process_operation_ok in H
    as (s & op & i & r0 & rs1 & r & s' & _ & _ & _ & _ & _ & _ & _ & _ & _ & _
        & _ & Hs' & Hst & Hc).
  by exists s'.
Qed.

Lemma service_status_derivation_witness :
  exists s',
    serials (process_operation true 0 0 "approve" 9 0 "" true true line_db).2
      !! 0 = Some s'
    /\ sn_status s'
       = derived 0
           (process_operation true 0 0 "approve" 9 0 "" true true line_db).2
    /\ (sn_status s' = S_COMPLETED -> sn_completed_at s' = Some 9).
Proof.
  destruct (process_operation true 0 0 "approve" 9 0 "" true true line_db)
    as [[r'|e] db'] eqn:H; [|vm_compute in H; discriminate].
  apply (service_status_derivation true 0 0 "approve" 9 0 "" true true line_db
           r' db').
  exact H.
Defined.

(** C1 as stated fails, whether or not the receivers are connected:
    assigning an operator moves the serial number to [IN_PROCESS] while the
    derivation still gives [CREATED]. *)
Lemma assignment_status_counterexample :
  ~ (exists receivers,
      forall now req db serial s,
        records_of serial (handle receivers now req db) <> records_of serial db ->
        serials (handle receivers now req db) !! serial = Some s ->
        sn_status s = derived serial (handle receivers now req db)).
Proof.
  intros [receivers H].
  specialize (H 7 (AssignOperation 0 0 None) line_db 0
                {| sn_status := S_IN_PROCESS; sn_completed_at := None |}).
  assert (S_IN_PROCESS = S_CREATED) as Habs; [|discriminate].
  destruct receivers; apply H; vm_compute; try reflexivity; discriminate.
Qed.

(** ** The sequence of operations *)

Lemma get_record_insert rs i r0 r' serial operation :
  rs !! i = Some r0 ->
  pr_serial r' = pr_serial r0 -> pr_operation r' = pr_operation r0 ->
  get_record serial operation (<[i := r']> rs) =
  match get_record serial operation rs with
  | Some (j, w) => Some (j, if decide (j = i) then r' else w)
  | None => None
  end.
Proof.
  unfold get_record. revert i.
  induction rs as [|x rs IH]; intros i Hi Hs Ho; [done|].
  destruct i as [|i]; simpl in *.
  - simplify_eq. rewrite Hs, Ho.
    destruct (decide (pr_serial r0 = serial /\ pr_operation r0 = operation));
      [done|].
    destruct (list_find _ rs) as [[j w]|]; done.
  - destruct (decide (pr_serial x = serial /\ pr_operation x = operation));
      [done|].
    rewrite (IH i) by done.
    destruct (list_find _ rs) as [[j w]|]; simpl; [|done].
    destruct (decide (j = i)); [by rewrite decide_True by lia|].
    by rewrite decide_False by lia.
Qed.

(** A successful [process_operation] keeps every approval. *)
Lemma process_operation_keeps_approved receivers serial operation action now
    user notes q delivered db r' db' :
  process_operation receivers serial operation action now user notes q
    delivered db = (Ok r', db') ->
  forall s o, approved_at db s o -> approved_at db' s o.
Proof.
  intros H s o (j & w & Hg & Hw).
  apply process_operation_ok in H
    as (sn & op & i & r0 & rs1 & r & s' & _ & _ & Ht & _ & Ha & Hr' & _
        & Hrec & _).
  pose proof (apply_action_not_approved _ _ _ _ _ _ Ha) as Hna.
  pose proof (apply_action_keys _ _ _ _ _ _ Ha) as (Hk1 & Hk2 & _).
  assert (Hkeys : pr_serial r' = pr_serial r0 /\ pr_operation r' = pr_operation r0).
  { subst r'. destruct (negb _); simpl; done. }
  destruct Hkeys as [Hks Hko].
  pose proof (target_record_status _ _ _ _ _ _ _ Ht) as (_ & _ & _ & Hi & _).
  assert (Hg1 : get_record s o rs1 = Some (j, w)).
  { unfold target_record in Ht.
    destruct (get_record serial operation (process_records db)) as [[? ?]|];
      simplify_eq; [done|].
    by apply list_find_app_l. }
  exists j, w. split; [|done]. rewrite Hrec.
  rewrite (get_record_insert _ _ r0) by done. rewrite Hg1.
  destruct (decide (j = i)) as [->|]; [|done].
  apply list_find_Some in Hg1 as (Hl & _). congruence.
Qed.

Lemma process_operation_step_invariant receivers serial operation action now
    user notes q delivered db :
  sequence_invariant db ->
  sequence_invariant
    (process_operation receivers serial operation action now user notes q
       delivered db).2.
Proof.
  intros Hinv.
  destruct (process_operation receivers serial operation action now user notes
              q delivered db) as [[r'|e] db'] eqn:H; simpl.
  2:{ by rewrite (process_operation_raise_unchanged _ _ _ _ _ _ _ _ _ _ _ _ H). }
  pose proof (process_operation_keeps_approved _ _ _ _ _ _ _ _ _ _ _ _ H)
    as Hkeep.
  apply process_operation_ok in H
    as (sn & op & i & r0 & rs1 & r & s' & _ & Hop & Ht & Hv & Ha & Hr' & _
        & Hrec & Hops & _).
  pose proof (apply_action_keys _ _ _ _ _ _ Ha) as (Hk1 & Hk2 & _).
  pose proof (target_record_status _ _ _ _ _ _ _ Ht) as (_ & Hs0 & Ho0 & Hi & _).
  apply validate_spec in Hv.
  intros k rk opk Hk Hst Hopk.
  rewrite Hrec in Hk. rewrite Hops in Hopk.
  assert (Hmono : forall serial' seq, sequence_ok serial' seq db ->
            sequence_ok serial' seq db').
  { intros serial' seq Hok p prev Hp Hact Hlt.
    rewrite Hops in Hp. apply Hkeep. by apply (Hok p prev). }
  apply Hmono.
  assert (pr_serial r' = serial /\ pr_operation r' = operation) as [Hps Hpo].
  { rewrite Hr'. destruct (negb _); simpl; split; congruence. }
  destruct (decide (k = i)) as [->|Hne].
  - rewrite list_lookup_insert_eq in Hk by by eapply lookup_lt_Some.
    injection Hk as <-. rewrite Hpo, Hop in Hopk. injection Hopk as <-.
    by rewrite Hps.
  - rewrite list_lookup_insert_ne in Hk by done.
    unfold target_record in Ht.
    destruct (get_record serial operation (process_records db)) as [[? ?]|];
      simplify_eq.
    + by apply (Hinv k rk opk).
    + apply lookup_app_Some in Hk as [Hk|[Hge Hk]].
      * by apply (Hinv k rk opk).
      * apply list_lookup_singleton_Some in Hk as [Hk _]. lia.
Qed.

(** C2 (amended).  In every state, a [process_operation] (start, approve
    or reject alike) succeeds only if every active operation at a lower
    position has an approved record for the serial number, and otherwise
    fails with the sequence error and changes nothing.  Consequently, in
    every state the service reaches from one where no record is approved
    ahead of an active operation at a lower position that is not, none
    is. *)
Theorem service_sequence_enforced receivers :
  (forall db serial operation action now user notes q delivered s op,
      serials db !! serial = Some s ->
      operations db !! operation = Some op ->
      (forall r' db',
          process_operation receivers serial operation action now user notes q
            delivered db = (Ok r', db') ->
          sequence_ok serial (sequence_number op) db)
      /\ (~ sequence_ok serial (sequence_number op) db ->
          process_operation receivers serial operation action now user notes q
            delivered db = (Raise SequenceViolation, db)))
  /\ (forall init db,
        sequence_invariant init ->
        reachable receivers service_request init db ->
        sequence_invariant db).
Proof.
  split.
  - intros db serial operation action now user notes q delivered s op Hs Hop.
    split.
    + intros r' db' H.
      apply process_operation_ok in H
        as (s1 & op' & i & r0 & rs1 & r & s' & _ & Hop' & _ & Hv & _).
      rewrite Hop in Hop'. injection Hop' as <-. by apply validate_spec.
    + intros Hno. apply validate_false_spec in Hno.
      pose proof (process_operation_outcome receivers serial operation action
                    now user notes q delivered db s op Hs Hop) as Hout.
      destruct (target_record serial operation notes (process_records db))
        as [[i r0] rs1].
      by rewrite Hno in Hout.
  - intros init db Hinit Hreach.
    induction Hreach as [|db now req Hreach IH Hreq]; [done|].
    destruct req; try done. simpl.
    by apply process_operation_step_invariant.
Qed.

(** On the examples: the start of the second operation of [line_db] fails
    with the sequence error and changes nothing; the approve of the second
    operation succeeds in [first_approved_db], where the first is approved;
    and in [two_approved_db], reached from [line_db], the approved record
    of the second operation has the first operation approved. *)
Lemma service_sequence_enforced_witness :
  process_operation true 0 1 "start" 9 0 "" false true line_db
    = (Raise SequenceViolation, line_db)
  /\ sequence_ok 0 2 (first_approved_db true)
  /\ sequence_invariant (two_approved_db true)
  /\ (exists r, process_records (two_approved_db true) !! 1 = Some r
                /\ status r = APPROVED).
Proof.
  destruct (service_sequence_enforced true) as [Henforced Hinvariant].
  split_and!.
  - apply (Henforced line_db 0 1 "start" 9 0 "" false true fresh_serial
             (active_operation 2)); [reflexivity..|].
    intros Hok.
    destruct (Hok 0 (active_operation 1)) as (j & w & Hg & Hw);
      [reflexivity|reflexivity|simpl; lia|].
    vm_compute in Hg. injection Hg as <- <-. discriminate.
  - eapply (Henforced (first_approved_db true) 0 1 "approve" 5 0 "" true true
              _ (active_operation 2)); [reflexivity..|].
    vm_compute. reflexivity.
  - apply (Hinvariant line_db (two_approved_db true)).
    + intros i r op Hi Hst.
      destruct i as [|[|[|i]]]; vm_compute in Hi; [..|discriminate];
        injection Hi as <-; discriminate.
    + apply reach_step; [|exact I]. apply reach_step; [|exact I].
      apply reach_init.
  - eexists. split; [vm_compute; reflexivity|reflexivity].
Defined.

End ServiceFacts.

(** * Properties of the request handlers *)

Module HandlerFacts.
Import Workflow ServiceFacts.

Lemma post_save_record_records receivers now r db :
  process_records (post_save_record receivers now r db) = process_records db.
Proof. apply post_save_record_tables. Qed.

Lemma post_save_record_defects receivers now r db :
  defects (post_save_record receivers now r db) = defects db.
Proof. apply post_save_record_tables. Qed.

Lemma pre_save_status receivers now i r db :
  status (pre_save receivers now i r db) = status r.
Proof. apply pre_save_fields. Qed.

Lemma pre_save_idle receivers now i r db :
  status r <> IN_PROGRESS -> status r <> APPROVED ->
  pre_save receivers now i r db = r.
Proof.
  intros H1 H2. unfold pre_save. destruct receivers; [|done].
  destruct (process_records db !! i) as [old|]; [|done].
  unfold update_process_timestamps.
  rewrite (bool_decide_eq_false_2 (status r = IN_PROGRESS)) by done.
  rewrite andb_false_r. simpl.
  rewrite (bool_decide_eq_false_2 (status r = APPROVED)) by done.
  by rewrite andb_false_r.
Qed.

Lemma get_record_snoc_new serial operation rs r :
  get_record serial operation rs = None ->
  pr_serial r = serial -> pr_operation r = operation ->
  get_record serial operation (rs ++ [r]) = Some (length rs, r).
Proof.
  intros Hg Hs Ho. unfold get_record in *.
  rewrite list_find_app_r by done. simpl.
  by rewrite decide_True.
Qed.

(** ** Rejection by an operator *)

(** C6 (amended).  An operator who holds a record in progress for an
    operation rejects a serial number there through
    [reject_serial_number]: whatever the state of the serial number's own
    record for that operation, the record ends [REJECTED] with its
    completion time and the reason, and an open [Defect] for the serial
    number is appended; the handler writes [DEFECTIVE] on the serial
    number, which is its status afterwards when no receiver recomputes it
    on the save of the record. *)
Theorem reject_serial_number_effect receivers now request_user process_record_id
    serial_number_id dtype reason db p s :
  role_in [OPERATOR; SUPERVISOR; ADMIN] (role_of request_user db) = true ->
  process_records db !! process_record_id = Some p ->
  holds request_user p ->
  serials db !! serial_number_id = Some s ->
  exists db' j w s',
    reject_serial_number receivers now request_user process_record_id
      serial_number_id dtype reason db = (Ok tt, db')
    /\ get_record serial_number_id (pr_operation p) (process_records db')
         = Some (j, w)
    /\ status w = REJECTED /\ completed_at w = Some now
    /\ rejection_reason w = reason
    /\ defects db'
         = (defects db ++
              [new_defect serial_number_id (pr_operation p) dtype reason
                 request_user])%list
    /\ serials db' !! serial_number_id = Some s'
    /\ (receivers = false -> sn_status s' = S_DEFECTIVE).
Proof.
  intros Hrole Hp Hholds Hs.
  assert (Hlt : serial_number_id < length (serials db))
    by by eapply lookup_lt_Some.
  unfold reject_serial_number, operator_required. rewrite Hrole.
  unfold atomic, bind, get_held_record_or_404, get_serial_or_404, write.
  rewrite Hp. rewrite bool_decide_eq_true_2 by done. rewrite Hs.
  rewrite get_or_create_eq. simpl.
  destruct (get_record serial_number_id (pr_operation p) (process_records db))
    as [[j w]|] eqn:Hg; simpl.
  - match goal with
    | |- context [post_save_record ?a ?b ?c ?d] =>
        pose proof (post_save_record_tables a b c d)
          as (Hrec & _ & Hdef & _ & Hlen & Hoff);
        set (db2 := post_save_record a b c d) in *
    end.
    simpl in *.
    destruct (lookup_lt_is_Some_2 (serials db2) serial_number_id)
      as [s' Hs']; [rewrite Hlen, length_insert; lia|].
    eexists db2, j, _, s'. split; [reflexivity|].
    rewrite Hrec, Hdef.
    match goal with
    | |- context [pre_save ?a ?b ?c ?d ?e] =>
        destruct (pre_save_fields a b c d e)
          as (Hk1 & Hk2 & Hst & _ & _ & _ & Hrr & Hca)
    end.
    simpl in Hk1, Hk2, Hst, Hrr, Hca.
    split_and!; try done.
    + pose proof Hg as Hg'.
      apply list_find_Some in Hg' as (_ & [? ?] & _).
      apply (get_record_insert_same _ _ w); [done|..]; congruence.
    + by rewrite Hca.
    + intros ->. rewrite Hoff in Hs' by done. simpl in Hs'.
      rewrite list_lookup_insert_eq in Hs' by done. by injection Hs' as <-.
  - match goal with
    | |- context [post_save_record ?a ?b ?c ?d] =>
        pose proof (post_save_record_tables a b c d)
          as (Hrec & _ & Hdef & _ & Hlen & Hoff);
        set (db2 := post_save_record a b c d) in *
    end.
    simpl in *.
    destruct (lookup_lt_is_Some_2 (serials db2) serial_number_id)
      as [s' Hs']; [rewrite Hlen, length_insert; lia|].
    eexists db2, _, _, s'. split; [reflexivity|].
    rewrite Hrec, Hdef.
    split; [by apply get_record_snoc_new|].
    split_and!; try done.
    intros ->. rewrite Hoff in Hs' by done. simpl in Hs'.
    rewrite list_lookup_insert_eq in Hs' by done. by injection Hs' as <-.
Qed.

Lemma reject_serial_number_effect_witness :
  exists db' j w s',
    reject_serial_number false 8 0 0 0 "VISUAL" "scratch" (assigned_db false)
      = (Ok tt, db')
    /\ get_record 0 (pr_operation held_record) (process_records db')
         = Some (j, w)
    /\ status w = REJECTED /\ completed_at w = Some 8
    /\ rejection_reason w = "scratch"
    /\ defects db'
         = (defects (assigned_db false) ++
              [new_defect 0 (pr_operation held_record) "VISUAL" "scratch" 0])%list
    /\ serials db' !! 0 = Some s'
    /\ (false = false -> sn_status s' = S_DEFECTIVE).
Proof.
  apply (reject_serial_number_effect false 8 0 0 0 "VISUAL" "scratch"
           (assigned_db false) held_record
           {| sn_status := S_IN_PROCESS; sn_completed_at := None |}).
  - reflexivity.
  - reflexivity.
  - split; reflexivity.
  - reflexivity.
Defined.

(** With the receivers connected the save of the rejected record
    recomputes the status, and [DEFECTIVE] is gone. *)
Example reject_serial_number_with_receivers :
  sn_status <$> serials (rejected_db true) !! 0 = Some S_CREATED
  /\ sn_status <$> serials (rejected_db false) !! 0 = Some S_DEFECTIVE.
Proof. split; vm_compute; reflexivity. Qed.

(** C6 as stated fails, whether or not the receivers are connected: the
    reject action of the service creates no defect and leaves the serial
    number [REJECTED], not [DEFECTIVE]. *)
Lemma service_reject_counterexample :
  ~ (exists receivers,
      forall serial operation now user notes q db i r r' db' s',
        get_record serial operation (process_records db) = Some (i, r) ->
        status r = IN_PROGRESS \/ status r = PENDING ->
        process_operation receivers serial operation "reject" now user notes q
          true db = (Ok r', db') ->
        serials db' !! serial = Some s' ->
        sn_status s' = S_DEFECTIVE
        /\ length (defects db') = S (length (defects db))).
Proof.
  intros [receivers H].
  destruct (process_operation receivers 0 0 "reject" 9 0 "why" false true
              line_db) as [[r'|e] db'] eqn:Hr;
    [|destruct receivers; vm_compute in Hr; discriminate].
  destruct (serials db' !! 0) as [s'|] eqn:Hs'.
  - destruct (H 0 0 9 0 "why" false line_db 0 (new_record 0 0) r' db' s')
      as [Hd _]; [reflexivity|by right|exact Hr|exact Hs'|].
    destruct receivers; vm_compute in Hr; injection Hr as <- <-;
      vm_compute in Hs'; injection Hs' as <-; discriminate Hd.
  - destruct receivers; vm_compute in Hr; injection Hr as <- <-;
      vm_compute in Hs'; discriminate Hs'.
Qed.

(** ** Return from repair *)

(** C7 (amended).  A repair-return gets or creates the serial number's
    record for the return operation: without such a record a new [PENDING]
    one is appended; with one, that record is put back to [PENDING] and
    unassigned, its other fields kept.  Every record of another operation,
    a [REJECTED] one included, is left as it was. *)
Theorem repair_return_effect receivers now request_user defect_id repair_notes
    operation db defect user_role op :
  defects db !! defect_id = Some defect ->
  role_of request_user db = Some user_role ->
  user_role ∈ [REPAIRER; ADMIN]
  \/ d_assigned_repairer defect = Some request_user ->
  operations db !! operation = Some op ->
  let db' := (resolve_defect receivers now request_user defect_id repair_notes
                (Some operation) db).2 in
  match get_record (d_serial defect) operation (process_records db) with
  | None =>
      process_records db'
      = (process_records db ++ [new_record (d_serial defect) operation])%list
  | Some (j, w) =>
      process_records db'
      = <[j := set_assigned_operator None (set_status PENDING w)]>
          (process_records db)
  end
  /\ (forall i r, process_records db !! i = Some r ->
        pr_operation r <> operation -> process_records db' !! i = Some r).
Proof.
  intros Hd Hrole Hperm Hop db'.
  assert (Hguard :
    negb (bool_decide (user_role ∈ [REPAIRER; ADMIN]))
    && negb (bool_decide (d_assigned_repairer defect = Some request_user))
    = false).
  { destruct Hperm as [?|?].
    - by rewrite bool_decide_eq_true_2.
    - rewrite (bool_decide_eq_true_2 (d_assigned_repairer defect = _)) by done.
      apply andb_false_r. }
  assert (Hrec :
    process_records db' =
    match get_record (d_serial defect) operation (process_records db) with
    | None => (process_records db ++ [new_record (d_serial defect) operation])%list
    | Some (j, w) =>
        <[j := set_assigned_operator None (set_status PENDING w)]>
          (process_records db)
    end).
  { subst db'. unfold resolve_defect, bind, read.
    rewrite Hd, Hrole, Hguard, Hop. rewrite get_or_create_eq.
    destruct (get_record (d_serial defect) operation (process_records db))
      as [[j w]|]; simpl.
    - rewrite (pre_save_idle receivers now j
                 (set_assigned_operator None (set_status PENDING w)) db)
        by done.
      destruct repair_notes; simpl; by rewrite post_save_record_records.
    - destruct repair_notes; simpl; by rewrite post_save_record_records. }
  split.
  - rewrite Hrec. by destruct (get_record _ _ _) as [[? ?]|].
  - intros i r Hi Hne. rewrite Hrec.
    destruct (get_record (d_serial defect) operation (process_records db))
      as [[j w]|] eqn:Hg.
    + apply list_find_Some in Hg as (Hj & [_ Ho] & _).
      rewrite list_lookup_insert_ne; [done|]. intros ->. congruence.
    + by apply lookup_app_l_Some.
Qed.

Lemma repair_return_effect_witness :
  let db' := (resolve_defect true 9 2 0 (Some "reworked") (Some 1)
                (rejected_db true)).2 in
  match get_record (d_serial (new_defect 0 0 "VISUAL" "scratch" 0)) 1
          (process_records (rejected_db true)) with
  | None =>
      process_records db'
      = (process_records (rejected_db true)
           ++ [new_record (d_serial (new_defect 0 0 "VISUAL" "scratch" 0)) 1])%list
  | Some (j, w) =>
      process_records db'
      = <[j := set_assigned_operator None (set_status PENDING w)]>
          (process_records (rejected_db true))
  end
  /\ (forall i r, process_records (rejected_db true) !! i = Some r ->
        pr_operation r <> 1 -> process_records db' !! i = Some r).
Proof.
  apply (repair_return_effect true 9 2 0 (Some "reworked") 1 (rejected_db true)
           (new_defect 0 0 "VISUAL" "scratch" 0) REPAIRER (active_operation 2)).
  - reflexivity.
  - reflexivity.
  - left. vm_compute. apply list_elem_of_here.
  - reflexivity.
Defined.

(** C7 as stated fails, whether or not the receivers are connected:
    returning to the operation of the rejected record puts that record
    back to [PENDING] and creates no record. *)
Lemma repair_return_counterexample :
  ~ (exists receivers,
      forall now request_user defect_id repair_notes operation db defect i r,
        defects db !! defect_id = Some defect ->
        process_records db !! i = Some r ->
        pr_serial r = d_serial defect -> status r = REJECTED ->
        (resolve_defect receivers now request_user defect_id repair_notes
           (Some operation) db).1 = Ok tt ->
        process_records
          (resolve_defect receivers now request_user defect_id repair_notes
             (Some operation) db).2 !! i = Some r
        /\ length (process_records
                     (resolve_defect receivers now request_user defect_id
                        repair_notes (Some operation) db).2)
           = S (length (process_records db))).
Proof.
  intros [receivers H].
  destruct (process_records (rejected_db receivers) !! 0) as [r|] eqn:Hr;
    [|destruct receivers; vm_compute in Hr; discriminate].
  destruct (H 9 2 0 (Some "reworked") 0 (rejected_db receivers)
              (new_defect 0 0 "VISUAL" "scratch" 0) 0 r) as [Hkeep _].
  - by destruct receivers.
  - exact Hr.
  - destruct receivers; vm_compute in Hr; injection Hr as <-; reflexivity.
  - destruct receivers; vm_compute in Hr; injection Hr as <-; reflexivity.
  - destruct receivers; vm_compute; reflexivity.
  - destruct receivers; vm_compute in Hr; injection Hr as <-;
      vm_compute in Hkeep; discriminate Hkeep.
Qed.

(** ** The sequence of operations and the handlers *)

(** C2 as stated fails, whether or not the receivers are connected:
    [complete_operation] approves the second operation of a serial number
    whose first operation is still pending. *)
Lemma complete_operation_counterexample :
  ~ (exists receivers,
      forall db, reachable receivers any_request line_db db ->
      forall i r op j w prev,
        process_records db !! i = Some r -> status r = APPROVED ->
        operations db !! pr_operation r = Some op ->
        process_records db !! j = Some w -> pr_serial w = pr_serial r ->
        operations db !! pr_operation w = Some prev ->
        is_active prev = true -> sequence_number prev < sequence_number op ->
        status w = APPROVED).
Proof.
  intros [receivers H].
  assert (Hreach : reachable receivers any_request line_db (skipped_db receivers)).
  { apply reach_step; [|exact I]. apply reach_step; [apply reach_init|exact I]. }
  destruct (process_records (skipped_db receivers) !! 1) as [r|] eqn:Hr;
    [|destruct receivers; vm_compute in Hr; discriminate].
  destruct (process_records (skipped_db receivers) !! 0) as [w|] eqn:Hw;
    [|destruct receivers; vm_compute in Hw; discriminate].
  assert (Habs : status w = APPROVED).
  { apply (H (skipped_db receivers) Hreach 1 r (active_operation 2) 0 w
             (active_operation 1));
      try exact Hr; try exact Hw;
      destruct receivers;
      vm_compute in Hr; injection Hr as <-;
      vm_compute in Hw; injection Hw as <-;
      try reflexivity; simpl; lia. }
  destruct receivers; vm_compute in Hw; injection Hw as <-; discriminate Habs.
Qed.

(** ** One record in progress per operator *)

Lemma benign_update_exclusive db db' :
  benign_update (process_records db) (process_records db') ->
  exclusive db -> exclusive db'.
Proof.
  unfold exclusive.
  intros [Heq|[(i & r_new & Heq & Hnew)|(r & Heq & Hr)]] Hex user a b ra rb;
    rewrite Heq.
  - apply Hex.
  - intros Ha Hb Hha Hhb.
    destruct (decide (a = i)) as [->|Hai], (decide (b = i)) as [->|Hbi];
      try done.
    + rewrite list_lookup_insert_ne in Hb by done.
      apply list_lookup_insert_Some in Ha as [(_ & <- & _)|[? _]]; [|done].
      by destruct (Hnew user Hha b rb Hb).
    + rewrite list_lookup_insert_ne in Ha by done.
      apply list_lookup_insert_Some in Hb as [(_ & <- & _)|[? _]]; [|done].
      by destruct (Hnew user Hhb a ra Ha).
    + rewrite list_lookup_insert_ne in Ha, Hb by done. by eapply Hex.
  - intros Ha Hb Hha Hhb.
    apply lookup_app_Some in Ha as [Ha|[_ Ha]];
      apply lookup_app_Some in Hb as [Hb|[_ Hb]].
    + by eapply Hex.
    + apply list_lookup_singleton_Some in Hb as [_ <-]. by destruct (Hr user).
    + apply list_lookup_singleton_Some in Ha as [_ <-]. by destruct (Hr user).
    + apply list_lookup_singleton_Some in Ha as [_ <-]. by destruct (Hr user).
Qed.

Lemma existing_assignment_None user rs :
  existing_assignment user rs = None ->
  forall j rj, rs !! j = Some rj -> ~ holds user rj.
Proof.
  unfold existing_assignment. intros H j rj Hj.
  apply list_find_None in H. by eapply Forall_lookup_1 in H.
Qed.

Lemma existing_assignment_excluding_None user i rs :
  existing_assignment_excluding user i rs = None ->
  forall j rj, rs !! j = Some rj -> j <> i -> ~ holds user rj.
Proof.
  unfold existing_assignment_excluding. intros H j rj Hj Hne Hh.
  assert (Hin : In (j, rj) (imap pair rs)).
  { apply list_elem_of_In. by apply (elem_of_lookup_imap_2 pair rs rj j). }
  pose proof (find_none _ _ H _ Hin) as Hf. simpl in Hf.
  rewrite bool_decide_eq_true_2 in Hf by done.
  apply Nat.eqb_neq in Hne. by rewrite Hne in Hf.
Qed.

Local Opaque post_save_record pre_save.

(** The table after a handler ran: either untouched, or one row saved,
    or one row created. *)
Ltac handler_cases :=
  unfold bind, read, get_record_or_404, get_held_record_or_404,
    get_serial_or_404, save_defect, save, shared_serial, raise, ret, write;
  simpl;
  let H := fresh in intros H;
  repeat (first [rewrite get_or_create_eq in * | case_match];
          simplify_eq/=);
  rewrite ?post_save_record_records; simpl;
  rewrite ?post_save_record_records; simpl;
  try (by left);
  first [ right; left; eexists _, _; split; [reflexivity|]
        | right; right; eexists; split; [reflexivity|] ].

Ltac not_held :=
  let H := fresh in
  intros ? H; try apply holds_pre_save in H; destruct H as [_ H];
  simpl in H; discriminate H.

Lemma assign_operation_benign receivers now request_user process_record_id
    target_user_id db :
  benign_update (process_records db)
    (process_records
       (assign_operation receivers now request_user process_record_id
          target_user_id db).2).
Proof.
  unfold assign_operation, operator_required.
  destruct (role_in _ (role_of request_user db)); [|by left].
  unfold atomic.
  destruct (bind read _ db) as [[[]|e] db'] eqn:Hm; [|by left].
  revert Hm. handler_cases.
  all: intros user Hh j rj Hj _; apply holds_pre_save in Hh;
    destruct Hh as [Hu _]; simpl in Hu; injection Hu as <-;
    by eapply existing_assignment_None.
Qed.

Lemma reassign_operation_benign receivers now request_user process_record_id
    new_operator_id db :
  benign_update (process_records db)
    (process_records
       (reassign_operation receivers now request_user process_record_id
          new_operator_id db).2).
Proof.
  unfold reassign_operation, supervisor_or_admin_required.
  destruct (role_in _ (role_of request_user db)); [|by left].
  unfold atomic.
  destruct (bind read _ db) as [[[]|e] db'] eqn:Hm; [|by left].
  revert Hm. handler_cases.
  - intros user Hh j rj Hj Hne; apply holds_pre_save in Hh;
      destruct Hh as [Hu _]; simpl in Hu; injection Hu as <-.
    by eapply existing_assignment_excluding_None.
  - not_held.
Qed.

Lemma release_operation_benign receivers now request_user process_record_id db :
  benign_update (process_records db)
    (process_records
       (release_operation receivers now request_user process_record_id db).2).
Proof.
  unfold release_operation, operator_required.
  destruct (role_in _ (role_of request_user db)); [|by left].
  unfold atomic.
  destruct (bind _ _ db) as [[[]|e] db'] eqn:Hm; [|by left].
  revert Hm. handler_cases. not_held.
Qed.

Lemma complete_operation_benign receivers now request_user process_record_id
    serial_number_id notes q db :
  benign_update (process_records db)
    (process_records
       (complete_operation receivers now request_user process_record_id
          serial_number_id notes q db).2).
Proof.
  unfold complete_operation, operator_required.
  destruct (role_in _ (role_of request_user db)); [|by left].
  unfold atomic.
  destruct (bind _ _ db) as [[[]|e] db'] eqn:Hm; [|by left].
  revert Hm. unfold complete_serial_status. handler_cases; not_held.
Qed.

Lemma reject_serial_number_benign receivers now request_user process_record_id
    serial_number_id dtype reason db :
  benign_update (process_records db)
    (process_records
       (reject_serial_number receivers now request_user process_record_id
          serial_number_id dtype reason db).2).
Proof.
  unfold reject_serial_number, operator_required.
  destruct (role_in _ (role_of request_user db)); [|by left].
  unfold atomic.
  destruct (bind _ _ db) as [[[]|e] db'] eqn:Hm; [|by left].
  revert Hm. handler_cases; not_held.
Qed.

Lemma resolve_defect_benign receivers now request_user defect_id repair_notes
    return_to_operation db :
  benign_update (process_records db)
    (process_records
       (resolve_defect receivers now request_user defect_id repair_notes
          return_to_operation db).2).
Proof.
  unfold resolve_defect.
  destruct (bind _ _ db) as [r db'] eqn:Hm.
  revert Hm. handler_cases; not_held.
Qed.

Local Transparent post_save_record pre_save.

Lemma handle_operator_benign receivers now req db :
  operator_request req ->
  benign_update (process_records db)
    (process_records (handle receivers now req db)).
Proof.
  destruct req; simpl; try done; intros _.
  - apply assign_operation_benign.
  - apply reassign_operation_benign.
  - apply complete_operation_benign.
  - apply reject_serial_number_benign.
  - apply release_operation_benign.
  - apply resolve_defect_benign.
Qed.

Lemma assign_operation_busy receivers now request_user process_record_id
    target_user_id db j rj :
  process_records db !! j = Some rj ->
  holds (assignment_target request_user target_user_id db) rj ->
  exists e,
    assign_operation receivers now request_user process_record_id
      target_user_id db = (Raise e, db).
Proof.
  intros Hj Hh.
  unfold assign_operation, operator_required.
  destruct (role_in _ (role_of request_user db)); [|eauto].
  unfold atomic.
  destruct (bind read _ db) as [[[]|e] db'] eqn:Hm; [|eauto].
  exfalso. revert Hm. unfold assignment_target in Hh.
  unfold bind, read, get_record_or_404, raise, ret, write. simpl. intros Hm.
  repeat (case_match; simplify_eq/=);
    match goal with
    | H : existing_assignment _ _ = None |- _ =>
        exact (existing_assignment_None _ _ H _ _ Hj Hh)
    end.
Qed.

(** C3 (amended).  In every state that the handlers of
    manufacturing/views_operator.py ([assign_operation],
    [reassign_operation], [release_operation], [complete_operation],
    [reject_serial_number]) and [resolve_defect] of defects/views.py reach
    from one where no actor is assigned two records in progress, no actor
    is; and there an [assign_operation] of manufacturing/views_operator.py
    whose target already holds a record in progress fails and changes
    nothing, with the busy answer when the requester may assign, the record
    exists and is unassigned, and the target is an operator, supervisor or
    administrator.  The start of [process_operation] and the handlers of
    other modules are no part of this. *)
Theorem operator_exclusive receivers init db :
  exclusive init ->
  reachable receivers operator_request init db ->
  exclusive db
  /\ forall now request_user process_record_id target_user_id j rj,
      process_records db !! j = Some rj ->
      holds (assignment_target request_user target_user_id db) rj ->
      (exists e,
          assign_operation receivers now request_user process_record_id
            target_user_id db = (Raise e, db))
      /\ (role_in [OPERATOR; SUPERVISOR; ADMIN] (role_of request_user db) = true ->
          (exists r, process_records db !! process_record_id = Some r
                     /\ assigned_operator r = None) ->
          role_in [OPERATOR; SUPERVISOR; ADMIN]
            (role_of (assignment_target request_user target_user_id db) db)
            = true ->
          assign_operation receivers now request_user process_record_id
            target_user_id db = (Raise ActorBusy, db)).
Proof.
  intros Hinit Hreach. split.
  - induction Hreach as [|db now req Hreach IH Hreq]; [done|].
    eapply benign_update_exclusive; [|exact IH].
    by apply handle_operator_benign.
  - intros now request_user process_record_id target_user_id j rj Hj Hh.
    split; [by eapply assign_operation_busy|].
    intros Hrole (r & Hr & Hnone) Htarget.
    assert (Hbusy : exists p,
      existing_assignment (assignment_target request_user target_user_id db)
        (process_records db) = Some p).
    { destruct (existing_assignment _ _) as [p|] eqn:He; [eauto|].
      by destruct (existing_assignment_None _ _ He j rj). }
    destruct Hbusy as [p Hbusy].
    unfold assign_operation, operator_required. rewrite Hrole.
    unfold atomic, bind, read, get_record_or_404. simpl. rewrite Hr.
    rewrite bool_decide_eq_true_2 by done. simpl.
    unfold assignment_target in Hbusy, Htarget.
    destruct target_user_id as [t|]; simpl.
    + destruct (role_in [SUPERVISOR; ADMIN] (role_of request_user db)); simpl.
      * destruct (users db !! t) as [o|] eqn:Ht.
        2:{ unfold role_of in Htarget. by rewrite Ht in Htarget. }
        rewrite Htarget. simpl. unfold ret. by rewrite Hbusy.
      * unfold ret. by rewrite Hbusy.
    + unfold ret. by rewrite Hbusy.
Qed.

Lemma operator_exclusive_witness :
  exclusive (assigned_db true)
  /\ forall now request_user process_record_id target_user_id j rj,
      process_records (assigned_db true) !! j = Some rj ->
      holds (assignment_target request_user target_user_id (assigned_db true))
        rj ->
      (exists e,
          assign_operation true now request_user process_record_id
            target_user_id (assigned_db true) = (Raise e, assigned_db true))
      /\ (role_in [OPERATOR; SUPERVISOR; ADMIN]
            (role_of request_user (assigned_db true)) = true ->
          (exists r, process_records (assigned_db true) !! process_record_id
                     = Some r
                     /\ assigned_operator r = None) ->
          role_in [OPERATOR; SUPERVISOR; ADMIN]
            (role_of (assignment_target request_user target_user_id
                        (assigned_db true)) (assigned_db true))
            = true ->
          assign_operation true now request_user process_record_id
            target_user_id (assigned_db true)
          = (Raise ActorBusy, assigned_db true)).
Proof.
  apply (operator_exclusive true line_db (assigned_db true)).
  - intros user i j ri rj Hi Hj [_ Hs] _.
    destruct i as [|[|[|i]]]; vm_compute in Hi; [..|discriminate];
      injection Hi as <-; discriminate.
  - apply reach_step; [apply reach_init|exact I].
Defined.

(** The busy answer on the example: operator 0 holds the first record and
    asks for the second. *)
Example assign_operation_busy_example :
  (assign_operation true 9 0 1 None (assigned_db true)).1 = Raise ActorBusy
  /\ (assign_operation false 9 0 1 None (assigned_db false)).1 = Raise ActorBusy.
Proof. split; vm_compute; reflexivity. Qed.

(** C3 as stated fails, whether or not the receivers are connected: a
    supervisor names one operator on two pending records and the service
    starts both; the operator is then assigned two records in progress. *)
Lemma double_start_counterexample :
  ~ (exists receivers,
      forall db, reachable receivers any_request two_serials_db db ->
                 exclusive db).
Proof.
  intros [receivers H].
  assert (Hreach :
    reachable receivers any_request two_serials_db (double_start_db receivers)).
  { repeat (apply reach_step; [|exact I]). apply reach_init. }
  specialize (H _ Hreach).
  destruct (process_records (double_start_db receivers) !! 0) as [r0|] eqn:H0;
    [|destruct receivers; vm_compute in H0; discriminate].
  destruct (process_records (double_start_db receivers) !! 1) as [r1|] eqn:H1;
    [|destruct receivers; vm_compute in H1; discriminate].
  assert (0 = 1) as Habs; [|discriminate].
  apply (H 0 0 1 r0 r1 H0 H1).
  - destruct receivers; vm_compute in H0; injection H0 as <-; split; reflexivity.
  - destruct receivers; vm_compute in H1; injection H1 as <-; split; reflexivity.
Qed.

End HandlerFacts.


Module SerialExtras.
Import Serials SerialFacts.

Lemma successive_allocations_valid_years_witness :
  let year_letter := chr (ord "K" + (2025 - 2025)) in
  let month_letter := chr (ord "A" + 1 - 1) in
  (forall a b, a < 999 -> b < 999 ->
     generate_serial_number true 2025 1 (store_after 2025 1 [] (999 * a + b))
     = Ok (serial_of year_letter month_letter (a + 1) (b + 1),
           (store_after 2025 1 [] (999 * a + b)
              ++ [serial_of year_letter month_letter (a + 1) (b + 1)])%list))
  /\ (forall a b a' b', a < 999 -> b < 999 -> a' < 999 -> b' < 999 ->
       999 * a + b < 999 * a' + b' ->
       String.ltb (serial_of year_letter month_letter (a + 1) (b + 1))
                  (serial_of year_letter month_letter (a' + 1) (b' + 1))
       = true)
  /\ (forall n, 999 * 999 <= n ->
       generate_serial_number true 2025 1 (store_after 2025 1 [] n)
       = Raise SerialLimitReached).
Proof.
  apply (successive_allocations_valid_years 2025 1 []).
  - lia.
  - lia.
  - intros x [].
Defined.

Lemma decode_generated_valid_years_witness :
  exists f k,
    "KA001-001M"
    = serial_of (chr (ord "K" + (2025 - 2025))) (chr (ord "A" + 1 - 1)) f k
    /\ decode_serial_info "KA001-001M"
       = Some {| year := 2025; month := 1;
                 first_sequence := f; second_sequence := k;
                 info_year_letter := chr (ord "K" + (2025 - 2025));
                 info_month_letter := chr (ord "A" + 1 - 1) |}.
Proof.
  apply (decode_generated_valid_years true 2025 1 [] "KA001-001M"
           ["KA001-001M"]).
  - lia.
  - vm_compute. reflexivity.
Defined.

End SerialExtras.


Module WorkflowExtras.
Import Workflow Models ServiceFacts HandlerFacts.

(** ** The receivers *)

Lemma post_save_record_serials_other receivers now r db j :
  j <> pr_serial r ->
  serials (post_save_record receivers now r db) !! j = serials db !! j.
Proof.
  intros Hne. unfold post_save_record. destruct receivers; [|done].
  destruct (serials db !! pr_serial r); [|done]. simpl.
  by rewrite list_lookup_insert_ne.
Qed.

Lemma post_save_record_serial receivers now r db s :
  serials db !! pr_serial r = Some s ->
  serials (post_save_record receivers now r db) !! pr_serial r
  = Some (if receivers then update_serial_status now (pr_serial r) s db else s).
Proof.
  intros Hs. unfold post_save_record. destruct receivers; [|done].
  rewrite Hs. simpl. rewrite list_lookup_insert_eq; [done|].
  by eapply lookup_lt_Some.
Qed.

Lemma update_serial_status_status now serial s db :
  sn_status (update_serial_status now serial s db) =
  (if count_status serial APPROVED (process_records db)
      =? total_operations (operations db) then S_COMPLETED
   else if 0 <? count_status serial APPROVED (process_records db)
   then S_IN_PROCESS else S_CREATED).
Proof.
  unfold update_serial_status.
  by repeat match goal with
            | |- context [if ?b then _ else _] => destruct b
            end.
Qed.

(** ** The service *)

(** X3.  An [APPROVED] record is final for the service: whatever the action,
    [process_operation] on it fails and leaves the database as it was. *)
Theorem approved_record_is_final receivers serial operation action now user
    notes q delivered db i r :
  get_record serial operation (process_records db) = Some (i, r) ->
  status r = APPROVED ->
  exists e,
    process_operation receivers serial operation action now user notes q
      delivered db = (Raise e, db).
Proof.
  intros Hg Hst.
  destruct (serials db !! serial) as [s|] eqn:Hs.
  2:{ eexists. apply process_operation_missing. auto. }
  destruct (operations db !! operation) as [op|] eqn:Hop.
  2:{ eexists. apply process_operation_missing. auto. }
  pose proof (process_operation_outcome receivers serial operation action now
                user notes q delivered db s op Hs Hop) as Hout.
  unfold target_record in Hout. rewrite Hg in Hout.
  destruct (_validate_operation_sequence serial op db); simpl in Hout; [|eauto].
  destruct (apply_action action now user q r) as [r'|e] eqn:Ha; [|eauto].
  by apply apply_action_not_approved in Ha.
Qed.

Lemma approved_record_is_final_witness :
  exists e,
    process_operation true 0 0 "reject" 9 0 "late" false true
      (first_approved_db true) = (Raise e, first_approved_db true).
Proof.
  destruct (get_record 0 0 (process_records (first_approved_db true)))
    as [[i r]|] eqn:Hg; [|vm_compute in Hg; discriminate].
  apply (approved_record_is_final true 0 0 "reject" 9 0 "late" false true
           (first_approved_db true) i r Hg).
  vm_compute in Hg. injection Hg as <- <-. reflexivity.
Defined.


Lemma process_operation_serials_other receivers serial operation action now user
    notes q delivered db j :
  j <> serial ->
  serials (process_operation receivers serial operation action now user notes q
             delivered db).2 !! j = serials db !! j.
Proof.
  intros Hne.
  unfold process_operation, atomic.
  destruct (process_operation_body _ _ _ _ _ _ _ _ _ db) as [[a|e] db'] eqn:Hb;
    [|done].
  simpl. revert Hb.
  unfold process_operation_body, bind, read, raise, ret, write, save,
    shared_serial.
  destruct (serials db !! serial) as [s|]; [|done].
  destruct (operations db !! operation) as [op|]; [|done].
  rewrite get_or_create_eq.
  destruct (get_record serial operation (process_records db)) as [[i r0]|] eqn:Hg.
  - destruct (negb _); [done|].
    destruct (apply_action action now user q r0) as [r|] eqn:Ha; [|done].
    destruct (negb delivered); [done|].
    intros H. injection H as _ <-.
    unfold _update_serial_status. simpl.
    rewrite list_lookup_insert_ne by done.
    rewrite post_save_record_serials_other; [done|].
    match goal with
    | |- _ <> pr_serial (pre_save ?a ?b ?c ?d ?e) =>
        destruct (pre_save_fields a b c d e) as (-> & _)
    end.
    apply apply_action_keys in Ha as (Hk & _).
    apply list_find_Some in Hg as (_ & [Hs _] & _).
    destruct (negb (notes =? "")%string); simpl; congruence.
  - destruct (negb _); [done|].
    destruct (apply_action action now user q _) as [r|] eqn:Ha; [|done].
    destruct (negb delivered); [done|].
    intros H. injection H as _ <-.
    unfold _update_serial_status. simpl.
    rewrite list_lookup_insert_ne by done.
    rewrite post_save_record_serials_other.
    2:{ match goal with
        | |- _ <> pr_serial (pre_save ?a ?b ?c ?d ?e) =>
            destruct (pre_save_fields a b c d e) as (-> & _)
        end.
        apply apply_action_keys in Ha as (Hk & _).
        destruct (negb (notes =? "")%string); simpl; rewrite Hk; simpl; done. }
    simpl. by rewrite post_save_record_serials_other.
Qed.

(** X4.  A successful [process_operation] writes one record and one serial
    number: the records of every other serial number or operation, the
    other serial numbers, the operations, the defects and the users are as
    before, and at most one record is added. *)
Theorem process_operation_frame receivers serial operation action now user
    notes q delivered db r' db' :
  process_operation receivers serial operation action now user notes q
    delivered db = (Ok r', db') ->
  (forall j rj, process_records db !! j = Some rj ->
     pr_serial rj <> serial \/ pr_operation rj <> operation ->
     process_records db' !! j = Some rj)
  /\ (forall j, j <> serial -> serials db' !! j = serials db !! j)
  /\ length (process_records db) <= length (process_records db')
     <= S (length (process_records db))
  /\ operations db' = operations db /\ defects db' = defects db
  /\ users db' = users db.
Proof.
  intros H.
  pose proof (process_operation_serials_other receivers serial operation action
                now user notes q delivered db) as Hser.
  rewrite H in Hser. simpl in Hser.
  apply process_operation_ok in H
    as (s & op & i & r0 & rs1 & r & s' & _ & _ & Ht & _ & _ & _ & _ & Hrec
        & Hops & Hdef & Husers & _).
  split_and!; try done.
  - intros j rj Hj Hkey. rewrite Hrec.
    pose proof (target_record_status _ _ _ _ _ _ _ Ht) as (_ & Hk1 & Hk2 & Hi & _).
    unfold target_record in Ht.
    destruct (get_record serial operation (process_records db))
      as [[i' w]|] eqn:Hg; simplify_eq.
    + rewrite list_lookup_insert_ne; [done|].
      intros ->. rewrite Hj in Hi. simplify_eq. destruct Hkey; done.
    + rewrite list_lookup_insert_ne.
      * by apply lookup_app_l_Some.
      * apply lookup_lt_Some in Hj. lia.
  - rewrite Hrec, length_insert. unfold target_record in Ht.
    destruct (get_record serial operation (process_records db)) as [[i' w]|];
      simplify_eq; [lia|]. rewrite length_app. simpl. lia.
  - rewrite Hrec, length_insert. unfold target_record in Ht.
    destruct (get_record serial operation (process_records db)) as [[i' w]|];
      simplify_eq; [lia|]. rewrite length_app. simpl. lia.
Qed.

Lemma process_operation_frame_witness :
  let db' := (process_operation true 0 0 "approve" 9 0 "" true true line_db).2 in
  (forall j rj, process_records line_db !! j = Some rj ->
     pr_serial rj <> 0 \/ pr_operation rj <> 0 ->
     process_records db' !! j = Some rj)
  /\ (forall j, j <> 0 -> serials db' !! j = serials line_db !! j)
  /\ length (process_records line_db) <= length (process_records db')
     <= S (length (process_records line_db))
  /\ operations db' = operations line_db /\ defects db' = defects line_db
  /\ users db' = users line_db.
Proof.
  destruct (process_operation true 0 0 "approve" 9 0 "" true true line_db)
    as [[r'|e] db'] eqn:H; [|vm_compute in H; discriminate].
  exact (process_operation_frame true 0 0 "approve" 9 0 "" true true line_db
           r' db' H).
Defined.


(** ** Rejection with the receivers connected *)

Local Opaque post_save_record pre_save.

(** X5.  With the [post_save] receiver connected, a successful
    [reject_serial_number] leaves the serial number with the status the
    receiver computes from its approved records when the rejected record is
    saved: [COMPLETED], [IN_PROCESS] or [CREATED], never the [DEFECTIVE]
    the handler wrote just before. *)
Theorem reject_serial_number_receivers now request_user process_record_id
    serial_number_id dtype reason db db' :
  reject_serial_number true now request_user process_record_id
    serial_number_id dtype reason db = (Ok tt, db') ->
  exists s',
    serials db' !! serial_number_id = Some s'
    /\ sn_status s' =
       (if count_status serial_number_id APPROVED (process_records db')
           =? total_operations (operations db') then S_COMPLETED
        else if 0 <? count_status serial_number_id APPROVED (process_records db')
        then S_IN_PROCESS else S_CREATED)
    /\ sn_status s' <> S_DEFECTIVE.
Proof.
  unfold reject_serial_number, operator_required.
  destruct (role_in _ _); [|done].
  unfold atomic, bind, get_held_record_or_404, get_serial_or_404, write, save,
    ret.
  destruct (process_records db !! process_record_id) as [p|]; [|done].
  destruct (bool_decide (holds request_user p)); [|done].
  destruct (serials db !! serial_number_id) as [s|] eqn:Hs; [|done].
  assert (Hlt : serial_number_id < length (serials db))
    by by eapply lookup_lt_Some.
  rewrite get_or_create_eq. simpl.
  destruct (get_record serial_number_id (pr_operation p) (process_records db))
    as [[j w]|] eqn:Hg; simpl; intros H; injection H as <-.
  - apply list_find_Some in Hg as (_ & [Hk _] & _).
    rewrite !(pre_save_idle true now j) by done.
    match goal with
    | |- context [post_save_record true ?b ?c ?d] =>
        pose proof (post_save_record_serial true b c d) as Hps;
        destruct (post_save_record_tables true b c d) as (Hrec & Hops & _)
    end.
    simpl in Hps. rewrite Hk in Hps.
    eexists. split.
    { apply Hps. by rewrite list_lookup_insert_eq. }
    rewrite update_serial_status_status, Hrec, Hops. simpl.
    split; [done|].
    by repeat match goal with
              | |- context [if ?b then _ else _] => destruct b
              end.
  - match goal with
    | |- context [post_save_record true ?b ?c ?d] =>
        pose proof (post_save_record_serial true b c d) as Hps;
        destruct (post_save_record_tables true b c d) as (Hrec & Hops & _)
    end.
    simpl in Hps.
    eexists. split.
    { apply Hps. by rewrite list_lookup_insert_eq. }
    rewrite update_serial_status_status, Hrec, Hops. simpl.
    split; [done|].
    by repeat match goal with
              | |- context [if ?b then _ else _] => destruct b
              end.
Qed.

Local Transparent post_save_record pre_save.

Lemma reject_serial_number_receivers_witness :
  exists s',
    serials (rejected_db true) !! 0 = Some s'
    /\ sn_status s' =
       (if count_status 0 APPROVED (process_records (rejected_db true))
           =? total_operations (operations (rejected_db true)) then S_COMPLETED
        else if 0 <? count_status 0 APPROVED (process_records (rejected_db true))
        then S_IN_PROCESS else S_CREATED)
    /\ sn_status s' <> S_DEFECTIVE.
Proof.
  apply (reject_serial_number_receivers 8 0 0 0 "VISUAL" "scratch"
           (assigned_db true) (rejected_db true)).
  vm_compute. reflexivity.
Defined.


(** ** Assignment *)

Lemma pre_save_started receivers now i r db :
  started_at r <> None -> status r <> APPROVED ->
  pre_save receivers now i r db = r.
Proof.
  intros H1 H2. unfold pre_save. destruct receivers; [|done].
  destruct (process_records db !! i) as [old|]; [|done].
  unfold update_process_timestamps.
  rewrite (bool_decide_eq_false_2 (started_at r = None)) by done.
  rewrite andb_false_r. simpl.
  rewrite (bool_decide_eq_false_2 (status r = APPROVED)) by done.
  by rewrite andb_false_r.
Qed.

Lemma existing_assignment_free user rs :
  (forall j rj, rs !! j = Some rj -> ~ holds user rj) ->
  existing_assignment user rs = None.
Proof.
  intros H. unfold existing_assignment. apply list_find_None.
  apply Forall_lookup_2. intros j rj Hj. by apply (H j).
Qed.

Local Opaque post_save_record pre_save.

(** X6.  [assign_operation] looks at the assignee of the record, not at its
    status: an unassigned record, whatever its status, goes to
    [IN_PROGRESS] for a target who holds no record in progress, with the
    start and assignment times of the request; the serial number of the
    record is not [CREATED] afterwards. *)
Theorem assign_operation_effect receivers now request_user process_record_id
    target_user_id db r s :
  role_in [OPERATOR; SUPERVISOR; ADMIN] (role_of request_user db) = true ->
  process_records db !! process_record_id = Some r ->
  assigned_operator r = None ->
  role_in [OPERATOR; SUPERVISOR; ADMIN]
    (role_of (assignment_target request_user target_user_id db) db) = true ->
  (forall j rj, process_records db !! j = Some rj ->
     ~ holds (assignment_target request_user target_user_id db) rj) ->
  serials db !! pr_serial r = Some s ->
  exists db' s',
    assign_operation receivers now request_user process_record_id
      target_user_id db = (Ok tt, db')
    /\ process_records db'
       = <[process_record_id :=
             set_assigned_at (Some now)
               (set_started_at (Some now)
                  (set_status IN_PROGRESS
                     (set_assigned_operator
                        (Some (assignment_target request_user target_user_id db))
                        r)))]> (process_records db)
    /\ serials db' !! pr_serial r = Some s'
    /\ sn_status s' <> S_CREATED
    /\ (receivers = false -> sn_status s <> S_CREATED -> s' = s)
    /\ (forall j, j <> pr_serial r -> serials db' !! j = serials db !! j)
    /\ defects db' = defects db.
Proof.
  intros Hrole Hr Hnone Htarget Hfree Hs.
  apply existing_assignment_free in Hfree.
  assert (Hlt : pr_serial r < length (serials db)) by by eapply lookup_lt_Some.
  unfold assign_operation, operator_required. rewrite Hrole.
  unfold atomic, bind, read, get_record_or_404, save. simpl. rewrite Hr.
  rewrite bool_decide_eq_true_2 by done. simpl.
  set (target := assignment_target request_user target_user_id db) in *.
  assert (Htgt :
    (match target_user_id with
     | Some t =>
         if role_in [SUPERVISOR; ADMIN] (role_of request_user db) then
           match users db !! t with
           | None => raise Http404
           | Some profile =>
               if negb (role_in [OPERATOR; SUPERVISOR; ADMIN] (role_of t db))
               then raise InvalidOperator else ret t
           end
         else ret request_user
     | None => ret request_user
     end) db = (@Ok view_error nat target, db)).
  { subst target. unfold assignment_target in *.
    destruct target_user_id as [t|]; [|done].
    destruct (role_in [SUPERVISOR; ADMIN] (role_of request_user db)); [|done].
    destruct (users db !! t) as [o|] eqn:Ht.
    2:{ unfold role_of in Htarget. by rewrite Ht in Htarget. }
    by rewrite Htarget. }
  rewrite Htgt. rewrite Hfree. rewrite Hr.
  rewrite bool_decide_eq_true_2 by done. simpl.
  rewrite !pre_save_started by done.
  set (r' := set_assigned_at (Some now) _).
  destruct (post_save_record_tables receivers now r'
              (save_record process_record_id r' db))
    as (Hrec & _ & Hdef & _ & _ & Hoff).
  pose proof (post_save_record_serial receivers now r'
                (save_record process_record_id r' db) s Hs) as Hps.
  pose proof (post_save_record_serials_other receivers now r'
                (save_record process_record_id r' db)) as Hother.
  set (db1 := post_save_record receivers now r'
                (save_record process_record_id r' db)) in *.
  change (pr_serial r') with (pr_serial r) in *.
  rewrite Hps.
  set (s1 := if receivers then _ else s) in *.
  unfold write, ret.
  destruct (bool_decide (sn_status s1 = S_CREATED)) eqn:Hc.
  - eexists _, {| sn_status := S_IN_PROCESS;
                  sn_completed_at := sn_completed_at s1 |}.
    split; [reflexivity|]. simpl.
    split_and!; try done.
    + rewrite list_lookup_insert_eq; [done|].
      apply lookup_lt_Some in Hps. done.
    + intros -> Hne. apply bool_decide_eq_true in Hc. done.
    + intros j Hj. rewrite list_lookup_insert_ne by done.
      rewrite Hother by done. reflexivity.
  - apply bool_decide_eq_false in Hc.
    exists db1, s1. split; [reflexivity|].
    split_and!; try done. by intros ->.
Qed.


Lemma assign_operation_effect_witness :
  exists db' s',
    assign_operation true 7 0 1 None line_db = (Ok tt, db')
    /\ process_records db'
       = <[1 :=
             set_assigned_at (Some 7)
               (set_started_at (Some 7)
                  (set_status IN_PROGRESS
                     (set_assigned_operator
                        (Some (assignment_target 0 None line_db))
                        (new_record 0 1))))]> (process_records line_db)
    /\ serials db' !! pr_serial (new_record 0 1) = Some s'
    /\ sn_status s' <> S_CREATED
    /\ (true = false -> sn_status fresh_serial <> S_CREATED -> s' = fresh_serial)
    /\ (forall j, j <> pr_serial (new_record 0 1) ->
          serials db' !! j = serials line_db !! j)
    /\ defects db' = defects line_db.
Proof.
  apply (assign_operation_effect true 7 0 1 None line_db (new_record 0 1)
           fresh_serial).
  - reflexivity.
  - reflexivity.
  - reflexivity.
  - reflexivity.
  - intros j rj Hj [Ha _].
    destruct j as [|[|[|j]]]; vm_compute in Hj; [..|discriminate];
      injection Hj as <-; discriminate.
  - reflexivity.
Defined.

(** ** Release *)

(** X7.  An operator who releases the record they hold leaves it [PENDING],
    unassigned and without start or assignment time; if they held no other
    record in progress they hold none afterwards, and [assign_operation]
    then gives them any unassigned record, the released one included. *)
Theorem release_then_assign receivers now user process_record_id db r :
  role_in [OPERATOR; SUPERVISOR; ADMIN] (role_of user db) = true ->
  process_records db !! process_record_id = Some r ->
  holds user r ->
  exclusive db ->
  exists db1,
    release_operation receivers now user process_record_id db = (Ok tt, db1)
    /\ process_records db1
       = <[process_record_id := released r]> (process_records db)
    /\ (forall j rj, process_records db1 !! j = Some rj -> ~ holds user rj)
    /\ (forall now' k rk sk,
          process_records db1 !! k = Some rk ->
          assigned_operator rk = None ->
          serials db1 !! pr_serial rk = Some sk ->
          exists db2 r2,
            assign_operation receivers now' user k None db1 = (Ok tt, db2)
            /\ process_records db2 !! k = Some r2 /\ holds user r2).
Proof.
  intros Hrole Hr Hh Hex.
  unfold release_operation, operator_required. rewrite Hrole.
  unfold atomic, bind, get_held_record_or_404, save, ret. rewrite Hr.
  rewrite bool_decide_eq_true_2 by done.
  rewrite !(pre_save_idle receivers now process_record_id (released r)) by done.
  destruct (post_save_record_tables receivers now (released r)
              (save_record process_record_id (released r) db))
    as (Hrec & _ & _ & Husers & _).
  set (db1 := post_save_record receivers now (released r)
                (save_record process_record_id (released r) db)) in *.
  simpl in Hrec, Husers.
  assert (Hfree : forall j rj, process_records db1 !! j = Some rj ->
                               ~ holds user rj).
  { intros j rj Hj Hhj. rewrite Hrec in Hj.
    destruct (decide (j = process_record_id)) as [->|Hne].
    - rewrite list_lookup_insert_eq in Hj by by eapply lookup_lt_Some.
      injection Hj as <-. by destruct Hhj.
    - rewrite list_lookup_insert_ne in Hj by done.
      apply Hne. by apply (Hex user j process_record_id rj r). }
  exists db1. split_and!; try done.
  intros now' k rk sk Hk Hnone Hsk.
  assert (Hrole1 : role_in [OPERATOR; SUPERVISOR; ADMIN] (role_of user db1)
                   = true).
  { unfold role_of. rewrite Husers. exact Hrole. }
  destruct (assign_operation_effect receivers now' user k None db1 rk sk
              Hrole1 Hk Hnone Hrole1 Hfree Hsk)
    as (db2 & s' & Ha & Hrec2 & _).
  eexists db2, _. split; [exact Ha|]. rewrite Hrec2.
  split.
  - apply list_lookup_insert_eq. by eapply lookup_lt_Some.
  - done.
Qed.

Lemma release_then_assign_witness :
  exists db1,
    release_operation true 8 0 0 (assigned_db true) = (Ok tt, db1)
    /\ process_records db1
       = <[0 := released held_record]> (process_records (assigned_db true))
    /\ (forall j rj, process_records db1 !! j = Some rj -> ~ holds 0 rj)
    /\ (forall now' k rk sk,
          process_records db1 !! k = Some rk ->
          assigned_operator rk = None ->
          serials db1 !! pr_serial rk = Some sk ->
          exists db2 r2,
            assign_operation true now' 0 k None db1 = (Ok tt, db2)
            /\ process_records db2 !! k = Some r2 /\ holds 0 r2).
Proof.
  apply (release_then_assign true 8 0 0 (assigned_db true) held_record).
  - reflexivity.
  - reflexivity.
  - split; reflexivity.
  - intros user i j ri rj Hi Hj [_ Hsi] [_ Hsj].
    destruct i as [|[|[|i]]]; vm_compute in Hi; [..|discriminate];
      injection Hi as <-; try discriminate.
    destruct j as [|[|[|j]]]; vm_compute in Hj; [..|discriminate];
      injection Hj as <-; try discriminate.
    reflexivity.
Defined.

(** ** Completion *)

Local Transparent post_save_record pre_save.

Lemma pre_save_completed receivers now i r db :
  completed_at r <> None -> status r <> IN_PROGRESS ->
  pre_save receivers now i r db = r.
Proof.
  intros H1 H2. unfold pre_save. destruct receivers; [|done].
  destruct (process_records db !! i) as [old|]; [|done].
  unfold update_process_timestamps.
  rewrite (bool_decide_eq_false_2 (status r = IN_PROGRESS)) by done.
  rewrite andb_false_r. simpl.
  rewrite (bool_decide_eq_false_2 (completed_at r = None)) by done.
  by rewrite andb_false_r.
Qed.


Lemma complete_serial_status_eq now serial_number_id s db :
  complete_serial_status now serial_number_id s db =
  save_serial serial_number_id
    (if total_operations (operations db)
        <=? count_status serial_number_id APPROVED (process_records db)
     then {| sn_status := S_COMPLETED; sn_completed_at := Some now |}
     else {| sn_status := S_IN_PROCESS; sn_completed_at := sn_completed_at s |})
    db.
Proof. unfold complete_serial_status. by destruct (_ <=? _). Qed.

Local Opaque post_save_record pre_save.

(** X8.  [complete_operation] approves the record of the chosen serial
    number for the operation of the record the operator holds, creating it
    when missing, whatever its status and with no sequence check; the
    serial number ends [COMPLETED] when its approved records are at least
    as many as the active operations, [IN_PROCESS] otherwise.  When the
    serial number is the one of the held record, it is the held record
    that is approved. *)
Theorem complete_operation_effect receivers now request_user process_record_id
    serial_number_id notes' q db p s :
  role_in [OPERATOR; SUPERVISOR; ADMIN] (role_of request_user db) = true ->
  process_records db !! process_record_id = Some p ->
  holds request_user p ->
  serials db !! serial_number_id = Some s ->
  exists db' j w s',
    complete_operation receivers now request_user process_record_id
      serial_number_id notes' q db = (Ok tt, db')
    /\ get_record serial_number_id (pr_operation p) (process_records db')
       = Some (j, w)
    /\ status w = APPROVED /\ completed_at w = Some now
    /\ processed_by w = Some request_user
    /\ notes w = notes' /\ quality_check_passed w = q
    /\ serials db' !! serial_number_id = Some s'
    /\ sn_status s' =
       (if total_operations (operations db')
           <=? count_status serial_number_id APPROVED (process_records db')
        then S_COMPLETED else S_IN_PROCESS)
    /\ (unique_records (process_records db) ->
        pr_serial p = serial_number_id -> j = process_record_id).
Proof.
  intros Hrole Hp Hholds Hs.
  assert (Hlt : serial_number_id < length (serials db))
    by by eapply lookup_lt_Some.
  unfold complete_operation, operator_required. rewrite Hrole.
  unfold atomic, bind, get_held_record_or_404, get_serial_or_404, write, save,
    shared_serial, ret.
  rewrite Hp. rewrite bool_decide_eq_true_2 by done. rewrite Hs.
  rewrite get_or_create_eq.
  destruct (get_record serial_number_id (pr_operation p) (process_records db))
    as [[j w]|] eqn:Hg; simpl.
  - rewrite !(pre_save_completed receivers now j) by done.
    set (w' := set_quality_check_passed q _).
    destruct (post_save_record_tables receivers now w' (save_record j w' db))
      as (Hrec & Hops & _ & _ & Hlen & _).
    set (db2 := post_save_record receivers now w' (save_record j w' db)) in *.
    simpl in Hrec, Hops, Hlen.
    pose proof Hg as Hg'.
    apply list_find_Some in Hg' as (Hj & [Hk1 Hk2] & Hleast).
    rewrite complete_serial_status_eq, Hrec, Hops.
    eexists _, j, w', _. split; [reflexivity|]. simpl.
    split_and!; try done.
    + rewrite Hrec. by apply (get_record_insert_same _ _ w).
    + rewrite list_lookup_insert_eq; [reflexivity|by rewrite Hlen].
    + rewrite Hrec, Hops. by destruct (_ <=? _).
    + intros Huniq Hser.
      apply (Huniq j process_record_id w p); try done; congruence.
  - set (w' := set_quality_check_passed q _).
    match goal with
    | |- context [post_save_record ?a ?b ?c ?d] =>
        destruct (post_save_record_tables a b c d)
          as (Hrec & Hops & _ & _ & Hlen & _);
        set (db2 := post_save_record a b c d) in *
    end.
    simpl in Hrec, Hops, Hlen.
    rewrite complete_serial_status_eq, Hrec, Hops.
    eexists _, (length (process_records db)), w', _. split; [reflexivity|].
    simpl.
    split_and!; try done.
    + rewrite Hrec. by apply get_record_snoc_new.
    + rewrite list_lookup_insert_eq; [reflexivity|by rewrite Hlen].
    + rewrite Hrec, Hops. by destruct (_ <=? _).
    + intros Huniq Hser. exfalso.
      unfold get_record in Hg. apply list_find_None in Hg.
      eapply Forall_lookup_1 in Hg; [|exact Hp]. by apply Hg.
Qed.

Local Transparent post_save_record pre_save.

Lemma complete_operation_effect_witness :
  exists db' j w s',
    complete_operation true 8 0 0 0 "ok" true (assigned_db true) = (Ok tt, db')
    /\ get_record 0 (pr_operation held_record) (process_records db')
       = Some (j, w)
    /\ status w = APPROVED /\ completed_at w = Some 8
    /\ processed_by w = Some 0
    /\ notes w = "ok" /\ quality_check_passed w = true
    /\ serials db' !! 0 = Some s'
    /\ sn_status s' =
       (if total_operations (operations db')
           <=? count_status 0 APPROVED (process_records db')
        then S_COMPLETED else S_IN_PROCESS)
    /\ (unique_records (process_records (assigned_db true)) ->
        pr_serial held_record = 0 -> j = 0).
Proof.
  apply (complete_operation_effect true 8 0 0 0 "ok" true (assigned_db true)
           held_record
           {| sn_status := S_IN_PROCESS; sn_completed_at := None |}).
  - reflexivity.
  - reflexivity.
  - split; reflexivity.
  - reflexivity.
Defined.

(** ** Resolution of a defect *)

(** X9.  [resolve_defect] without a return operation scraps: the serial
    number of the defect becomes [SCRAPPED], the defect becomes [SCRAPPED]
    with the repair notes, the resolver and the resolution time, and no
    process record is touched. *)
Theorem resolve_defect_scrap receivers now request_user defect_id repair_notes
    db defect user_role s :
  defects db !! defect_id = Some defect ->
  role_of request_user db = Some user_role ->
  user_role ∈ [REPAIRER; ADMIN]
  \/ d_assigned_repairer defect = Some request_user ->
  serials db !! d_serial defect = Some s ->
  resolve_defect receivers now request_user defect_id (Some repair_notes) None db
  = (Ok tt,
     {| operations := operations db;
        serials := <[d_serial defect :=
                       {| sn_status := S_SCRAPPED;
                          sn_completed_at := sn_completed_at s |}]> (serials db);
        process_records := process_records db;
        defects := <[defect_id :=
                       with_defect_status D_SCRAPPED
                         (with_resolution now request_user repair_notes defect)]>
                     (defects db);
        users := users db |}).
Proof.
  intros Hd Hrole Hperm Hs.
  assert (Hguard :
    negb (bool_decide (user_role ∈ [REPAIRER; ADMIN]))
    && negb (bool_decide (d_assigned_repairer defect = Some request_user))
    = false).
  { destruct Hperm as [?|?].
    - by rewrite bool_decide_eq_true_2.
    - rewrite (bool_decide_eq_true_2 (d_assigned_repairer defect = _)) by done.
      apply andb_false_r. }
  unfold resolve_defect, bind, read.
  rewrite Hd, Hrole, Hguard, Hs. reflexivity.
Qed.

Lemma resolve_defect_scrap_witness :
  resolve_defect true 9 2 0 (Some "beyond repair") None (rejected_db true)
  = (Ok tt,
     {| operations := operations (rejected_db true);
        serials := <[d_serial (new_defect 0 0 "VISUAL" "scratch" 0) :=
                       {| sn_status := S_SCRAPPED;
                          sn_completed_at := sn_completed_at fresh_serial |}]>
                     (serials (rejected_db true));
        process_records := process_records (rejected_db true);
        defects := <[0 :=
                       with_defect_status D_SCRAPPED
                         (with_resolution 9 2 "beyond repair"
                            (new_defect 0 0 "VISUAL" "scratch" 0))]>
                     (defects (rejected_db true));
        users := users (rejected_db true) |}).
Proof.
  apply (resolve_defect_scrap true 9 2 0 "beyond repair" (rejected_db true)
           (new_defect 0 0 "VISUAL" "scratch" 0) REPAIRER fresh_serial).
  - reflexivity.
  - reflexivity.
  - left. vm_compute. apply list_elem_of_here.
  - reflexivity.
Defined.

(** X10.  [resolve_defect] runs outside any transaction: a request that
    names a return operation and carries no repair notes fails on the save
    of the defect, which stays as it was, after the process record for the
    return operation has been created or put back to [PENDING] and
    unassigned; that write stays. *)
Theorem resolve_defect_partial_write receivers now request_user defect_id
    operation db defect user_role op :
  defects db !! defect_id = Some defect ->
  role_of request_user db = Some user_role ->
  user_role ∈ [REPAIRER; ADMIN]
  \/ d_assigned_repairer defect = Some request_user ->
  operations db !! operation = Some op ->
  exists db',
    resolve_defect receivers now request_user defect_id None (Some operation) db
    = (Raise NotNullViolation, db')
    /\ defects db' = defects db
    /\ process_records db'
       = match get_record (d_serial defect) operation (process_records db) with
         | None =>
             (process_records db
                ++ [new_record (d_serial defect) operation])%list
         | Some (j, w) =>
             <[j := set_assigned_operator None (set_status PENDING w)]>
               (process_records db)
         end
    /\ match get_record (d_serial defect) operation (process_records db) with
       | None => db' <> db
       | Some (j, w) =>
           status w <> PENDING \/ assigned_operator w <> None -> db' <> db
       end.
Proof.
  intros Hd Hrole Hperm Hop.
  assert (Hguard :
    negb (bool_decide (user_role ∈ [REPAIRER; ADMIN]))
    && negb (bool_decide (d_assigned_repairer defect = Some request_user))
    = false).
  { destruct Hperm as [?|?].
    - by rewrite bool_decide_eq_true_2.
    - rewrite (bool_decide_eq_true_2 (d_assigned_repairer defect = _)) by done.
      apply andb_false_r. }
  unfold resolve_defect, bind, read.
  rewrite Hd, Hrole, Hguard, Hop. rewrite get_or_create_eq.
  destruct (get_record (d_serial defect) operation (process_records db))
    as [[j w]|] eqn:Hg; simpl.
  - rewrite !(pre_save_idle receivers now j
               (set_assigned_operator None (set_status PENDING w)) db) by done.
    eexists. split; [reflexivity|].
    rewrite post_save_record_records, post_save_record_defects.
    split_and!; try done.
    intros Hw Heq.
    apply (f_equal (fun d => process_records d !! j)) in Heq.
    rewrite post_save_record_records in Heq. simpl in Heq.
    apply list_find_Some in Hg as (Hj & _).
    rewrite list_lookup_insert_eq in Heq by by eapply lookup_lt_Some.
    rewrite Hj in Heq. injection Heq as Heq.
    destruct Hw as [Hw|Hw]; apply Hw; by rewrite <- Heq.
  - eexists. split; [reflexivity|].
    rewrite post_save_record_records, post_save_record_defects.
    split_and!; try done.
    intros Heq. apply (f_equal (fun d => length (process_records d))) in Heq.
    rewrite post_save_record_records in Heq. simpl in Heq.
    rewrite length_app in Heq. simpl in Heq. lia.
Qed.

Lemma resolve_defect_partial_write_witness :
  exists db',
    resolve_defect true 9 2 0 None (Some 0) (rejected_db true)
    = (Raise NotNullViolation, db')
    /\ defects db' = defects (rejected_db true)
    /\ process_records db'
       = match get_record (d_serial (new_defect 0 0 "VISUAL" "scratch" 0)) 0
                 (process_records (rejected_db true)) with
         | None =>
             (process_records (rejected_db true)
                ++ [new_record (d_serial (new_defect 0 0 "VISUAL" "scratch" 0))
                      0])%list
         | Some (j, w) =>
             <[j := set_assigned_operator None (set_status PENDING w)]>
               (process_records (rejected_db true))
         end
    /\ match get_record (d_serial (new_defect 0 0 "VISUAL" "scratch" 0)) 0
               (process_records (rejected_db true)) with
       | None => db' <> rejected_db true
       | Some (j, w) =>
           status w <> PENDING \/ assigned_operator w <> None ->
           db' <> rejected_db true
       end.
Proof.
  apply (resolve_defect_partial_write true 9 2 0 0 (rejected_db true)
           (new_defect 0 0 "VISUAL" "scratch" 0) REPAIRER (active_operation 1)).
  - reflexivity.
  - reflexivity.
  - left. vm_compute. apply list_elem_of_here.
  - reflexivity.
Defined.

End WorkflowExtras.


Module TableFacts.
Import Workflow Models ServiceFacts HandlerFacts.

Lemma pre_save_keys receivers now i r db :
  pr_serial (pre_save receivers now i r db) = pr_serial r
  /\ pr_operation (pre_save receivers now i r db) = pr_operation r.
Proof. destruct (pre_save_fields receivers now i r db) as (? & ? & _). done. Qed.

Lemma get_record_lookup serial operation rs i r :
  get_record serial operation rs = Some (i, r) ->
  rs !! i = Some r /\ pr_serial r = serial /\ pr_operation r = operation.
Proof.
  intros H. apply list_find_Some in H as (? & [? ?] & _). done.
Qed.

Local Opaque post_save_record pre_save.

Ltac keyed_cases :=
  unfold bind, read, get_record_or_404, get_held_record_or_404,
    get_serial_or_404, save_defect, save, shared_serial, raise, ret, write;
  simpl;
  let H := fresh in intros H;
  repeat (first [rewrite get_or_create_eq in * | case_match];
          simplify_eq/=);
  rewrite ?post_save_record_records; simpl;
  rewrite ?post_save_record_records; simpl;
  try apply keyed_refl;
  first
    [ eapply keyed_save;
      [ apply keyed_refl
      | first [ eassumption
              | match goal with
                | Hg : get_record _ _ _ = Some _ |- _ =>
                    apply (get_record_lookup _ _ _ _ _ Hg)
                end ]
      | try (match goal with
             | |- pr_serial (pre_save ?a ?b ?c ?d ?e) = _ =>
                 rewrite (proj1 (pre_save_keys a b c d e))
             end); done
      | try (match goal with
             | |- pr_operation (pre_save ?a ?b ?c ?d ?e) = _ =>
                 rewrite (proj2 (pre_save_keys a b c d e))
             end); done ]
    | apply keyed_create; [apply keyed_refl | simpl; done ] ].

Lemma assign_operation_keyed receivers now request_user process_record_id
    target_user_id db :
  keyed_update (process_records db)
    (process_records
       (assign_operation receivers now request_user process_record_id
          target_user_id db).2).
Proof.
  unfold assign_operation, operator_required.
  destruct (role_in _ (role_of request_user db)); [|apply keyed_refl].
  unfold atomic.
  destruct (bind read _ db) as [[[]|e] db'] eqn:Hm; [|apply keyed_refl].
  revert Hm. keyed_cases.
Qed.

Lemma reassign_operation_keyed receivers now request_user process_record_id
    new_operator_id db :
  keyed_update (process_records db)
    (process_records
       (reassign_operation receivers now request_user process_record_id
          new_operator_id db).2).
Proof.
  unfold reassign_operation, supervisor_or_admin_required.
  destruct (role_in _ (role_of request_user db)); [|apply keyed_refl].
  unfold atomic.
  destruct (bind read _ db) as [[[]|e] db'] eqn:Hm; [|apply keyed_refl].
  revert Hm. keyed_cases.
Qed.

Lemma release_operation_keyed receivers now request_user process_record_id db :
  keyed_update (process_records db)
    (process_records
       (release_operation receivers now request_user process_record_id db).2).
Proof.
  unfold release_operation, operator_required.
  destruct (role_in _ (role_of request_user db)); [|apply keyed_refl].
  unfold atomic.
  destruct (bind _ _ db) as [[[]|e] db'] eqn:Hm; [|apply keyed_refl].
  revert Hm. keyed_cases.
Qed.

Lemma complete_operation_keyed receivers now request_user process_record_id
    serial_number_id notes q db :
  keyed_update (process_records db)
    (process_records
       (complete_operation receivers now request_user process_record_id
          serial_number_id notes q db).2).
Proof.
  unfold complete_operation, operator_required.
  destruct (role_in _ (role_of request_user db)); [|apply keyed_refl].
  unfold atomic.
  destruct (bind _ _ db) as [[[]|e] db'] eqn:Hm; [|apply keyed_refl].
  revert Hm. unfold complete_serial_status. keyed_cases.
Qed.

Lemma reject_serial_number_keyed receivers now request_user process_record_id
    serial_number_id dtype reason db :
  keyed_update (process_records db)
    (process_records
       (reject_serial_number receivers now request_user process_record_id
          serial_number_id dtype reason db).2).
Proof.
  unfold reject_serial_number, operator_required.
  destruct (role_in _ (role_of request_user db)); [|apply keyed_refl].
  unfold atomic.
  destruct (bind _ _ db) as [[[]|e] db'] eqn:Hm; [|apply keyed_refl].
  revert Hm. keyed_cases.
Qed.

Lemma resolve_defect_keyed receivers now request_user defect_id repair_notes
    return_to_operation db :
  keyed_update (process_records db)
    (process_records
       (resolve_defect receivers now request_user defect_id repair_notes
          return_to_operation db).2).
Proof.
  unfold resolve_defect.
  destruct (bind _ _ db) as [r db'] eqn:Hm.
  revert Hm. keyed_cases.
Qed.


Local Transparent post_save_record pre_save.

Lemma process_operation_keyed receivers serial operation action now user notes
    q delivered db :
  keyed_update (process_records db)
    (process_records
       (process_operation receivers serial operation action now user notes q
          delivered db).2).
Proof.
  destruct (process_operation receivers serial operation action now user notes
              q delivered db) as [[r'|e] db'] eqn:H.
  2:{ apply process_operation_raise_unchanged in H. subst. apply keyed_refl. }
  apply process_operation_ok in H
    as (s & op & i & r0 & rs1 & r & s' & _ & _ & Ht & _ & Ha & -> & _ & Hrec
        & _).
  simpl. rewrite Hrec.
  pose proof (target_record_status _ _ _ _ _ _ _ Ht) as (_ & Hk1 & Hk2 & Hi & _).
  apply apply_action_keys in Ha as (Ha1 & Ha2 & _).
  apply (keyed_save _ _ _ r0); try done.
  - unfold target_record in Ht.
    destruct (get_record serial operation (process_records db))
      as [[i' w]|] eqn:Hg; simplify_eq; [apply keyed_refl|].
    apply keyed_create; [apply keyed_refl|done].
  - by destruct (negb (notes =? "")%string).
  - by destruct (negb (notes =? "")%string).
Qed.

Lemma handle_keyed receivers now req db :
  keyed_update (process_records db)
    (process_records (handle receivers now req db)).
Proof.
  destruct req; simpl.
  - apply process_operation_keyed.
  - apply assign_operation_keyed.
  - apply reassign_operation_keyed.
  - apply complete_operation_keyed.
  - apply reject_serial_number_keyed.
  - apply release_operation_keyed.
  - apply resolve_defect_keyed.
Qed.

Lemma keyed_update_rows rs rs' :
  keyed_update rs rs' ->
  length rs <= length rs'
  /\ forall i r, rs !! i = Some r ->
       exists r', rs' !! i = Some r' /\ pr_serial r' = pr_serial r
                  /\ pr_operation r' = pr_operation r.
Proof.
  induction 1 as [rs|rs rs' i r r' Hu [IHl IH] Hi Hs Ho
                  |rs rs' r' Hu [IHl IH] Hg].
  - split; [lia|]. eauto.
  - split; [by rewrite length_insert|].
    intros j rj Hj. destruct (IH j rj Hj) as (x & Hx & Hxs & Hxo).
    destruct (decide (j = i)) as [->|Hne].
    + exists r'. rewrite list_lookup_insert_eq by by eapply lookup_lt_Some.
      split; [done|]. simplify_eq. split; congruence.
    + exists x. by rewrite list_lookup_insert_ne.
  - split; [rewrite length_app; simpl; lia|].
    intros j rj Hj. destruct (IH j rj Hj) as (x & Hx & Hxs & Hxo).
    exists x. split; [by apply lookup_app_l_Some|done].
Qed.

Lemma keyed_update_unique rs rs' :
  keyed_update rs rs' -> unique_records rs -> unique_records rs'.
Proof.
  induction 1 as [rs|rs rs' i r r' Hu IH Hi Hs Ho|rs rs' r' Hu IH Hg];
    intros Huniq; [done|..]; specialize (IH Huniq).
  - intros a b ra rb Ha Hb Hsab Hoab.
    assert (Hkey : forall c rc, (<[i := r']> rs') !! c = Some rc ->
              exists rc', rs' !! c = Some rc' /\ pr_serial rc' = pr_serial rc
                          /\ pr_operation rc' = pr_operation rc).
    { intros c rc Hc. destruct (decide (c = i)) as [->|Hne].
      - rewrite list_lookup_insert_eq in Hc by by eapply lookup_lt_Some.
        simplify_eq. eauto.
      - rewrite list_lookup_insert_ne in Hc by done. eauto. }
    destruct (Hkey a ra Ha) as (ra' & Ha' & ? & ?).
    destruct (Hkey b rb Hb) as (rb' & Hb' & ? & ?).
    apply (IH a b ra' rb'); congruence.
  - intros a b ra rb Ha Hb Hsab Hoab.
    unfold get_record in Hg.
    pose proof (proj1 (list_find_None _ _) Hg) as Hnone.
    apply lookup_app_Some in Ha as [Ha|[Hla Ha]];
      apply lookup_app_Some in Hb as [Hb|[Hlb Hb]].
    + by apply (IH a b ra rb).
    + apply list_lookup_singleton_Some in Hb as [_ <-].
      eapply Forall_lookup_1 in Hnone; [|exact Ha]. by destruct Hnone.
    + apply list_lookup_singleton_Some in Ha as [_ <-].
      eapply Forall_lookup_1 in Hnone; [|exact Hb]. by destruct Hnone.
    + apply list_lookup_singleton_Some in Ha as [Ha _].
      apply list_lookup_singleton_Some in Hb as [Hb _]. lia.
Qed.

(** X11.  Records stay unique per serial number and operation: from a table
    without two records for one serial number and operation, no sequence of
    requests (service calls, operator and repair handlers) reaches a table
    with two; every creation goes through a lookup first. *)
Theorem records_stay_unique receivers init db :
  unique_records (process_records init) ->
  reachable receivers any_request init db ->
  unique_records (process_records db).
Proof.
  intros Huniq Hreach.
  induction Hreach as [|db now req Hreach IH _]; [done|].
  eapply keyed_update_unique; [apply handle_keyed|exact IH].
Qed.

Lemma records_stay_unique_witness :
  unique_records (process_records (double_start_db true)).
Proof.
  apply (records_stay_unique true two_serials_db (double_start_db true)).
  - intros i j ri rj Hi Hj Hs Ho.
    destruct i as [|[|i]]; vm_compute in Hi; [..|discriminate];
      injection Hi as <-;
      (destruct j as [|[|j]]; vm_compute in Hj; [..|discriminate]);
      injection Hj as <-; try reflexivity; discriminate.
  - repeat (apply reach_step; [|exact I]). apply reach_init.
Defined.


(** ** What no request writes *)

Lemma post_save_record_operations receivers now r db :
  operations (post_save_record receivers now r db) = operations db.
Proof. apply post_save_record_tables. Qed.

Lemma post_save_record_users receivers now r db :
  users (post_save_record receivers now r db) = users db.
Proof. apply post_save_record_tables. Qed.

Lemma post_save_record_serials_length receivers now r db :
  length (serials (post_save_record receivers now r db)) = length (serials db).
Proof. apply post_save_record_tables. Qed.

Local Opaque post_save_record pre_save.

Ltac static_cases :=
  unfold bind, read, get_record_or_404, get_held_record_or_404,
    get_serial_or_404, save_defect, save, shared_serial, raise, ret, write;
  simpl;
  let H := fresh in intros H;
  repeat (first [rewrite get_or_create_eq in * | case_match];
          simplify_eq/=);
  repeat (rewrite ?post_save_record_operations, ?post_save_record_users,
            ?post_save_record_serials_length, ?post_save_record_defects,
            ?length_insert; simpl);
  split_and!; try done;
  first [ by left
        | right; left; eexists; reflexivity
        | right; right; eexists _, _, _;
          split_and!; [eassumption|reflexivity|done..] ].

Lemma assign_operation_kept receivers now request_user process_record_id
    target_user_id db :
  tables_kept db
    (assign_operation receivers now request_user process_record_id
       target_user_id db).2.
Proof.
  unfold tables_kept, assign_operation, operator_required.
  destruct (role_in _ (role_of request_user db)); [|by split_and!; [..|left]].
  unfold atomic.
  destruct (bind read _ db) as [[[]|e] db'] eqn:Hm;
    [|by split_and!; [..|left]].
  revert Hm. static_cases.
Qed.

Lemma reassign_operation_kept receivers now request_user process_record_id
    new_operator_id db :
  tables_kept db
    (reassign_operation receivers now request_user process_record_id
       new_operator_id db).2.
Proof.
  unfold tables_kept, reassign_operation, supervisor_or_admin_required.
  destruct (role_in _ (role_of request_user db)); [|by split_and!; [..|left]].
  unfold atomic.
  destruct (bind read _ db) as [[[]|e] db'] eqn:Hm;
    [|by split_and!; [..|left]].
  revert Hm. static_cases.
Qed.

Lemma release_operation_kept receivers now request_user process_record_id db :
  tables_kept db
    (release_operation receivers now request_user process_record_id db).2.
Proof.
  unfold tables_kept, release_operation, operator_required.
  destruct (role_in _ (role_of request_user db)); [|by split_and!; [..|left]].
  unfold atomic.
  destruct (bind _ _ db) as [[[]|e] db'] eqn:Hm; [|by split_and!; [..|left]].
  revert Hm. static_cases.
Qed.

Lemma complete_operation_kept receivers now request_user process_record_id
    serial_number_id notes q db :
  tables_kept db
    (complete_operation receivers now request_user process_record_id
       serial_number_id notes q db).2.
Proof.
  unfold tables_kept, complete_operation, operator_required.
  destruct (role_in _ (role_of request_user db)); [|by split_and!; [..|left]].
  unfold atomic.
  destruct (bind _ _ db) as [[[]|e] db'] eqn:Hm; [|by split_and!; [..|left]].
  revert Hm. unfold complete_serial_status. static_cases.
Qed.

Lemma reject_serial_number_kept receivers now request_user process_record_id
    serial_number_id dtype reason db :
  tables_kept db
    (reject_serial_number receivers now request_user process_record_id
       serial_number_id dtype reason db).2.
Proof.
  unfold tables_kept, reject_serial_number, operator_required.
  destruct (role_in _ (role_of request_user db)); [|by split_and!; [..|left]].
  unfold atomic.
  destruct (bind _ _ db) as [[[]|e] db'] eqn:Hm; [|by split_and!; [..|left]].
  revert Hm. static_cases.
Qed.

Lemma resolve_defect_kept receivers now request_user defect_id repair_notes
    return_to_operation db :
  tables_kept db
    (resolve_defect receivers now request_user defect_id repair_notes
       return_to_operation db).2.
Proof.
  unfold tables_kept, resolve_defect.
  destruct (bind _ _ db) as [r db'] eqn:Hm.
  revert Hm. static_cases.
Qed.

Local Transparent post_save_record pre_save.


Lemma process_operation_serials_length receivers serial operation action now
    user notes q delivered db :
  length (serials (process_operation receivers serial operation action now user
                     notes q delivered db).2) = length (serials db).
Proof.
  unfold process_operation, atomic.
  destruct (process_operation_body _ _ _ _ _ _ _ _ _ db) as [[a|e] db'] eqn:Hb;
    [|done].
  simpl. revert Hb.
  unfold process_operation_body, bind, read, raise, ret, write, save,
    shared_serial.
  destruct (serials db !! serial) as [s|]; [|done].
  destruct (operations db !! operation) as [op|]; [|done].
  rewrite get_or_create_eq.
  destruct (get_record serial operation (process_records db)) as [[i r0]|] eqn:Hg.
  - destruct (negb _); [done|].
    destruct (apply_action action now user q r0) as [r|] eqn:Ha; [|done].
    destruct (negb delivered); [done|].
    intros H. injection H as _ <-.
    unfold _update_serial_status. simpl.
    by rewrite length_insert, post_save_record_serials_length.
  - destruct (negb _); [done|].
    destruct (apply_action action now user q _) as [r|] eqn:Ha; [|done].
    destruct (negb delivered); [done|].
    intros H. injection H as _ <-.
    unfold _update_serial_status. simpl.
    rewrite length_insert, post_save_record_serials_length. simpl.
    by rewrite post_save_record_serials_length.
Qed.

Lemma process_operation_kept receivers serial operation action now user notes
    q delivered db :
  tables_kept db
    (process_operation receivers serial operation action now user notes q
       delivered db).2.
Proof.
  pose proof (process_operation_serials_length receivers serial operation action
                now user notes q delivered db) as Hlen.
  destruct (process_operation receivers serial operation action now user notes
              q delivered db) as [[r'|e] db'] eqn:H.
  2:{ apply process_operation_raise_unchanged in H. subst.
      by split_and!; [..|left]. }
  apply process_operation_ok in H
    as (s & op & i & r0 & rs1 & r & s' & _ & _ & _ & _ & _ & _ & _ & _
        & Hops & Hdef & Husers & _).
  simpl in *. split_and!; try done. by left.
Qed.

Lemma handle_kept receivers now req db :
  tables_kept db (handle receivers now req db).
Proof.
  destruct req; simpl.
  - apply process_operation_kept.
  - apply assign_operation_kept.
  - apply reassign_operation_kept.
  - apply complete_operation_kept.
  - apply reject_serial_number_kept.
  - apply release_operation_kept.
  - apply resolve_defect_kept.
Qed.

(** X12.  No request deletes or re-keys a row.  In every state reached by
    requests of any kind, the operations and the users are those of the
    initial state, there are as many serial numbers, every process record
    of the initial state is still at its key with its serial number and
    operation, and every defect is still at its key with its serial number,
    operation, description and reporter. *)
Theorem rows_are_kept receivers init db :
  reachable receivers any_request init db ->
  operations db = operations init /\ users db = users init
  /\ length (serials db) = length (serials init)
  /\ (forall i r, process_records init !! i = Some r ->
        exists r', process_records db !! i = Some r'
                   /\ pr_serial r' = pr_serial r
                   /\ pr_operation r' = pr_operation r)
  /\ (forall i d, defects init !! i = Some d ->
        exists d', defects db !! i = Some d'
                   /\ d_serial d' = d_serial d /\ d_operation d' = d_operation d
                   /\ d_description d' = d_description d
                   /\ d_reported_by d' = d_reported_by d).
Proof.
  intros Hreach.
  induction Hreach as [|db now req Hreach (IHo & IHu & IHs & IHr & IHd) _].
  { split_and!; try done; intros i x Hi; exists x; by split_and!. }
  destruct (handle_kept receivers now req db) as (Ho & Hu & Hs & Hd).
  pose proof (keyed_update_rows _ _ (handle_keyed receivers now req db))
    as [_ Hr].
  split_and!; try congruence.
  - intros i r Hi. destruct (IHr i r Hi) as (r1 & H1 & Hs1 & Ho1).
    destruct (Hr i r1 H1) as (r2 & H2 & Hs2 & Ho2).
    exists r2. split_and!; congruence.
  - intros i d Hi.
    destruct (IHd i d Hi) as (d1 & H1 & Hd1 & Hd2 & Hd3 & Hd4).
    destruct Hd as [->|[(x & ->)|(k & dk & dk' & Hk & -> & Hk1 & Hk2 & Hk3 & Hk4)]].
    + eauto.
    + exists d1. split; [by apply lookup_app_l_Some|done].
    + destruct (decide (i = k)) as [->|Hne].
      * exists dk'.
        rewrite list_lookup_insert_eq by by eapply lookup_lt_Some.
        simplify_eq. split_and!; congruence.
      * exists d1. by rewrite list_lookup_insert_ne.
Qed.


Lemma rows_are_kept_witness :
  operations (double_start_db true) = operations two_serials_db
  /\ users (double_start_db true) = users two_serials_db
  /\ length (serials (double_start_db true)) = length (serials two_serials_db)
  /\ (forall i r, process_records two_serials_db !! i = Some r ->
        exists r', process_records (double_start_db true) !! i = Some r'
                   /\ pr_serial r' = pr_serial r
                   /\ pr_operation r' = pr_operation r)
  /\ (forall i d, defects two_serials_db !! i = Some d ->
        exists d', defects (double_start_db true) !! i = Some d'
                   /\ d_serial d' = d_serial d /\ d_operation d' = d_operation d
                   /\ d_description d' = d_description d
                   /\ d_reported_by d' = d_reported_by d).
Proof.
  apply (rows_are_kept true two_serials_db (double_start_db true)).
  repeat (apply reach_step; [|exact I]). apply reach_init.
Defined.

End TableFacts.


Module ModelFacts.
Import Workflow Models ServiceFacts HandlerFacts WorkflowExtras TableFacts.

(** ** [order_by('sequence_number')] *)

Lemma insert_by_sequence_perm p l : insert_by_sequence p l ≡ₚ p :: l.
Proof.
  induction l as [|q l IH]; simpl; [done|].
  destruct (_ <=? _); [done|]. rewrite IH. apply Permutation_swap.
Qed.

Lemma order_by_sequence_perm l : order_by_sequence l ≡ₚ l.
Proof.
  induction l as [|p l IH]; simpl; [done|].
  rewrite insert_by_sequence_perm. by rewrite IH.
Qed.

Definition by_sequence (p q : nat * Operation) : Prop :=
  sequence_number p.2 <= sequence_number q.2.

Lemma insert_by_sequence_sorted p l :
  StronglySorted by_sequence l -> StronglySorted by_sequence (insert_by_sequence p l).
Proof.
  induction 1 as [|q l Hs IH Hall]; simpl.
  - repeat constructor.
  - destruct (Nat.leb_spec (sequence_number p.2) (sequence_number q.2)).
    + constructor; [by constructor|].
      constructor; [done|].
      eapply Forall_impl; [exact Hall|]. unfold by_sequence. intros; simpl in *; lia.
    + constructor; [done|].
      rewrite insert_by_sequence_perm. constructor; [|done].
      unfold by_sequence. lia.
Qed.

Lemma order_by_sequence_sorted l : StronglySorted by_sequence (order_by_sequence l).
Proof.
  induction l as [|p l IH]; simpl; [constructor|].
  by apply insert_by_sequence_sorted.
Qed.


Lemma StronglySorted_lookup {A} (R : A -> A -> Prop) l :
  StronglySorted R l ->
  forall a b x y, l !! a = Some x -> l !! b = Some y -> a < b -> R x y.
Proof.
  induction 1 as [|z l Hs IH Hall]; intros a b x y Ha Hb Hlt; [done|].
  destruct b as [|b]; [lia|]. simpl in Hb.
  destruct a as [|a]; simpl in Ha.
  - simplify_eq. rewrite Forall_forall in Hall. apply Hall.
    by eapply list_elem_of_lookup_2.
  - apply (IH a b); [done..|lia].
Qed.

Lemma elem_of_imap_pair {A} (l : list A) i x :
  (i, x) ∈ imap pair l <-> l !! i = Some x.
Proof.
  split.
  - intros H. apply elem_of_lookup_imap_1 in H as (j & y & Heq & Hj).
    by simplify_eq.
  - intros H. by apply (elem_of_lookup_imap_2 pair l x i).
Qed.

Lemma filter_imap_length {A} (f : A -> bool) (g : nat -> A -> nat * A) l :
  (forall i x, (g i x).2 = x) ->
  length (List.filter (fun p => f p.2) (imap g l)) = length (List.filter f l).
Proof.
  revert g. induction l as [|x l IH]; intros g Hg; [done|]. simpl.
  rewrite Hg. destruct (f x); simpl; rewrite IH; try done;
    intros i y; apply Hg.
Qed.

(** The active operations with their keys, in sequence order. *)
Lemma active_operations_spec ops p op :
  (p, op) ∈ order_by_sequence
              (List.filter (fun q => is_active q.2) (imap pair ops))
  <-> ops !! p = Some op /\ is_active op = true.
Proof.
  rewrite order_by_sequence_perm.
  rewrite list_elem_of_In, filter_In, <- list_elem_of_In, elem_of_imap_pair.
  done.
Qed.

(** ** The fan-out of pending records *)

Lemma update_serial_status_tables now serial s db db' :
  total_operations (operations db') = total_operations (operations db) ->
  count_status serial APPROVED (process_records db')
  = count_status serial APPROVED (process_records db) ->
  update_serial_status now serial s db' = update_serial_status now serial s db.
Proof. intros Ht Hc. unfold update_serial_status. by rewrite Ht, Hc. Qed.

Lemma update_serial_status_twice now serial s db :
  update_serial_status now serial (update_serial_status now serial s db) db
  = update_serial_status now serial s db.
Proof.
  unfold update_serial_status.
  destruct (_ =? _); [done|]. by destruct (0 <? _).
Qed.

Lemma count_status_snoc_pending serial serial' p rs :
  count_status serial APPROVED (rs ++ [new_record serial' p])%list
  = count_status serial APPROVED rs.
Proof.
  unfold count_status. rewrite List.filter_app, length_app. simpl.
  rewrite bool_decide_eq_false_2 by (by intros [_ ?]). simpl. lia.
Qed.

Lemma count_status_fresh serial st rs :
  (forall r, r ∈ rs -> pr_serial r <> serial) ->
  count_status serial st rs = 0.
Proof.
  intros Hfresh. unfold count_status.
  induction rs as [|r rs IH]; [done|]. simpl.
  rewrite bool_decide_eq_false_2.
  - apply IH. intros r' Hr'. apply Hfresh. by right.
  - intros [Hs _]. apply (Hfresh r); [by left|done].
Qed.

(** The loop of [create_process_records] over a list of operations: the
    records it appends, and the row of the serial number, which the first
    [update_serial_status] rewrites and the later ones leave. *)
Lemma create_process_records_loop now serial (l : list (nat * Operation)) db :
  let db' :=
    foldl (fun db p =>
             (create (E := Empty_set) true now (new_record serial p.1) db).2)
      db l in
  process_records db'
  = (process_records db
       ++ map (fun p : nat * Operation => new_record serial p.1) l)%list
  /\ operations db' = operations db
  /\ defects db' = defects db /\ users db' = users db
  /\ serials db'
     = match l, serials db !! serial with
       | _ :: _, Some s =>
           <[serial := update_serial_status now serial s db]> (serials db)
       | _, _ => serials db
       end.
Proof.
  revert db. induction l as [|p l IH]; intros db.
  { simpl. rewrite app_nil_r. by destruct (serials db !! serial). }
  set (r := new_record serial p.1).
  set (db0 := with_records (process_records db ++ [r]) db).
  set (db1 := post_save_record true now r db0).
  cbn [foldl].
  change (create (E := Empty_set) true now (new_record serial p.1) db).2
    with db1.
  destruct (IH db1) as (Hrec & Hops & Hdef & Husers & Hser).
  destruct (post_save_record_tables true now r db0)
    as (Hrec1 & Hops1 & Hdef1 & Husers1 & _).
  fold db1 in Hrec1, Hops1, Hdef1, Husers1.
  rewrite Hrec, Hops, Hdef, Husers, Hser, Hrec1, Hops1, Hdef1, Husers1.
  split_and!; try done.
  { subst db0. simpl. by rewrite <- app_assoc. }
  assert (Hs1 : serials db1
                = match serials db !! serial with
                  | Some s =>
                      <[serial := update_serial_status now serial s db]>
                        (serials db)
                  | None => serials db
                  end).
  { subst db1. unfold post_save_record. simpl.
    destruct (serials db !! serial) as [s|]; [|done].
    unfold save_serial. simpl. f_equal.
    apply update_serial_status_tables; [done|].
    apply count_status_snoc_pending. }
  rewrite Hs1.
  destruct (serials db !! serial) as [s|] eqn:Hs.
  - rewrite list_lookup_insert_eq by by eapply lookup_lt_Some.
    destruct l as [|q l]; [done|].
    rewrite list_insert_insert_eq. f_equal.
    rewrite (update_serial_status_tables now serial _ db db1).
    + apply update_serial_status_twice.
    + by rewrite Hops1.
    + rewrite Hrec1. apply count_status_snoc_pending.
  - rewrite Hs. by destruct l.
Qed.

(** X13.  The receiver [create_process_records] on a serial number without
    records appends exactly one [PENDING], unassigned record per active
    operation and none for an inactive one, in ascending sequence order;
    the existing records, the other serial numbers and the other tables
    stay as they were.  When there is an active operation, the
    [update_serial_status] that follows each created record writes the
    status [CREATED] to the serial number, whatever status it was created
    with, and keeps its completion time. *)
Theorem create_process_records_fanout now serial db :
  (forall r, r ∈ process_records db -> pr_serial r <> serial) ->
  let db' := create_process_records now serial db in
  length (process_records db')
  = length (process_records db) + total_operations (operations db)
  /\ (forall p op, operations db !! p = Some op ->
        if is_active op
        then exists j, get_record serial p (process_records db')
                       = Some (j, new_record serial p)
                       /\ length (process_records db) <= j
        else get_record serial p (process_records db') = None)
  /\ (forall i r, process_records db !! i = Some r ->
        process_records db' !! i = Some r)
  /\ (forall i j ri rj opi opj,
        length (process_records db) <= i < j ->
        process_records db' !! i = Some ri ->
        process_records db' !! j = Some rj ->
        operations db !! pr_operation ri = Some opi ->
        operations db !! pr_operation rj = Some opj ->
        sequence_number opi <= sequence_number opj)
  /\ operations db' = operations db
  /\ serials db'
     = match serials db !! serial with
       | Some s =>
           if total_operations (operations db) =? 0 then serials db
           else <[serial := {| sn_status := S_CREATED;
                               sn_completed_at := sn_completed_at s |}]>
                  (serials db)
       | None => serials db
       end
  /\ defects db' = defects db /\ users db' = users db.
Proof.
  intros Hfresh db'. subst db'. unfold create_process_records.
  set (l := order_by_sequence _).
  destruct (create_process_records_loop now serial l db)
    as (Hrec & Hops & Hdef & Husers & Hser).
  rewrite Hrec, Hops, Hdef, Husers, Hser. clear Hrec Hops Hdef Husers Hser.
  assert (Hl : forall p op, (p, op) ∈ l <->
                 operations db !! p = Some op /\ is_active op = true)
    by (intros; apply active_operations_spec).
  assert (Hlen : length l = total_operations (operations db)).
  { subst l. rewrite (Permutation_length (order_by_sequence_perm _)).
    unfold total_operations. by apply filter_imap_length. }
  split_and!; try done.
  - by rewrite length_app, length_map, Hlen.
  - intros p op Hp. unfold get_record.
    assert (Hrs : forall p', list_find
              (fun r => pr_serial r = serial /\ pr_operation r = p')
              (process_records db) = None).
    { intros p'. apply list_find_None. apply Forall_forall.
      intros r Hr [Hs _]. by apply (Hfresh r). }
    rewrite list_find_app_r by apply Hrs.
    destruct (is_active op) eqn:Hact.
    + assert (Hin : new_record serial p ∈ map (fun p => new_record serial p.1) l).
      { apply (list_elem_of_fmap_2 (fun p => new_record serial p.1) l (p, op)).
        by apply Hl. }
      destruct (list_find_elem_of
                  (fun r => pr_serial r = serial /\ pr_operation r = p)
                  _ _ Hin) as [[k y] Hk]; [done|].
      rewrite Hk. simpl.
      apply list_find_Some in Hk as (Hky & [_ Hyo] & _).
      apply list_elem_of_lookup_2, list_elem_of_fmap in Hky as ([p' op'] & -> & _).
      simpl in Hyo. subst p'. exists (k + length (process_records db)).
      split; [done|lia].
    + replace (list_find _ (map _ l)) with (@None (nat * ProcessRecord));
        [done|].
      symmetry. apply list_find_None. apply Forall_forall.
      intros y Hy [_ Hyo].
      apply list_elem_of_fmap in Hy as ([p' op'] & -> & Hin).
      simpl in Hyo. subst p'. apply Hl in Hin as [Hp' Hact'].
      congruence.
  - intros i r Hi. by apply lookup_app_l_Some.
  - intros i j ri rj opi opj [Hi Hij] Hri Hrj Hoi Hoj.
    rewrite lookup_app_r in Hri by lia. rewrite lookup_app_r in Hrj by lia.
    rewrite list_lookup_fmap in Hri, Hrj.
    destruct (l !! (i - length (process_records db))) as [[pi oi]|] eqn:Hli;
      [|done].
    destruct (l !! (j - length (process_records db))) as [[pj oj]|] eqn:Hlj;
      [|done].
    simpl in Hri, Hrj. simplify_eq. simpl in *.
    pose proof (list_elem_of_lookup_2 _ _ _ Hli) as Hini.
    pose proof (list_elem_of_lookup_2 _ _ _ Hlj) as Hinj.
    apply Hl in Hini as [Hpi _]. apply Hl in Hinj as [Hpj _].
    simplify_eq.
    apply (StronglySorted_lookup by_sequence l (order_by_sequence_sorted _)
             _ _ (pi, opi) (pj, opj) Hli Hlj). lia.
  - destruct (serials db !! serial) as [s|]; [|by destruct l].
    destruct l as [|q l]; simpl in Hlen; rewrite <- Hlen; [done|]. simpl.
    f_equal. unfold update_serial_status.
    rewrite (count_status_fresh _ _ _ Hfresh), <- Hlen. done.
Qed.

(** A serial number created with the status [IN_PROCESS] on a line of three
    operations: the fan-out leaves it [CREATED]. *)
Lemma create_process_records_fanout_witness :
  let db :=
    {| operations := [active_operation 1; active_operation 2; active_operation 3];
       serials := [{| sn_status := S_IN_PROCESS; sn_completed_at := None |}];
       process_records := []; defects := [];
       users := [Some OPERATOR; Some SUPERVISOR; Some REPAIRER] |} in
  let db' := create_process_records 0 0 db in
  length (process_records db')
  = length (process_records db) + total_operations (operations db)
  /\ (forall p op, operations db !! p = Some op ->
        if is_active op
        then exists j, get_record 0 p (process_records db')
                       = Some (j, new_record 0 p)
                       /\ length (process_records db) <= j
        else get_record 0 p (process_records db') = None)
  /\ (forall i r, process_records db !! i = Some r ->
        process_records db' !! i = Some r)
  /\ (forall i j ri rj opi opj,
        length (process_records db) <= i < j ->
        process_records db' !! i = Some ri ->
        process_records db' !! j = Some rj ->
        operations db !! pr_operation ri = Some opi ->
        operations db !! pr_operation rj = Some opj ->
        sequence_number opi <= sequence_number opj)
  /\ operations db' = operations db
  /\ serials db' = [fresh_serial]
  /\ defects db' = defects db /\ users db' = users db.
Proof.
  intros db.
  apply (create_process_records_fanout 0 0 db).
  intros r Hr. simpl in Hr. by apply elem_of_nil in Hr.
Defined.

(** ** The next operation *)

Lemma head_order_by_sequence l p :
  head (order_by_sequence l) = Some p ->
  p ∈ l /\ forall q, q ∈ l -> sequence_number p.2 <= sequence_number q.2.
Proof.
  intros Hh.
  pose proof (order_by_sequence_sorted l) as Hs.
  pose proof (order_by_sequence_perm l) as Hp.
  destruct (order_by_sequence l) as [|x l'] eqn:Ho; [done|].
  simpl in Hh. simplify_eq. split.
  - rewrite <- Hp. apply list_elem_of_here.
  - intros q Hq. rewrite <- Hp in Hq.
    apply elem_of_cons in Hq as [->|Hq]; [lia|].
    apply StronglySorted_inv in Hs as [_ Hall].
    rewrite Forall_forall in Hall. by apply Hall.
Qed.

Lemma elem_of_completed_ops serial db n :
  n ∈ completed_ops serial db <->
  exists k r op, process_records db !! k = Some r /\ pr_serial r = serial
                 /\ status r = APPROVED
                 /\ operations db !! pr_operation r = Some op
                 /\ sequence_number op = n.
Proof.
  unfold completed_ops. rewrite list_elem_of_omap. split.
  - intros (r & Hr & Hn).
    apply list_elem_of_lookup_1 in Hr as [k Hk].
    destruct (bool_decide _) eqn:Hb; [|done].
    apply bool_decide_eq_true in Hb as [Hs Hst].
    destruct (operations db !! pr_operation r) as [op|] eqn:Hop; [|done].
    simpl in Hn. simplify_eq. by exists k, r, op.
  - intros (k & r & op & Hk & Hs & Hst & Hop & Hn).
    exists r. split; [by eapply list_elem_of_lookup_2|].
    rewrite bool_decide_eq_true_2 by done. rewrite Hop. simpl. by subst.
Qed.

(** X14.  The operation [current_operation] names as next for a serial
    number is an active one that the serial number has no approved record
    for, and the sequence check of the service passes for it: with unique
    sequence numbers and unique records, every active operation before it
    has an approved record. *)
Theorem current_operation_passes_check serial db p op :
  unique_sequence (operations db) ->
  unique_records (process_records db) ->
  current_operation serial db = Some (p, op) ->
  operations db !! p = Some op /\ is_active op = true
  /\ ~ approved_at db serial p
  /\ _validate_operation_sequence serial op db = true.
Proof.
  intros Hseq Huniq Hcur. unfold current_operation in Hcur.
  apply head_order_by_sequence in Hcur as [Hin Hmin].
  apply list_elem_of_In, filter_In in Hin as [Hin Hf].
  apply list_elem_of_In, elem_of_imap_pair in Hin. simpl in Hf.
  apply andb_true_iff in Hf as [Hact Hnot].
  apply negb_true_iff, bool_decide_eq_false in Hnot.
  split_and!; try done.
  - intros (j & w & Hg & Hw). apply Hnot.
    apply get_record_lookup in Hg as (Hj & Hs & Ho).
    apply elem_of_completed_ops. exists j, w, op.
    split_and!; try done. by rewrite Ho.
  - apply validate_spec. intros q prev Hq Hqa Hlt.
    destruct (decide (sequence_number prev ∈ completed_ops serial db))
      as [Hc|Hc].
    + apply elem_of_completed_ops in Hc
        as (k & r & o & Hk & Hs & Hst & Ho & Hn).
      assert (pr_operation r = q) as Hrq by by apply (Hseq _ _ o prev).
      destruct (get_record serial q (process_records db)) as [[j w]|] eqn:Hg.
      * exists j, w. split; [done|].
        apply get_record_lookup in Hg as (Hj & Hws & Hwo).
        assert (j = k) as -> by (apply (Huniq j k w r); congruence).
        congruence.
      * unfold get_record in Hg. apply list_find_None in Hg.
        eapply Forall_lookup_1 in Hg; [|exact Hk]. by destruct Hg.
    + assert (Hinq : (q, prev) ∈
                List.filter
                  (fun p => is_active p.2
                     && negb (bool_decide
                                (sequence_number p.2 ∈ completed_ops serial db)))
                  (imap pair (operations db))).
      { apply list_elem_of_In, filter_In. split.
        - by apply list_elem_of_In, elem_of_imap_pair.
        - simpl. rewrite Hqa. simpl.
          by rewrite bool_decide_eq_false_2. }
      apply Hmin in Hinq. simpl in Hinq. lia.
Qed.

Lemma current_operation_passes_check_witness :
  operations (first_approved_db true) !! 1 = Some (active_operation 2)
  /\ is_active (active_operation 2) = true
  /\ ~ approved_at (first_approved_db true) 0 1
  /\ _validate_operation_sequence 0 (active_operation 2) (first_approved_db true)
     = true.
Proof.
  apply (current_operation_passes_check 0 (first_approved_db true) 1
           (active_operation 2)).
  - intros p q a b Hp Hq Hs.
    destruct p as [|[|[|p]]]; vm_compute in Hp; [..|discriminate];
      injection Hp as <-;
      (destruct q as [|[|[|q]]]; vm_compute in Hq; [..|discriminate]);
      injection Hq as <-; try reflexivity; discriminate.
  - intros i j ri rj Hi Hj Hs Ho.
    destruct i as [|[|[|i]]]; vm_compute in Hi; [..|discriminate];
      injection Hi as <-;
      (destruct j as [|[|[|j]]]; vm_compute in Hj; [..|discriminate]);
      injection Hj as <-; try reflexivity; discriminate.
  - vm_compute. reflexivity.
Defined.

(** ** Who can take a record *)

(** X15.  What [can_be_assigned_to] promises, [assign_operation] delivers:
    when the method says a record can be assigned to a user (an operator
    without a record in progress, the record [PENDING]) and the record has
    no assignee, the user's own assignment request succeeds and leaves them
    holding the record. *)
Theorem can_be_assigned_to_assign receivers now user process_record_id
    target_user_id db r s :
  process_records db !! process_record_id = Some r ->
  can_be_assigned_to r user db = true ->
  assigned_operator r = None ->
  serials db !! pr_serial r = Some s ->
  exists db' r',
    assign_operation receivers now user process_record_id target_user_id db
    = (Ok tt, db')
    /\ process_records db' !! process_record_id = Some r'
    /\ holds user r' /\ started_at r' = Some now /\ assigned_at r' = Some now.
Proof.
  intros Hr Hcan Hnone Hs. unfold can_be_assigned_to in Hcan.
  destruct (bool_decide (role_of user db = Some OPERATOR)) eqn:Hrole;
    [|done]. simpl in Hcan.
  apply bool_decide_eq_true in Hrole.
  destruct (bool_decide (status r = PENDING)); [|done]. simpl in Hcan.
  apply negb_true_iff in Hcan.
  assert (Htarget : assignment_target user target_user_id db = user).
  { unfold assignment_target. destruct target_user_id; [|done].
    by rewrite Hrole. }
  assert (Hfree : forall j rj, process_records db !! j = Some rj ->
                               ~ holds user rj).
  { intros j rj Hj Hh.
    assert (existsb (fun r' => bool_decide (holds user r')) (process_records db)
            = true) as Hex; [|congruence].
    apply existsb_exists. exists rj. split.
    - apply list_elem_of_In. by eapply list_elem_of_lookup_2.
    - by apply bool_decide_eq_true. }
  destruct (assign_operation_effect receivers now user process_record_id
              target_user_id db r s) as (db' & s' & Ha & Hrec & _);
    try done; rewrite ?Htarget, ?Hrole; try done.
  eexists db', _. split; [exact Ha|]. rewrite Hrec, Htarget.
  split.
  - apply list_lookup_insert_eq. by eapply lookup_lt_Some.
  - done.
Qed.

Lemma can_be_assigned_to_assign_witness :
  exists db' r',
    assign_operation true 7 0 1 None line_db = (Ok tt, db')
    /\ process_records db' !! 1 = Some r'
    /\ holds 0 r' /\ started_at r' = Some 7 /\ assigned_at r' = Some 7.
Proof.
  apply (can_be_assigned_to_assign true 7 0 1 None line_db (new_record 0 1)
           fresh_serial).
  - reflexivity.
  - reflexivity.
  - reflexivity.
  - reflexivity.
Defined.

End ModelFacts.


Module LegacyFacts.
Import Serials Legacy SerialFacts.

(** ** Reading and writing the counters *)

Lemma match_km_format f k :
  f < 1000 -> k < 1000 -> match_km (format_km f k) = Some (f, k, "").
Proof.
  intros Hf Hk. unfold match_km, format_km. cbn [append].
  rewrite take_digits3_pad3 by done. cbn [append].
  by rewrite take_digits3_pad3 by done.
Qed.

Lemma match_km_bound s f k rest :
  match_km s = Some (f, k, rest) -> f < 1000 /\ k < 1000.
Proof.
  unfold match_km.
  destruct s as [|a s]; [done|].
  destruct (Ascii.eqb_spec a "K") as [->|Ha].
  2:{ intros H. exfalso. revert H.
      destruct a as [[] [] [] [] [] [] [] []]; try done. }
  destruct s as [|b s]; [done|].
  destruct (Ascii.eqb_spec b "M") as [->|Hb].
  2:{ intros H. exfalso. revert H.
      destruct b as [[] [] [] [] [] [] [] []]; try done. }
  destruct (take_digits3 s) as [[f' s1]|] eqn:H1; [|done].
  destruct s1 as [|c s1]; [done|].
  destruct (Ascii.eqb_spec c "W") as [->|Hc].
  2:{ intros H. exfalso. revert H.
      destruct c as [[] [] [] [] [] [] [] []]; try done. }
  destruct (take_digits3 s1) as [[k' s2]|] eqn:H2; [|done].
  destruct s2 as [|d s2]; [done|].
  destruct (Ascii.eqb_spec d "R") as [->|Hd].
  2:{ intros H. exfalso. revert H.
      destruct d as [[] [] [] [] [] [] [] []]; try done. }
  intros H. injection H as <- <- _.
  split; by eapply take_digits3_bound.
Qed.

Lemma compare_km f k f' k' :
  f < 1000 -> k < 1000 -> f' < 1000 -> k' < 1000 ->
  String.compare (format_km f k) (format_km f' k') =
  match f ?= f' with
  | Eq => k ?= k'
  | c => c
  end.
Proof.
  intros Hf Hk Hf' Hk'. unfold format_km.
  cbn [append String.compare]. rewrite !ascii_compare_refl.
  rewrite compare_pad3 by done.
  destruct (f ?= f'); try done.
  cbn [append String.compare]. rewrite ascii_compare_refl.
  rewrite compare_pad3 by done.
  destruct (k ?= k'); try done.
Qed.

Lemma km_lt f k f' k' :
  f < 1000 -> k < 1000 -> f' < 1000 -> k' < 1000 ->
  1000 * f + k < 1000 * f' + k' ->
  String.ltb (format_km f k) (format_km f' k') = true.
Proof.
  intros Hf Hk Hf' Hk' Hlt. unfold String.ltb.
  rewrite compare_km by done.
  destruct (Nat.compare_spec f f'); [|done|lia].
  destruct (Nat.compare_spec k k'); [lia|done|lia].
Qed.

Lemma km_inj f k f' k' :
  f < 1000 -> k < 1000 -> f' < 1000 -> k' < 1000 ->
  format_km f k = format_km f' k' -> f = f' /\ k = k'.
Proof.
  intros Hf Hk Hf' Hk' Heq.
  pose proof (compare_km f k f' k' Hf Hk Hf' Hk') as Hc.
  rewrite Heq, string_compare_refl in Hc.
  destruct (Nat.compare_spec f f'); try done.
  destruct (Nat.compare_spec k k'); done.
Qed.

Lemma exists_serial_true s store :
  In s store -> exists_serial s store = true.
Proof.
  intros H. unfold exists_serial. apply existsb_exists.
  exists s. split; [done|]. apply String.eqb_refl.
Qed.

(** ** One allocation *)

Lemma greatest_km store f k :
  km_state store f k -> greatest store = Some (format_km f k).
Proof.
  intros (Hf & Hk & Hin & Hall). apply greatest_is; [done|].
  intros x Hx. destruct (Hall x Hx) as (f' & k' & Hf' & Hk' & -> & Hle).
  destruct (decide (1000 * f' + k' = 1000 * f + k)) as [Heq|Hne].
  - left. f_equal; lia.
  - right. apply km_lt; try done. lia.
Qed.

Lemma km_state_next store f k f' k' :
  km_state store f k ->
  f' < 1000 -> k' < 1000 -> 1000 * f + k < 1000 * f' + k' ->
  exists_serial (format_km f' k') store = false
  /\ km_state (store ++ [format_km f' k'])%list f' k'.
Proof.
  intros (Hf & Hk & Hin & Hall) Hf' Hk' Hlt. split.
  - apply exists_serial_false. intros x Hx Heq. subst x.
    destruct (Hall _ Hx) as (f1 & k1 & Hf1 & Hk1 & Heq & Hle).
    apply km_inj in Heq as [-> ->]; try done. lia.
  - split_and!; try done.
    + apply in_or_app. right. by left.
    + intros x Hx. apply in_app_or in Hx as [Hx|[<-|[]]].
      * destruct (Hall x Hx) as (f1 & k1 & Hf1 & Hk1 & -> & Hle).
        exists f1, k1. split_and!; try done. lia.
      * exists f', k'. split_and!; try done.
Qed.

Lemma get_next_km store f k :
  km_state store f k ->
  get_next_serial_number store =
  (if k <? 999 then Ok (format_km f (k + 1))
   else if 999 <? f + 1 then Raise KMLimitReached
   else Ok (format_km (f + 1) 1)).
Proof.
  intros Hst. pose proof Hst as (Hf & Hk & _).
  unfold get_next_serial_number.
  rewrite (greatest_km _ _ _ Hst), match_km_format by done.
  destruct (Nat.ltb_spec k 999).
  - destruct (Nat.ltb_spec 999 (k + 1)); [lia|].
    destruct (Nat.ltb_spec 999 f); [lia|done].
  - destruct (Nat.ltb_spec 999 (k + 1)); [|lia].
    by destruct (Nat.ltb_spec 999 (f + 1)).
Qed.

Lemma ensure_unique_new fuel attempts s store :
  exists_serial s store = false ->
  ensure_unique fuel attempts s store = Some (Ok s).
Proof. intros H. destruct fuel; simpl; by rewrite H. Qed.


Lemma column_add_row t row :
  column (add_row t row) = (column t ++ [serial_number row])%list.
Proof. unfold column, add_row. simpl. by rewrite map_app. Qed.

Section Allocation.
Variables (order part : string) (key : nat) (ap : AuthorizedPart).

Local Abbreviation row_of s :=
  {| serial_number := s; order_number := order; authorized_part := key |}.

Lemma generate_km t f k :
  get_active_part part (parts t) = Some (key, ap) ->
  km_state (column t) f k ->
  generate_serial_number order part t =
  (if k <? 999 then
     Some (Ok (row_of (format_km f (k + 1)),
               add_row t (row_of (format_km f (k + 1)))))
   else if 999 <? f + 1 then Some (Raise KMLimitReached)
   else
     Some (Ok (row_of (format_km (f + 1) 1),
               add_row t (row_of (format_km (f + 1) 1))))).
Proof.
  intros Hpart Hst. pose proof Hst as (Hf & Hk & _).
  unfold generate_serial_number. rewrite Hpart, (get_next_km _ _ _ Hst).
  destruct (Nat.ltb_spec k 999).
  - destruct (km_state_next _ f k f (k + 1) Hst) as [Hnew _]; [lia..|].
    by rewrite ensure_unique_new.
  - destruct (Nat.ltb_spec 999 (f + 1)); [done|].
    destruct (km_state_next _ f k (f + 1) 1 Hst) as [Hnew _]; [lia..|].
    by rewrite ensure_unique_new.
Qed.

Lemma generate_km_first t :
  get_active_part part (parts t) = Some (key, ap) ->
  serial_rows t = [] ->
  generate_serial_number order part t
  = Some (Ok (row_of (format_km 1 1), add_row t (row_of (format_km 1 1)))).
Proof.
  intros Hpart Hempty. unfold generate_serial_number, column, add_row.
  rewrite Hpart, Hempty. reflexivity.
Qed.

Section Successive.
Variable t : Tables.
Hypothesis Hpart : get_active_part part (parts t) = Some (key, ap).
Hypothesis Hempty : serial_rows t = [].

Lemma tables_after_S n :
  tables_after order part t (S n) =
  match generate_serial_number order part (tables_after order part t n) with
  | Some (Ok (_, t'')) => t''
  | _ => tables_after order part t n
  end.
Proof. done. Qed.

Lemma tables_after_state n :
  forall a b, n = 999 * a + b -> a < 999 -> b < 999 ->
    parts (tables_after order part t (S n)) = parts t
    /\ km_state (column (tables_after order part t (S n))) (a + 1) (b + 1).
Proof.
  induction n as [|n IH]; intros a b Hn Ha Hb.
  - assert (a = 0 /\ b = 0) as [-> ->] by lia.
    rewrite tables_after_S. cbn [tables_after].
    rewrite (generate_km_first t Hpart Hempty). split; [done|].
    rewrite column_add_row. unfold column. rewrite Hempty. simpl.
    split_and!; [lia|lia|by left|].
    intros x [<-|[]]. exists 1, 1. split_and!; try done; lia.
  - rewrite tables_after_S.
    destruct b as [|b].
    + destruct a as [|a]; [lia|].
      destruct (IH a 998) as [Hp Hprev]; [lia..|].
      rewrite (generate_km _ _ _ ltac:(by rewrite Hp) Hprev).
      destruct (Nat.ltb_spec (998 + 1) 999); [lia|].
      destruct (Nat.ltb_spec 999 (a + 1 + 1)); [lia|].
      split; [done|]. rewrite column_add_row. cbn [serial_number].
      replace (S a + 1) with (a + 1 + 1) by lia.
      eapply km_state_next; [exact Hprev|lia..].
    + destruct (IH a b) as [Hp Hprev]; [lia..|].
      rewrite (generate_km _ _ _ ltac:(by rewrite Hp) Hprev).
      destruct (Nat.ltb_spec (b + 1) 999); [|lia].
      split; [done|]. rewrite column_add_row. cbn [serial_number].
      replace (S b + 1) with (b + 1 + 1) by lia.
      eapply km_state_next; [exact Hprev|lia..].
Qed.

Lemma tables_after_full d :
  parts (tables_after order part t (999 * 999 + d)) = parts t
  /\ km_state (column (tables_after order part t (999 * 999 + d))) 999 999.
Proof.
  induction d as [|d [IHp IH]].
  - replace (999 * 999 + 0) with (S (999 * 998 + 998)) by lia.
    apply (tables_after_state _ 998 998); lia.
  - rewrite Nat.add_succ_r, tables_after_S.
    by rewrite (generate_km _ _ _ ltac:(by rewrite IHp) IH).
Qed.

(** X16.  Successive allocations of the [KM] generator from an empty
    table, for an active part: allocation number [999 * a + b + 1]
    creates the row of [KM(a+1)W(b+1)R] with the order number of the call;
    the identifiers grow strictly; after [999 * 999] of them every
    allocation raises the limit error. *)
Theorem km_successive_allocations :
  (forall a b, a < 999 -> b < 999 ->
     generate_serial_number order part (tables_after order part t (999 * a + b))
     = Some (Ok (row_of (format_km (a + 1) (b + 1)),
                 add_row (tables_after order part t (999 * a + b))
                   (row_of (format_km (a + 1) (b + 1))))))
  /\ (forall a b a' b', a < 999 -> b < 999 -> a' < 999 -> b' < 999 ->
       999 * a + b < 999 * a' + b' ->
       String.ltb (format_km (a + 1) (b + 1)) (format_km (a' + 1) (b' + 1))
       = true)
  /\ (forall n, 999 * 999 <= n ->
       generate_serial_number order part (tables_after order part t n)
       = Some (Raise KMLimitReached)).
Proof.
  split_and!.
  - intros a b Ha Hb.
    destruct b as [|b].
    + destruct a as [|a].
      * replace (999 * 0 + 0) with 0 by lia. cbn [tables_after].
        by apply generate_km_first.
      * destruct (tables_after_state (999 * a + 998) a 998) as [Hp Hprev];
          [lia..|].
        replace (999 * S a + 0) with (S (999 * a + 998)) by lia.
        rewrite (generate_km _ _ _ ltac:(by rewrite Hp) Hprev).
        destruct (Nat.ltb_spec (998 + 1) 999); [lia|].
        destruct (Nat.ltb_spec 999 (a + 1 + 1)); [lia|].
        by replace (S a + 1) with (a + 1 + 1) by lia.
    + destruct (tables_after_state (999 * a + b) a b) as [Hp Hprev]; [lia..|].
      replace (999 * a + S b) with (S (999 * a + b)) by lia.
      rewrite (generate_km _ _ _ ltac:(by rewrite Hp) Hprev).
      destruct (Nat.ltb_spec (b + 1) 999); [|lia].
      by replace (S b + 1) with (b + 1 + 1) by lia.
  - intros a b a' b' Ha Hb Ha' Hb' Hlt. apply km_lt; lia.
  - intros n Hn.
    replace n with (999 * 999 + (n - 999 * 999)) by lia.
    destruct (tables_after_full (n - 999 * 999)) as [Hp Hst].
    by rewrite (generate_km _ _ _ ltac:(by rewrite Hp) Hst).
Qed.

End Successive.
End Allocation.


Lemma km_successive_allocations_witness :
  let order := "ORD-7" in
  let part := "P-100" in
  let t := {| parts := [{| part_number := "P-100"; part_is_active := true |}];
              serial_rows := [] |} in
  (forall a b, a < 999 -> b < 999 ->
     generate_serial_number order part (tables_after order part t (999 * a + b))
     = Some (Ok ({| serial_number := format_km (a + 1) (b + 1);
                    order_number := order; authorized_part := 0 |},
                 add_row (tables_after order part t (999 * a + b))
                   {| serial_number := format_km (a + 1) (b + 1);
                      order_number := order; authorized_part := 0 |})))
  /\ (forall a b a' b', a < 999 -> b < 999 -> a' < 999 -> b' < 999 ->
       999 * a + b < 999 * a' + b' ->
       String.ltb (format_km (a + 1) (b + 1)) (format_km (a' + 1) (b' + 1))
       = true)
  /\ (forall n, 999 * 999 <= n ->
       generate_serial_number order part (tables_after order part t n)
       = Some (Raise KMLimitReached)).
Proof.
  intros order part t.
  apply (km_successive_allocations order part 0
           {| part_number := "P-100"; part_is_active := true |} t).
  - reflexivity.
  - reflexivity.
Defined.


(** ** The retry loop *)

Lemma ensure_unique_answers fuel :
  forall attempts s store,
    attempts < max_attempts -> max_attempts <= fuel + attempts ->
    exists r, ensure_unique fuel attempts s store = Some r.
Proof.
  induction fuel as [|fuel IH]; intros attempts s store Ha Hf;
    [unfold max_attempts in *; lia|].
  cbn [ensure_unique]. destruct (negb (exists_serial s store)); [eauto|].
  destruct (Nat.leb_spec max_attempts (attempts + 1)); [eauto|].
  destruct (greatest store) as [last|]; [|eauto].
  apply IH; unfold max_attempts in *; lia.
Qed.

Lemma ensure_unique_new_result fuel :
  forall attempts s store s',
    ensure_unique fuel attempts s store = Some (Ok s') ->
    exists_serial s' store = false.
Proof.
  induction fuel as [|fuel IH]; intros attempts s store s';
    cbn [ensure_unique].
  - destruct (exists_serial s store) eqn:He; cbn [negb]; [done|].
    intros H. by simplify_eq.
  - destruct (exists_serial s store) eqn:He; cbn [negb].
    2:{ intros H. by simplify_eq. }
    destruct (max_attempts <=? attempts + 1); [done|].
    destruct (greatest store) as [last|]; [|done].
    apply IH.
Qed.

Lemma exists_serial_In s store :
  exists_serial s store = true <-> In s store.
Proof.
  unfold exists_serial. rewrite existsb_exists. split.
  - intros (x & Hx & Heq). apply String.eqb_eq in Heq. by subst.
  - intros H. exists s. split; [done|]. apply String.eqb_refl.
Qed.

(** X17.  The [KM] generator always answers, within its 100 retries, and
    never creates a duplicate: a call either raises and writes nothing, or
    appends exactly one row, with the order number of the call, whose
    identifier no row had; so identifiers that are pairwise distinct stay
    so. *)
Theorem km_generate_answers order part t :
  exists r,
    generate_serial_number order part t = Some r
    /\ match r with
       | Raise _ => True
       | Ok (row, t') =>
           t' = add_row t row
           /\ order_number row = order
           /\ ~ In (serial_number row) (column t)
           /\ (NoDup (column t) -> NoDup (column t'))
       end.
Proof.
  unfold generate_serial_number.
  destruct (get_active_part part (parts t)) as [[key ap]|];
    [|by eexists; split].
  destruct (get_next_serial_number (column t)) as [s|e];
    [|by eexists; split].
  destruct (ensure_unique_answers max_attempts 0 s (column t)) as [r Hr];
    [unfold max_attempts; lia..|].
  rewrite Hr. destruct r as [s'|e]; [|by eexists; split].
  eexists. split; [reflexivity|]. simpl.
  apply ensure_unique_new_result in Hr.
  assert (Hnew : ~ In s' (column t)).
  { intros Hin. apply exists_serial_In in Hin. congruence. }
  split_and!; try done.
  intros Hnd. unfold column. simpl. rewrite map_app. simpl.
  apply NoDup_app. split_and!; [done| |apply NoDup_singleton].
  intros x Hx Hx'. apply list_elem_of_singleton in Hx'. subst x.
  apply Hnew. by apply list_elem_of_In.
Qed.

(** ** A table the generator cannot read *)

Lemma ltb_first_code y x :
  (String.ltb y x = true -> first_code y <= first_code x)
  /\ (String.ltb y x = false -> first_code x <= first_code y).
Proof.
  unfold String.ltb, first_code.
  destruct y as [|a y], x as [|b x]; simpl; try (split; intros; done || lia).
  rewrite ascii_compare_nat.
  destruct (Nat.compare_spec (nat_of_ascii a) (nat_of_ascii b));
    split; intros; done || lia.
Qed.

Lemma greatest_first_code l g :
  greatest l = Some g -> forall x, In x l -> first_code x <= first_code g.
Proof.
  revert g. induction l as [|y l IH]; intros g; simpl; [done|].
  destruct (greatest l) as [z|] eqn:Hz.
  - destruct (String.ltb z y) eqn:Hlt; intros H; injection H as <-;
      intros x [->|Hx]; try done.
    + specialize (IH z eq_refl x Hx).
      pose proof (proj1 (ltb_first_code z y) Hlt). lia.
    + by apply (proj2 (ltb_first_code z x)).
    + by apply IH.
  - intros H; injection H as <-. intros x [->|Hx]; [done|].
    destruct l; [done|]. simpl in Hz.
    destruct (greatest l); [destruct (String.ltb _ _)|]; done.
Qed.

Lemma match_km_first_code s :
  first_code s <> 75 -> match_km s = None.
Proof.
  unfold match_km, first_code. destruct s as [|a s]; [done|].
  intros Ha. destruct (Ascii.eqb_spec a "K") as [->|Hne]; [done|].
  destruct a as [[] [] [] [] [] [] [] []]; try done.
Qed.

Lemma ensure_unique_blocked fuel :
  forall attempts s store g,
    attempts < max_attempts -> max_attempts <= fuel + attempts ->
    exists_serial s store = true ->
    greatest store = Some g -> match_km g = None ->
    ensure_unique fuel attempts s store = Some (Raise KMNotUnique).
Proof.
  induction fuel as [|fuel IH]; intros attempts s store g Ha Hf He Hg Hm;
    [unfold max_attempts in *; lia|].
  cbn [ensure_unique]. rewrite He. cbn [negb].
  destruct (Nat.leb_spec max_attempts (attempts + 1)); [done|].
  rewrite Hg, Hm. apply (IH _ _ _ g); try done;
    unfold max_attempts in *; lia.
Qed.

(** X18.  The two generators share one table.  Once it holds an identifier
    whose first character sorts after [K], as does every identifier the
    bucketed generator returns from 2026 on, the [KM] generator reads the
    greatest identifier, finds no [KM] counters in it and falls back to
    [KM001W001R]: it creates that identifier if the table does not hold
    it, and otherwise gives up after its retries, every time. *)
Theorem km_generator_blocked order part t x :
  In x (column t) -> 75 < first_code x ->
  get_next_serial_number (column t) = Ok "KM001W001R"
  /\ generate_serial_number order part t =
     match get_active_part part (parts t) with
     | None => Some (Raise KMPartNotAuthorized)
     | Some (key, _) =>
         if exists_serial "KM001W001R" (column t)
         then Some (Raise KMNotUnique)
         else
           let row := {| serial_number := "KM001W001R";
                         order_number := order; authorized_part := key |} in
           Some (Ok (row, add_row t row))
     end
  /\ forall authorized y m store s store',
       (2026 <= y)%Z ->
       Serials.generate_serial_number authorized y m store = Ok (s, store') ->
       75 < first_code s.
Proof.
  intros Hx Hcode.
  destruct (greatest (column t)) as [g|] eqn:Hg.
  2:{ destruct (column t) as [|z l]; [done|]. simpl in Hg.
      destruct (greatest l); [destruct (String.ltb _ _)|]; done. }
  pose proof (greatest_first_code _ _ Hg x Hx) as Hge.
  assert (Hm : match_km g = None) by (apply match_km_first_code; lia).
  assert (Hnext : get_next_serial_number (column t) = Ok "KM001W001R").
  { unfold get_next_serial_number. by rewrite Hg, Hm. }
  split_and!; [done| |].
  - unfold generate_serial_number. rewrite Hnext.
    destruct (get_active_part part (parts t)) as [[key ap]|]; [|done].
    destruct (exists_serial "KM001W001R" (column t)) eqn:He.
    + rewrite (ensure_unique_blocked _ _ _ _ g); try done;
        unfold max_attempts; lia.
    + by rewrite ensure_unique_new.
  - intros authorized y m store s store' Hy Hgen.
    apply generate_serial_number_form in Hgen
      as (yl & ml & f & k & Hyl & _ & -> & _).
    unfold get_year_letter in Hyl.
    destruct (y <? 2025)%Z; [done|].
    destruct (y - 2025 >? 25)%Z eqn:Hhi; [done|].
    injection Hyl as <-. unfold format_serial. cbn [append first_code].
    rewrite Z.gtb_ltb in Hhi. apply Z.ltb_ge in Hhi.
    unfold chr, ord. change (nat_of_ascii "K") with 75.
    rewrite nat_ascii_embedding; lia.
Qed.

Lemma km_generator_blocked_witness :
  let t := {| parts := [{| part_number := "P-100"; part_is_active := true |}];
              serial_rows :=
                [{| serial_number := "KM001W001R"; order_number := "A";
                    authorized_part := 0 |};
                 {| serial_number := "LA001-001M"; order_number := "B";
                    authorized_part := 0 |}] |} in
  get_next_serial_number (column t) = Ok "KM001W001R"
  /\ generate_serial_number "C" "P-100" t =
     match get_active_part "P-100" (parts t) with
     | None => Some (Raise KMPartNotAuthorized)
     | Some (key, _) =>
         if exists_serial "KM001W001R" (column t)
         then Some (Raise KMNotUnique)
         else
           let row := {| serial_number := "KM001W001R";
                         order_number := "C"; authorized_part := key |} in
           Some (Ok (row, add_row t row))
     end
  /\ forall authorized y m store s store',
       (2026 <= y)%Z ->
       Serials.generate_serial_number authorized y m store = Ok (s, store') ->
       75 < first_code s.
Proof.
  intros t.
  apply (km_generator_blocked "C" "P-100" t "LA001-001M").
  - right. left. reflexivity.
  - vm_compute. lia.
Defined.

End LegacyFacts.


Module OperatorsFacts.
Import Workflow Models ServiceFacts HandlerFacts WorkflowExtras.

Local Opaque post_save_record pre_save.

(** X19.  [assign_operation] of operators/views.py, asked by a supervisor or
    administrator for a valid target, makes no test on the target: it
    succeeds on any existing record, which it puts [IN_PROGRESS] for the
    target with the times of the request, and when the target already
    holds another record in progress the target holds two afterwards. *)
Theorem supervisor_assign_unchecked receivers now request_user
    process_record_id t db r :
  role_in [SUPERVISOR; ADMIN] (role_of request_user db) = true ->
  process_records db !! process_record_id = Some r ->
  role_in [OPERATOR; SUPERVISOR; ADMIN] (role_of t db) = true ->
  exists db',
    Operators.assign_operation receivers now request_user process_record_id
      (Some t) db = (Ok tt, db')
    /\ process_records db'
       = <[process_record_id :=
             set_assigned_at (Some now)
               (set_started_at (Some now)
                  (set_status IN_PROGRESS
                     (set_assigned_operator (Some t) r)))]> (process_records db)
    /\ (forall j rj, j <> process_record_id ->
          process_records db !! j = Some rj -> holds t rj ->
          ~ exclusive db').
Proof.
  intros Hrole Hr Htarget.
  assert (Hop : role_in [OPERATOR; SUPERVISOR; ADMIN] (role_of request_user db)
                = true).
  { destruct (role_of request_user db) as [[]|]; done. }
  assert (Hno : bool_decide (role_of request_user db = Some OPERATOR) = false).
  { apply bool_decide_eq_false. intros Heq. by rewrite Heq in Hrole. }
  unfold Operators.assign_operation, operator_required. rewrite Hop.
  unfold atomic, bind, read, get_record_or_404, save. simpl. rewrite Hr.
  rewrite Hrole.
  destruct (users db !! t) as [o|] eqn:Ht.
  2:{ unfold role_of in Htarget. by rewrite Ht in Htarget. }
  rewrite Htarget, Hno. simpl.
  rewrite !pre_save_started by done.
  set (r' := set_assigned_at (Some now) _).
  destruct (post_save_record_tables receivers now r'
              (save_record process_record_id r' db))
    as (Hrec & _).
  set (db1 := post_save_record receivers now r'
                (save_record process_record_id r' db)) in *.
  assert (Hfinal : forall db',
    process_records db' = process_records db1 ->
    process_records db' = <[process_record_id := r']> (process_records db)
    /\ (forall j rj, j <> process_record_id ->
          process_records db !! j = Some rj -> holds t rj ->
          ~ exclusive db')).
  { intros db' Hdb'. rewrite Hdb', Hrec. split; [done|].
    intros j rj Hj Hrj Hh Hex. apply Hj.
    apply (Hex t j process_record_id rj r').
    - rewrite Hdb', Hrec. simpl. by rewrite list_lookup_insert_ne.
    - rewrite Hdb', Hrec. simpl.
      rewrite list_lookup_insert_eq; [done|]. by eapply lookup_lt_Some.
    - done.
    - done. }
  unfold write, ret.
  destruct (serials db1 !! pr_serial r') as [s|];
    [destruct (bool_decide (sn_status s = S_CREATED))|];
    (eexists; split; [reflexivity|]); by apply Hfinal.
Qed.

(** The supervisor of [line_db] gives operator 0, who holds the first
    record in [assigned_db], the second one as well. *)
Lemma supervisor_assign_unchecked_witness :
  exists db',
    Operators.assign_operation true 9 1 1 (Some 0) (assigned_db true)
      = (Ok tt, db')
    /\ process_records db'
       = <[1 :=
             set_assigned_at (Some 9)
               (set_started_at (Some 9)
                  (set_status IN_PROGRESS
                     (set_assigned_operator (Some 0) (new_record 0 1))))]>
           (process_records (assigned_db true))
    /\ (forall j rj, j <> 1 ->
          process_records (assigned_db true) !! j = Some rj -> holds 0 rj ->
          ~ exclusive db').
Proof.
  apply (supervisor_assign_unchecked true 9 1 1 0 (assigned_db true)
           (new_record 0 1)); reflexivity.
Defined.

(** X20.  The same handler asked by an operator makes both tests, on the
    record's assignee first: a record that has an assignee is refused as
    already assigned, an unassigned one is refused as busy when the
    requester holds a record in progress; nothing is written. *)
Theorem operator_assign_checked receivers now request_user process_record_id
    target_user_id db r :
  role_of request_user db = Some OPERATOR ->
  process_records db !! process_record_id = Some r ->
  assigned_operator r <> None
  \/ (exists j rj, process_records db !! j = Some rj /\ holds request_user rj) ->
  Operators.assign_operation receivers now request_user process_record_id
    target_user_id db
  = (Raise (if bool_decide (assigned_operator r = None) then ActorBusy
            else AlreadyAssigned), db).
Proof.
  intros Hrole Hr Hcase.
  unfold Operators.assign_operation, operator_required. rewrite Hrole.
  unfold atomic, bind, read, get_record_or_404. simpl. rewrite Hr, !Hrole.
  change (role_in [SUPERVISOR; ADMIN] (Some OPERATOR)) with false.
  cbv iota.
  assert (Htgt :
    (match target_user_id with
     | Some t => ret (E := view_error) request_user
     | None => ret request_user
     end) db = (Ok request_user, db)) by by destruct target_user_id.
  rewrite Htgt. rewrite (bool_decide_eq_true_2 (Some OPERATOR = Some OPERATOR))
    by done.
  destruct (bool_decide (assigned_operator r = None)) eqn:Hnone; [|done].
  apply bool_decide_eq_true in Hnone.
  destruct Hcase as [?|(j & rj & Hj & Hh)]; [done|]. simpl.
  destruct (existing_assignment request_user (process_records db)) eqn:He;
    [done|].
  by destruct (existing_assignment_None _ _ He j rj).
Qed.

(** Operator 0, who holds the first record in [assigned_db], asks for the
    second. *)
Lemma operator_assign_checked_witness :
  Operators.assign_operation true 9 0 1 None (assigned_db true)
  = (Raise ActorBusy, assigned_db true).
Proof.
  apply (operator_assign_checked true 9 0 1 None (assigned_db true)
           (new_record 0 1)); [reflexivity..|].
  right. exists 0, held_record. split; [reflexivity|]. split; reflexivity.
Defined.

Local Transparent post_save_record pre_save.

End OperatorsFacts.
